(** * ecdsa.c over the bignum.h interface: a shallow embedding

    The development follows [ios/Classes/ecdsa.c].  Limb integers are the
    nine 32-bit words of [bignum256] (bignum.h); C's unsigned arithmetic is
    written out with its wrap-around.  The operations declared in bignum.h
    are implemented in bignum.c, which is not among the sources at hand:
    they are taken as an interface ([BignumOps]) with the contract the
    specification gives them ([BignumSpec]), and a reference instance shows
    that the contract can be met. *)

From Stdlib Require Import ZArith List Bool Lia.
Import ListNotations.
Local Open Scope Z_scope.

(** ** Machine integers *)

(** [uint32_t]: arithmetic is modulo 2^32. *)
Definition u32 (v : Z) : Z := v mod 2 ^ 32.

(** [~c] on a [uint32_t]. *)
Definition not32 (c : Z) : Z := u32 (Z.lnot c).

(** A C [for (j = lo; j < lo + n; j++)] loop over a state [S]. *)
Fixpoint for_up {S : Type} (n : nat) (j : nat) (body : nat -> S -> S) (s : S) : S :=
  match n with
  | O => s
  | Datatypes.S n' => for_up n' (Datatypes.S j) body (body j s)
  end.

(** ** bignum.h: the limb integer *)

(** [typedef struct { uint32_t val[9]; } bignum256;] *)
Record bignum256 : Type := mk_bignum256 {
  val0 : Z; val1 : Z; val2 : Z; val3 : Z; val4 : Z;
  val5 : Z; val6 : Z; val7 : Z; val8 : Z
}.

(** [a->val[j]]; the code only uses indices 0..8. *)
Definition val (a : bignum256) (j : nat) : Z :=
  match j with
  | 0%nat => val0 a | 1%nat => val1 a | 2%nat => val2 a
  | 3%nat => val3 a | 4%nat => val4 a | 5%nat => val5 a
  | 6%nat => val6 a | 7%nat => val7 a | 8%nat => val8 a
  | _ => 0
  end.

(** [a->val[j] = v]. *)
Definition set_val (a : bignum256) (j : nat) (v : Z) : bignum256 :=
  let '(mk_bignum256 a0 a1 a2 a3 a4 a5 a6 a7 a8) := a in
  match j with
  | 0%nat => mk_bignum256 v a1 a2 a3 a4 a5 a6 a7 a8
  | 1%nat => mk_bignum256 a0 v a2 a3 a4 a5 a6 a7 a8
  | 2%nat => mk_bignum256 a0 a1 v a3 a4 a5 a6 a7 a8
  | 3%nat => mk_bignum256 a0 a1 a2 v a4 a5 a6 a7 a8
  | 4%nat => mk_bignum256 a0 a1 a2 a3 v a5 a6 a7 a8
  | 5%nat => mk_bignum256 a0 a1 a2 a3 a4 v a6 a7 a8
  | 6%nat => mk_bignum256 a0 a1 a2 a3 a4 a5 v a7 a8
  | 7%nat => mk_bignum256 a0 a1 a2 a3 a4 a5 a6 v a8
  | 8%nat => mk_bignum256 a0 a1 a2 a3 a4 a5 a6 a7 v
  | _ => a
  end.

(** All nine words zero: what [memzero(&a, sizeof(a))] leaves behind. *)
Definition bn_zeroed : bignum256 := mk_bignum256 0 0 0 0 0 0 0 0 0.

(** The integer a limb array stands for: limbs of 30 bits, least
    significant first (bignum.h: "val[0] are lowest 30 bits"). *)
Definition bn_value (a : bignum256) : Z :=
  val0 a + 2 ^ 30 * (val1 a + 2 ^ 30 * (val2 a + 2 ^ 30 * (val3 a + 2 ^ 30 *
  (val4 a + 2 ^ 30 * (val5 a + 2 ^ 30 * (val6 a + 2 ^ 30 * (val7 a + 2 ^ 30 *
   val8 a))))))).

Definition limb30 (v : Z) : Prop := 0 <= v < 2 ^ 30.

(** Every limb within its 30 bits. *)
Definition bn_normalized (a : bignum256) : Prop :=
  limb30 (val0 a) /\ limb30 (val1 a) /\ limb30 (val2 a) /\ limb30 (val3 a) /\
  limb30 (val4 a) /\ limb30 (val5 a) /\ limb30 (val6 a) /\ limb30 (val7 a) /\
  limb30 (val8 a).

Definition word32 (v : Z) : Prop := 0 <= v < 2 ^ 32.

(** Every limb a [uint32_t]: what the C type alone guarantees. *)
Definition bn_words (a : bignum256) : Prop :=
  word32 (val0 a) /\ word32 (val1 a) /\ word32 (val2 a) /\ word32 (val3 a) /\
  word32 (val4 a) /\ word32 (val5 a) /\ word32 (val6 a) /\ word32 (val7 a) /\
  word32 (val8 a).

(** "Value bounded but not canonical": normalized limbs, value below twice
    the modulus. *)
Definition bn_partly_reduced (prime a : bignum256) : Prop :=
  bn_normalized a /\ bn_value a < 2 * bn_value prime.

(** A modulus of the class the engine is written for (the prime and the
    order of secp256k1 are such): 256 bits, close to 2^256. *)
Definition bn_modulus (prime : bignum256) : Prop :=
  bn_normalized prime /\ 2 ^ 256 - 2 ^ 224 <= bn_value prime < 2 ^ 256.

(** The normalized limb array of a number. *)
Definition bn_of_Z (n : Z) : bignum256 :=
  let n1 := n / 2 ^ 30 in let n2 := n1 / 2 ^ 30 in let n3 := n2 / 2 ^ 30 in
  let n4 := n3 / 2 ^ 30 in let n5 := n4 / 2 ^ 30 in let n6 := n5 / 2 ^ 30 in
  let n7 := n6 / 2 ^ 30 in let n8 := n7 / 2 ^ 30 in
  mk_bignum256 (n mod 2 ^ 30) (n1 mod 2 ^ 30) (n2 mod 2 ^ 30) (n3 mod 2 ^ 30)
               (n4 mod 2 ^ 30) (n5 mod 2 ^ 30) (n6 mod 2 ^ 30) (n7 mod 2 ^ 30)
               (n8 mod 2 ^ 30).

(** ** bignum.h: the operations ecdsa.c calls

    One field per prototype of bignum.h that ecdsa.c uses.  An in-out
    pointer argument becomes an argument and a result; [int] results used as
    truth values are [bool]. *)
Class BignumOps : Type := {
  (** [void bn_read_be(const uint8_t *in_number, bignum256 *out_number)] *)
  bn_read_be : list Z -> bignum256;
  (** [void bn_write_be(const bignum256 *in_number, uint8_t *out_number)] *)
  bn_write_be : bignum256 -> list Z;
  (** [void bn_zero(bignum256 *a)] *)
  bn_zero : bignum256;
  (** [int bn_is_zero(const bignum256 *a)] *)
  bn_is_zero : bignum256 -> bool;
  (** [int bn_is_less(const bignum256 *a, const bignum256 *b)] *)
  bn_is_less : bignum256 -> bignum256 -> bool;
  (** [int bn_is_equal(const bignum256 *a, const bignum256 *b)] *)
  bn_is_equal : bignum256 -> bignum256 -> bool;
  (** [void bn_cmov(bignum256 *res, int cond, const bignum256 *truecase,
      const bignum256 *falsecase)] *)
  bn_cmov : bool -> bignum256 -> bignum256 -> bignum256;
  (** [void bn_lshift(bignum256 *a)] *)
  bn_lshift : bignum256 -> bignum256;
  (** [void bn_mult_half(bignum256 *x, const bignum256 *prime)] *)
  bn_mult_half : bignum256 -> bignum256 -> bignum256;
  (** [void bn_mult_k(bignum256 *x, uint8_t k, const bignum256 *prime)] *)
  bn_mult_k : bignum256 -> Z -> bignum256 -> bignum256;
  (** [void bn_mod(bignum256 *x, const bignum256 *prime)] *)
  bn_mod : bignum256 -> bignum256 -> bignum256;
  (** [void bn_multiply(const bignum256 *k, bignum256 *x,
      const bignum256 *prime)] *)
  bn_multiply : bignum256 -> bignum256 -> bignum256 -> bignum256;
  (** [void bn_fast_mod(bignum256 *x, const bignum256 *prime)] *)
  bn_fast_mod : bignum256 -> bignum256 -> bignum256;
  (** [void bn_sqrt(bignum256 *x, const bignum256 *prime)] *)
  bn_sqrt : bignum256 -> bignum256 -> bignum256;
  (** [void bn_inverse(bignum256 *x, const bignum256 *prime)] *)
  bn_inverse : bignum256 -> bignum256 -> bignum256;
  (** [void bn_add(bignum256 *a, const bignum256 *b)] *)
  bn_add : bignum256 -> bignum256 -> bignum256;
  (** [void bn_addmod(bignum256 *a, const bignum256 *b,
      const bignum256 *prime)] *)
  bn_addmod : bignum256 -> bignum256 -> bignum256 -> bignum256;
  (** [void bn_subi(bignum256 *a, uint32_t b, const bignum256 *prime)] *)
  bn_subi : bignum256 -> Z -> bignum256 -> bignum256;
  (** [void bn_subtractmod(const bignum256 *a, const bignum256 *b,
      bignum256 *res, const bignum256 *prime)] *)
  bn_subtractmod : bignum256 -> bignum256 -> bignum256 -> bignum256;
  (** [void bn_subtract(const bignum256 *a, const bignum256 *b,
      bignum256 *res)] *)
  bn_subtract : bignum256 -> bignum256 -> bignum256
}.

(** ** ecdsa.h: points and curves *)

(** [curve_point]: affine coordinates. *)
Record curve_point : Type := mk_point { px : bignum256; py : bignum256 }.

(** [typedef struct jacobian_curve_point { bignum256 x, y, z; }] *)
Record jacobian_curve_point : Type :=
  mk_jacobian { jx : bignum256; jy : bignum256; jz : bignum256 }.

(** [ecdsa_curve], with the members ecdsa.c reads: [prime], [G], [order],
    [a] (an [int]), [b] and the table [cp[64][8]] of precomputed multiples
    of [G]. *)
Record ecdsa_curve : Type := mk_curve {
  curve_prime : bignum256;
  curve_G : curve_point;
  curve_order : bignum256;
  curve_a : Z;
  curve_b : bignum256;
  curve_cp : nat -> nat -> curve_point
}.

(** ** Effects

    The code draws from [random32()], keeps the scratch values [a] and
    [jres] of both multiplication routines in static storage, and checks
    preconditions with [assert].  A computation takes the state and either
    returns a value with the new state, stops at a failed assertion, or
    finds the random source exhausted. *)

Record state : Type := mk_state {
  rand : list Z;                       (* the words random32() will return *)
  pm_a : bignum256;                    (* point_multiply: static a *)
  pm_jres : jacobian_curve_point;      (* point_multiply: static jres *)
  sm_a : bignum256;                    (* scalar_multiply: static a *)
  sm_jres : jacobian_curve_point       (* scalar_multiply: static jres *)
}.

Inductive outcome (A : Type) : Type :=
| Ok (v : A) (s : state)
| Abort
| Starved.
Arguments Ok {A} v s.
Arguments Abort {A}.
Arguments Starved {A}.

Definition M (A : Type) : Type := state -> outcome A.

Definition ret {A : Type} (v : A) : M A := fun s => Ok v s.

Definition bind {A B : Type} (c : M A) (k : A -> M B) : M B :=
  fun s => match c s with
           | Ok v s' => k v s'
           | Abort => Abort
           | Starved => Starved
           end.

Notation "x <- c1 ;; c2" := (bind c1 (fun x => c2))
  (at level 61, c1 at next level, right associativity).
Notation "c1 ;; c2" := (bind c1 (fun _ => c2))
  (at level 61, right associativity).

(** [assert(b)] *)
Definition assert (b : bool) : M unit :=
  fun s => if b then Ok tt s else Abort.

(** rand.h: [uint32_t random32(void)] *)
Definition random32 : M Z :=
  fun s => match rand s with
           | [] => Starved
           | w :: ws => Ok (u32 w) (mk_state ws (pm_a s) (pm_jres s) (sm_a s) (sm_jres s))
           end.

Definition put_pm_a (a : bignum256) : M unit :=
  fun s => Ok tt (mk_state (rand s) a (pm_jres s) (sm_a s) (sm_jres s)).
Definition put_pm_jres (j : jacobian_curve_point) : M unit :=
  fun s => Ok tt (mk_state (rand s) (pm_a s) j (sm_a s) (sm_jres s)).
Definition put_sm_a (a : bignum256) : M unit :=
  fun s => Ok tt (mk_state (rand s) (pm_a s) (pm_jres s) a (sm_jres s)).
Definition put_sm_jres (j : jacobian_curve_point) : M unit :=
  fun s => Ok tt (mk_state (rand s) (pm_a s) (pm_jres s) (sm_a s) j).
Definition get {A : Type} (f : state -> A) : M A := fun s => Ok (f s) s.

(** [for (j = lo; j < lo + n; j++)] with an effectful body. *)
Fixpoint for_upM {S : Type} (n : nat) (j : nat) (body : nat -> S -> M S) (s : S) : M S :=
  match n with
  | O => ret s
  | Datatypes.S n' => s' <- body j s ;; for_upM n' (Datatypes.S j) body s'
  end.

(** [for (i = n - 1; i >= 0; i--)] with an effectful body. *)
Fixpoint for_downM {S : Type} (n : nat) (body : nat -> S -> M S) (s : S) : M S :=
  match n with
  | O => ret s
  | Datatypes.S i => s' <- body i s ;; for_downM i body s'
  end.

(** What [memzero(&jres, sizeof(jres))] leaves behind. *)
Definition jacobian_zeroed : jacobian_curve_point :=
  mk_jacobian bn_zeroed bn_zeroed bn_zeroed.

(** Bytes [bytes] written into [buf] from offset [off] on. *)
Definition store (buf : list Z) (off : nat) (bytes : list Z) : list Z :=
  firstn off buf ++ bytes ++ skipn (off + length bytes) buf.

Section Ecdsa.
Context {ops : BignumOps}.

(** ** Affine points (ecdsa.c, lines 17-148) *)

Definition point_copy (cp1 : curve_point) : curve_point := cp1.

Definition point_set_infinity : curve_point := mk_point bn_zero bn_zero.

Definition point_is_infinity (p : curve_point) : bool :=
  bn_is_zero (px p) && bn_is_zero (py p).

Definition point_is_equal (p q : curve_point) : bool :=
  bn_is_equal (px p) (px q) && bn_is_equal (py p) (py q).

Definition point_is_negative_of (p q : curve_point) : bool :=
  if negb (bn_is_equal (px p) (px q)) then false
  else if bn_is_zero (py p) then false
  else negb (bn_is_equal (py p) (py q)).

(** [cp = cp + cp] *)
Definition point_double (curve : ecdsa_curve) (cp : curve_point) : curve_point :=
  let prime := curve_prime curve in
  if point_is_infinity cp then cp
  else if bn_is_zero (py cp) then point_set_infinity
  else
    let lambda := py cp in
    let lambda := bn_mult_k lambda 2 prime in
    let lambda := bn_inverse lambda prime in
    let xr := px cp in
    let xr := bn_multiply xr xr prime in
    let xr := bn_mult_k xr 3 prime in
    let xr := bn_subi xr (u32 (- curve_a curve)) prime in
    let lambda := bn_multiply xr lambda prime in
    let xr := lambda in
    let xr := bn_multiply xr xr prime in
    let yr := px cp in
    let yr := bn_lshift yr in
    let xr := bn_subtractmod xr yr prime in
    let xr := bn_fast_mod xr prime in
    let xr := bn_mod xr prime in
    let yr := bn_subtractmod (px cp) xr prime in
    let yr := bn_multiply lambda yr prime in
    let yr := bn_subtractmod yr (py cp) prime in
    let yr := bn_fast_mod yr prime in
    let yr := bn_mod yr prime in
    mk_point xr yr.

(** [cp2 = cp1 + cp2]; the result is the new [cp2]. *)
Definition point_add (curve : ecdsa_curve) (cp1 cp2 : curve_point) : curve_point :=
  let prime := curve_prime curve in
  if point_is_infinity cp1 then cp2
  else if point_is_infinity cp2 then point_copy cp1
  else if point_is_equal cp1 cp2 then point_double curve cp2
  else if point_is_negative_of cp1 cp2 then point_set_infinity
  else
    let inv := bn_subtractmod (px cp2) (px cp1) prime in
    let inv := bn_inverse inv prime in
    let lambda := bn_subtractmod (py cp2) (py cp1) prime in
    let lambda := bn_multiply inv lambda prime in
    let xr := lambda in
    let xr := bn_multiply xr xr prime in
    let yr := px cp1 in
    let yr := bn_addmod yr (px cp2) prime in
    let xr := bn_subtractmod xr yr prime in
    let xr := bn_fast_mod xr prime in
    let xr := bn_mod xr prime in
    let yr := bn_subtractmod (px cp1) xr prime in
    let yr := bn_multiply lambda yr prime in
    let yr := bn_subtractmod yr (py cp1) prime in
    let yr := bn_fast_mod yr prime in
    let yr := bn_mod yr prime in
    mk_point xr yr.

(** ** Conditional negation (lines 150-165) *)

(** One pass of the body shared by the loop and the final limb:
    [tmp += 0x3fffffff + 2*prime->val[j] - a->val[j];]
    [a->val[j] = ((tmp & 0x3fffffff) & cond) | (a->val[j] & ~cond);] *)
Definition conditional_negate_limb (cond : Z) (prime : bignum256) (j : nat)
  (s : Z * bignum256) : Z * bignum256 :=
  let '(tmp, a) := s in
  let tmp := u32 (tmp + 0x3fffffff + 2 * val prime j - val a j) in
  let a := set_val a j (Z.lor (Z.land (Z.land tmp 0x3fffffff) cond)
                              (Z.land (val a j) (not32 cond))) in
  (tmp, a).

Definition conditional_negate (cond : Z) (a prime : bignum256) : M bignum256 :=
  assert (val a 8 <? 0x20000) ;;
  let '(tmp, a) :=
    for_up 8 0 (fun j s => let '(tmp, a) := conditional_negate_limb cond prime j s in
                           (Z.shiftr tmp 30, a)) (1, a) in
  let '(tmp, a) := conditional_negate_limb cond prime 8 (tmp, a) in
  assert (val a 8 <? 0x20000) ;;
  ret a.

(** ** Jacobian points (lines 167-400) *)

(** One draw of the nine limbs: eight of 30 bits, the ninth of 16. *)
Definition generate_k_draw (k : bignum256) : M bignum256 :=
  k <- for_upM 8 0 (fun i k => w <- random32 ;;
                              ret (set_val k i (Z.land w 0x3FFFFFFF))) k ;;
  w <- random32 ;;
  ret (set_val k 8 (Z.land w 0xFFFF)).

(** The [do ... while (bn_is_zero(k) || !bn_is_less(k, prime))] loop, with a
    bound on the number of draws. *)
Fixpoint generate_k_random_loop (fuel : nat) (k prime : bignum256) : M bignum256 :=
  match fuel with
  | O => fun _ => Starved
  | Datatypes.S fuel' =>
      k <- generate_k_draw k ;;
      if bn_is_zero k || negb (bn_is_less k prime)
      then generate_k_random_loop fuel' k prime
      else ret k
  end.

(** Every draw consumes nine words of the random source, so one more round
    than there are words left is never reached. *)
Definition generate_k_random (k prime : bignum256) : M bignum256 :=
  fun s => generate_k_random_loop (Datatypes.S (length (rand s))) k prime s.

Definition curve_to_jacobian (p : curve_point) (jp : jacobian_curve_point)
  (prime : bignum256) : M jacobian_curve_point :=
  z <- generate_k_random (jz jp) prime ;;
  let x := z in
  let x := bn_multiply z x prime in
  let y := x in
  let y := bn_multiply z y prime in
  let x := bn_multiply (px p) x prime in
  let y := bn_multiply (py p) y prime in
  ret (mk_jacobian x y z).

Definition jacobian_to_curve (jp : jacobian_curve_point) (prime : bignum256)
  : curve_point :=
  let y := jz jp in
  let y := bn_inverse y prime in
  let x := y in
  let x := bn_multiply x x prime in
  let y := bn_multiply x y prime in
  let x := bn_multiply (jx jp) x prime in
  let y := bn_multiply (jy jp) y prime in
  let x := bn_mod x prime in
  let y := bn_mod y prime in
  mk_point x y.

(** [az] is left uninitialised, and is not read, when [a == 0]; the model
    puts zeroes there. *)
Definition point_jacobian_add (p1 : curve_point) (p2 : jacobian_curve_point)
  (curve : ecdsa_curve) : M jacobian_curve_point :=
  let prime := curve_prime curve in
  let a := curve_a curve in
  assert ((-3 <=? a) && (a <=? 0)) ;;
  let xz := jz p2 in
  let xz := bn_multiply xz xz prime in
  let yz := jz p2 in
  let yz := bn_multiply xz yz prime in
  let az := if negb (a =? 0)
            then let az := xz in
                 let az := bn_multiply az az prime in
                 bn_mult_k az ((- a) mod 2 ^ 8) prime
            else bn_zeroed in
  let xz := bn_multiply (px p1) xz prime in
  let h := xz in
  let h := bn_subtractmod h (jx p2) prime in
  let h := bn_fast_mod h prime in
  let xz := bn_add xz (jx p2) in
  let is_doubling := bn_is_equal h prime in
  let yz := bn_multiply (py p1) yz prime in
  let r := bn_subtractmod yz (jy p2) prime in
  let yz := bn_add yz (jy p2) in
  let r2 := jx p2 in
  let r2 := bn_multiply r2 r2 prime in
  let r2 := bn_mult_k r2 3 prime in
  let r2 := if negb (a =? 0) then bn_subtractmod r2 az prime else r2 in
  let r := bn_cmov is_doubling r2 r in
  let h := bn_cmov is_doubling yz h in
  let hsqx := h in
  let hsqx := bn_multiply hsqx hsqx prime in
  let hcby := h in
  let hcby := bn_multiply hsqx hcby prime in
  let hsqx := bn_multiply xz hsqx prime in
  let hcby := bn_multiply yz hcby prime in
  let z3 := bn_multiply h (jz p2) prime in
  let x3 := r in
  let x3 := bn_multiply x3 x3 prime in
  let x3 := bn_subtractmod x3 hsqx prime in
  let x3 := bn_fast_mod x3 prime in
  let y3 := bn_subtractmod hsqx x3 prime in
  let y3 := bn_subtractmod y3 x3 prime in
  let y3 := bn_multiply r y3 prime in
  let y3 := bn_subtractmod y3 hcby prime in
  let y3 := bn_mult_half y3 prime in
  let y3 := bn_fast_mod y3 prime in
  ret (mk_jacobian x3 y3 z3).

Definition point_jacobian_double (p : jacobian_curve_point) (curve : ecdsa_curve)
  : M jacobian_curve_point :=
  let prime := curve_prime curve in
  assert ((-3 <=? curve_a curve) && (curve_a curve <=? 0)) ;;
  let m := jx p in
  let m := bn_multiply m m prime in
  let m := bn_mult_k m 3 prime in
  let az4 := jz p in
  let az4 := bn_multiply az4 az4 prime in
  let az4 := bn_multiply az4 az4 prime in
  let az4 := bn_mult_k az4 ((- curve_a curve) mod 2 ^ 8) prime in
  let m := bn_subtractmod m az4 prime in
  let m := bn_mult_half m prime in
  let msq := m in
  let msq := bn_multiply msq msq prime in
  let ysq := jy p in
  let ysq := bn_multiply ysq ysq prime in
  let xysq := jx p in
  let xysq := bn_multiply ysq xysq prime in
  let z3 := bn_multiply (jy p) (jz p) prime in
  let x3 := xysq in
  let x3 := bn_lshift x3 in
  let x3 := bn_fast_mod x3 prime in
  let x3 := bn_subtractmod msq x3 prime in
  let x3 := bn_fast_mod x3 prime in
  let y3 := bn_subtractmod xysq x3 prime in
  let y3 := bn_multiply m y3 prime in
  let ysq := bn_multiply ysq ysq prime in
  let y3 := bn_subtractmod y3 ysq prime in
  let y3 := bn_fast_mod y3 prime in
  ret (mk_jacobian x3 y3 z3).

(** ** Scalar multiplication (lines 402-619) *)

(** [arr[i] = v] on a C array held as a list. *)
Fixpoint array_set {A : Type} (arr : list A) (i : nat) (v : A) : list A :=
  match arr, i with
  | [], _ => []
  | _ :: t, O => v :: t
  | h :: t, Datatypes.S i' => h :: array_set t i' v
  end.

(** The opening of both multiplication routines: [a = k + 2^256], minus
    the order when [k] is even, written limb by limb into [a]; the result
    carries [is_non_zero] and the new [a].

    [for (j = 0; j < 8; j++) {]
    [  is_non_zero |= k->val[j];]
    [  tmp += 0x3fffffff + k->val[j] - (curve->order.val[j] & is_even);]
    [  a.val[j] = tmp & 0x3fffffff;  tmp >>= 30; }]
    [is_non_zero |= k->val[j];]
    [a.val[j] = tmp + 0xffff + k->val[j] - (curve->order.val[j] & is_even);] *)
Definition recode_scalar (curve : ecdsa_curve) (k a : bignum256) : Z * bignum256 :=
  let order := curve_order curve in
  let is_even := u32 (Z.land (val k 0) 1 - 1) in
  let '(tmp, is_non_zero, a) :=
    for_up 8 0
      (fun j '(tmp, is_non_zero, a) =>
         let is_non_zero := Z.lor is_non_zero (val k j) in
         let tmp := u32 (tmp + 0x3fffffff + val k j - Z.land (val order j) is_even) in
         let a := set_val a j (Z.land tmp 0x3fffffff) in
         (Z.shiftr tmp 30, is_non_zero, a))
      (1, 0, a) in
  let is_non_zero := Z.lor is_non_zero (val k 8) in
  let a := set_val a 8 (u32 (tmp + 0xffff + val k 8 - Z.land (val order 8) is_even)) in
  (is_non_zero, a).

(** [pmult[i] = (2*i+1) * p]; the array starts uninitialised (zeroes in the
    model) and every entry is written before it is read. *)
Definition point_multiply_table (curve : ecdsa_curve) (p : curve_point)
  : list curve_point :=
  let pmult := repeat (mk_point bn_zeroed bn_zeroed) 8 in
  let p7 := point_double curve p in
  let pmult := array_set pmult 7 p7 in
  let pmult := array_set pmult 0 p in
  for_up 7 1
    (fun i pmult =>
       let pmult := array_set pmult i (nth 7 pmult p) in
       array_set pmult i (point_add curve (nth (i - 1) pmult p) (nth i pmult p)))
    pmult.

(** The state of the main loop of [point_multiply]. *)
Record pm_loop : Type := mk_pm_loop {
  pl_aptr : nat; pl_abits : Z; pl_ashift : Z; pl_sign : Z;
  pl_jres : jacobian_curve_point
}.

(** One round of [for (i = 62; i >= 0; i--)]. *)
Definition point_multiply_round (curve : ecdsa_curve) (a : bignum256)
  (pmult : list curve_point) (p : curve_point) (i : nat) (l : pm_loop) : M pm_loop :=
  let prime := curve_prime curve in
  jres <- point_jacobian_double (pl_jres l) curve ;;
  jres <- point_jacobian_double jres curve ;;
  jres <- point_jacobian_double jres curve ;;
  jres <- point_jacobian_double jres curve ;;
  let ashift := pl_ashift l - 4 in
  let '(bits, aptr, abits, ashift) :=
    if ashift <? 0 then
      let bits := u32 (Z.shiftl (pl_abits l) (- ashift)) in
      let aptr := pred (pl_aptr l) in
      let abits := val a aptr in
      let ashift := ashift + 30 in
      (Z.lor bits (Z.shiftr abits ashift), aptr, abits, ashift)
    else (Z.shiftr (pl_abits l) ashift, pl_aptr l, pl_abits l, ashift) in
  let bits := Z.land bits 31 in
  let nsign := u32 (Z.shiftr bits 4 - 1) in
  let bits := Z.lxor bits nsign in
  let bits := Z.land bits 15 in
  z <- conditional_negate (Z.lxor (pl_sign l) nsign) (jz jres) prime ;;
  let jres := mk_jacobian (jx jres) (jy jres) z in
  jres <- point_jacobian_add (nth (Z.to_nat (Z.shiftr bits 1)) pmult p) jres curve ;;
  ret (mk_pm_loop aptr abits ashift nsign jres).

(** [res = k * p].  [a] and [jres] are static: what is in them when the
    function returns is what the next call finds. *)
Definition point_multiply (curve : ecdsa_curve) (k : bignum256) (p : curve_point)
  : M curve_point :=
  let prime := curve_prime curve in
  assert (bn_is_less k (curve_order curve)) ;;
  a <- get pm_a ;;
  let '(is_non_zero, a) := recode_scalar curve k a in
  put_pm_a a ;;
  assert (negb (Z.land (val a 0) 1 =? 0)) ;;
  if is_non_zero =? 0 then ret point_set_infinity
  else
    let pmult := point_multiply_table curve p in
    let aptr := 8%nat in
    let abits := val a aptr in
    let ashift := 12 in
    let bits := Z.shiftr abits ashift in
    let sign := u32 (Z.shiftr bits 4 - 1) in
    let bits := Z.lxor bits sign in
    let bits := Z.land bits 15 in
    jres <- get pm_jres ;;
    jres <- curve_to_jacobian (nth (Z.to_nat (Z.shiftr bits 1)) pmult p) jres prime ;;
    l <- for_downM 63 (point_multiply_round curve a pmult p)
                      (mk_pm_loop aptr abits ashift sign jres) ;;
    let jres := pl_jres l in
    z <- conditional_negate (pl_sign l) (jz jres) prime ;;
    let jres := mk_jacobian (jx jres) (jy jres) z in
    let res := jacobian_to_curve jres prime in
    put_pm_a bn_zeroed ;;
    put_pm_jres jacobian_zeroed ;;
    ret res.

(** [a] shifted right by four bits, limb by limb. *)
Definition shift_a_4 (a : bignum256) : bignum256 :=
  let a := for_up 8 0
    (fun j a => set_val a j (Z.lor (Z.shiftr (val a j) 4)
                                   (Z.shiftl (Z.land (val a (j + 1)) 0xf) 26))) a in
  set_val a 8 (Z.shiftr (val a 8) 4).

Definition lowbits_of (a : bignum256) : Z :=
  let lowbits := Z.land (val a 0) (Z.shiftl 1 5 - 1) in
  let lowbits := Z.lxor lowbits (u32 (Z.shiftr lowbits 4 - 1)) in
  Z.land lowbits 15.

(** One round of [for (i = 1; i < 64; i++)] of the table-driven routine. *)
Definition scalar_multiply_round (curve : ecdsa_curve) (i : nat)
  (s : bignum256 * jacobian_curve_point) : M (bignum256 * jacobian_curve_point) :=
  let prime := curve_prime curve in
  let '(a, jres) := s in
  let a := shift_a_4 a in
  let lowbits := lowbits_of a in
  y <- conditional_negate (u32 (Z.land lowbits 1 - 1)) (jy jres) prime ;;
  let jres := mk_jacobian (jx jres) y (jz jres) in
  jres <- point_jacobian_add (curve_cp curve i (Z.to_nat (Z.shiftr lowbits 1))) jres curve ;;
  ret (a, jres).

(** [res = k * G] with the precomputed table ([#if USE_PRECOMPUTED_CP]). *)
Definition scalar_multiply_precomputed (curve : ecdsa_curve) (k : bignum256)
  : M curve_point :=
  let prime := curve_prime curve in
  assert (bn_is_less k (curve_order curve)) ;;
  a <- get sm_a ;;
  let '(is_non_zero, a) := recode_scalar curve k a in
  put_sm_a a ;;
  assert (negb (Z.land (val a 0) 1 =? 0)) ;;
  if is_non_zero =? 0 then ret point_set_infinity
  else
    let lowbits := lowbits_of a in
    jres <- get sm_jres ;;
    jres <- curve_to_jacobian (curve_cp curve 0 (Z.to_nat (Z.shiftr lowbits 1))) jres prime ;;
    s <- for_upM 63 1 (scalar_multiply_round curve) (a, jres) ;;
    let '(a, jres) := s in
    y <- conditional_negate (u32 (Z.land (Z.shiftr (val a 0) 4) 1 - 1)) (jy jres) prime ;;
    let jres := mk_jacobian (jx jres) y (jz jres) in
    let res := jacobian_to_curve jres prime in
    put_sm_a bn_zeroed ;;
    put_sm_jres jacobian_zeroed ;;
    ret res.

(** options.h, which sets [USE_PRECOMPUTED_CP], is not among the sources:
    the switch is an argument. *)
Definition scalar_multiply (USE_PRECOMPUTED_CP : bool) (curve : ecdsa_curve)
  (k : bignum256) : M curve_point :=
  if USE_PRECOMPUTED_CP then scalar_multiply_precomputed curve k
  else point_multiply curve k (curve_G curve).

(** ** Signature operations (lines 621-721) *)

(** The result is the new [y]. *)
Definition uncompress_coords (curve : ecdsa_curve) (odd : Z) (x : bignum256)
  : bignum256 :=
  let prime := curve_prime curve in
  let y := x in
  let y := bn_multiply x y prime in
  let y := bn_subi y (u32 (- curve_a curve)) prime in
  let y := bn_multiply x y prime in
  let y := bn_add y (curve_b curve) in
  let y := bn_sqrt y prime in
  if negb (Z.land odd 0x01 =? Z.land (val y 0) 1)
  then bn_subtract prime y
  else y.

(** Returns 1 for a valid key and 0 otherwise. *)
Definition ecdsa_validate_pubkey (curve : ecdsa_curve) (pub : curve_point) : Z :=
  let prime := curve_prime curve in
  if point_is_infinity pub then 0
  else if negb (bn_is_less (px pub) prime) || negb (bn_is_less (py pub) prime) then 0
  else
    let y_2 := py pub in
    let x3_ax_b := px pub in
    let y_2 := bn_multiply (py pub) y_2 prime in
    let y_2 := bn_mod y_2 prime in
    let x3_ax_b := bn_multiply (px pub) x3_ax_b prime in
    let x3_ax_b := bn_subi x3_ax_b (u32 (- curve_a curve)) prime in
    let x3_ax_b := bn_multiply (px pub) x3_ax_b prime in
    let x3_ax_b := bn_addmod x3_ax_b (curve_b curve) prime in
    let x3_ax_b := bn_mod x3_ax_b prime in
    if negb (bn_is_equal x3_ax_b y_2) then 0
    else 1.

(** The result is the return code and the contents of [pub_key]. *)
Definition ecdsa_recover_pub_from_sig (USE_PRECOMPUTED_CP : bool)
  (curve : ecdsa_curve) (pub_key sig digest : list Z) (recid : Z)
  : M (Z * list Z) :=
  let r := bn_read_be sig in
  let s := bn_read_be (skipn 32 sig) in
  if negb (bn_is_less r (curve_order curve)) || bn_is_zero r then ret (1, pub_key)
  else if negb (bn_is_less s (curve_order curve)) || bn_is_zero s then ret (1, pub_key)
  else
    let x := r in
    let x := if negb (Z.land recid 2 =? 0) then bn_add x (curve_order curve) else x in
    if negb (Z.land recid 2 =? 0) && negb (bn_is_less x (curve_prime curve))
    then ret (1, pub_key)
    else
      let y := uncompress_coords curve (Z.land recid 1) x in
      let cp := mk_point x y in
      if ecdsa_validate_pubkey curve cp =? 0 then ret (1, pub_key)
      else
        let e := bn_read_be digest in
        let e := bn_subtractmod (curve_order curve) e (curve_order curve) in
        let e := bn_fast_mod e (curve_order curve) in
        let e := bn_mod e (curve_order curve) in
        let r := bn_inverse r (curve_order curve) in
        cp <- point_multiply curve s cp ;;
        cp2 <- scalar_multiply USE_PRECOMPUTED_CP curve e ;;
        let cp := point_add curve cp2 cp in
        cp <- point_multiply curve r cp ;;
        let pub_key := store pub_key 0 [0x04] in
        let pub_key := store pub_key 1 (bn_write_be (px cp)) in
        let pub_key := store pub_key 33 (bn_write_be (py cp)) in
        ret (0, pub_key).

End Ecdsa.

(** ** DER to raw signature (lines 723-780) *)

(** [SIGNATURE_SIZE_IN_ASN1] *)
Definition SIGNATURE_SIZE_IN_ASN1 : nat := 64.

(** memzero.h: [memzero(buf, n)], and [memset(buf + off, 0, n)]. *)
Definition memzero (buf : list Z) (off n : nat) : list Z :=
  store buf off (repeat 0 n).

(** [der[i]]; the buffer has no length in C, a read past the bytes handed
    over has no defined result. *)
Definition der_byte (der : list Z) (i : nat) : option Z := nth_error der i.

(** The [n] bytes at [&der[off]]. *)
Definition der_bytes (der : list Z) (off n : nat) : option (list Z) :=
  if (off + n <=? length der)%nat then Some (firstn n (skipn off der)) else None.

(** [memcpy(sig + off, &der[from], n)] *)
Definition memcpy_der (sig : list Z) (off : nat) (der : list Z) (from n : nat)
  : option (list Z) :=
  match der_bytes der from n with
  | Some bytes => Some (store sig off bytes)
  | None => None
  end.

Definition obind {A B : Type} (o : option A) (k : A -> option B) : option B :=
  match o with Some v => k v | None => None end.

Notation "x <-? c1 ;; c2" := (obind c1 (fun x => c2))
  (at level 61, c1 at next level, right associativity).

(** One INTEGER of [len] bytes at [&der[from]] into the 32 bytes at
    [sig + off]: the branches [if (b < 32) ... else if (b >= 32) ...]. *)
Definition der_integer (sig : list Z) (off : nat) (der : list Z) (from : nat)
  (len : Z) : option (list Z) :=
  if len <? 32 then
    let pad_len := 32 - len in
    let sig := memzero sig off (Z.to_nat pad_len) in
    memcpy_der sig (off + Z.to_nat pad_len) der from (Z.to_nat len)
  else if len >=? 32 then
    memcpy_der sig off der (from + Z.to_nat (len - 32)) 32
  else Some sig.

(** The result is the return code and the contents of [sig]; [None] when
    the code reads past the end of [der]. *)
Definition ecdsa_der_to_sig (der sig : list Z) : option (Z * list Z) :=
  let result := 0 in
  let sig := memzero sig 0 SIGNATURE_SIZE_IN_ASN1 in
  d0 <-? der_byte der 0 ;;
  let result := if negb (d0 =? 0x30) then -1 else result in
  b1 <-? der_byte der 1 ;;
  d2 <-? der_byte der 2 ;;
  let result := if negb (d2 =? 0x02) then -1 else result in
  b2 <-? der_byte der 3 ;;
  sig <-? der_integer sig 0 der 4 b2 ;;
  let b3_mark_pos := 4 + b2 in
  d3 <-? der_byte der (Z.to_nat b3_mark_pos) ;;
  let result := if negb (d3 =? 0x02) then -1 else result in
  b3 <-? der_byte der (Z.to_nat (b3_mark_pos + 1)) ;;
  if negb (b2 + b3 + 4 =? b1) then Some (-1, sig)
  else
    let b3_pos := b3_mark_pos + 2 in
    sig <-? der_integer sig 32 der (Z.to_nat b3_pos) b3 ;;
    let sig := if result =? -1 then memzero sig 0 SIGNATURE_SIZE_IN_ASN1 else sig in
    Some (result, sig).

(** ** The contract of bignum.c *)

(** Operands of a modular operation between reductions: normalized limbs
    and a value below a small multiple of the modulus. *)
Definition bn_lazy (prime a : bignum256) : Prop :=
  bn_normalized a /\ bn_value a < 4 * bn_value prime.

(** Modelled from the spec: the behaviour of the bignum.c functions that
    the statements below rely on (bignum.c is not among the sources).
    Zero test and equality look at the nine limbs; less-than is "defined on
    normalized values"; multiplication, addition and subtraction of a small
    constant work modulo the supplied modulus and leave a value that is
    "bounded but not canonical"; [bn_mod] is the full reduction "into
    canonical range", to be applied to a partly reduced value. *)
Class BignumSpec (ops : BignumOps) : Prop := {
  bn_zero_spec : bn_zero = bn_zeroed;
  bn_is_zero_spec : forall a, bn_is_zero a = true <-> a = bn_zeroed;
  bn_is_equal_spec : forall a b, bn_is_equal a b = true <-> a = b;
  bn_is_less_spec : forall a b, bn_normalized a -> bn_normalized b ->
    (bn_is_less a b = true <-> bn_value a < bn_value b);
  bn_multiply_spec : forall k x prime,
    bn_modulus prime -> bn_lazy prime k -> bn_lazy prime x ->
    bn_partly_reduced prime (bn_multiply k x prime) /\
    bn_value (bn_multiply k x prime) mod bn_value prime
      = (bn_value k * bn_value x) mod bn_value prime;
  bn_mod_spec : forall x prime,
    bn_modulus prime -> bn_partly_reduced prime x ->
    bn_normalized (bn_mod x prime) /\
    bn_value (bn_mod x prime) = bn_value x mod bn_value prime;
  bn_subi_spec : forall x b prime,
    bn_modulus prime -> bn_partly_reduced prime x -> 0 <= b <= val0 prime ->
    bn_lazy prime (bn_subi x b prime) /\
    bn_value (bn_subi x b prime) mod bn_value prime
      = (bn_value x - b) mod bn_value prime;
  bn_addmod_spec : forall a b prime,
    bn_modulus prime -> bn_partly_reduced prime a -> bn_partly_reduced prime b ->
    bn_partly_reduced prime (bn_addmod a b prime) /\
    bn_value (bn_addmod a b prime) mod bn_value prime
      = (bn_value a + bn_value b) mod bn_value prime
}.

(** ** A reference implementation of the interface *)

Module Ref.

(** Big-endian bytes to a number. *)
Fixpoint be_value (bytes : list Z) (acc : Z) : Z :=
  match bytes with
  | [] => acc
  | b :: t => be_value t (acc * 256 + b mod 256)
  end.

(** The [n] big-endian bytes of a number. *)
Fixpoint be_bytes (n : nat) (v : Z) : list Z :=
  match n with
  | O => []
  | Datatypes.S n' => be_bytes n' (v / 256) ++ [v mod 256]
  end.

(** [b ^ e mod m] by repeated squaring. *)
Fixpoint pow_mod_pos (b : Z) (e : positive) (m : Z) : Z :=
  match e with
  | xH => b mod m
  | xO e' => let r := pow_mod_pos b e' m in (r * r) mod m
  | xI e' => let r := pow_mod_pos b e' m in (r * r * b) mod m
  end.

Definition pow_mod (b e m : Z) : Z :=
  match e with
  | Zpos e' => pow_mod_pos b e' m
  | _ => 1 mod m
  end.

(** Modelled from the spec: [bn_read_be] of bignum.c, "decode 32-byte
    big-endian buffers". *)
Definition read_be (bytes : list Z) : bignum256 :=
  bn_of_Z (be_value (firstn 32 bytes) 0).

(** Modelled from the spec: [bn_write_be] of bignum.c, "all 256-bit values
    cross the boundary as exactly 32 bytes, big-endian". *)
Definition write_be (a : bignum256) : list Z := be_bytes 32 (bn_value a).

(** Modelled from the spec: [bn_is_zero] of bignum.c, the zero test. *)
Definition is_zero (a : bignum256) : bool :=
  (val0 a =? 0) && (val1 a =? 0) && (val2 a =? 0) && (val3 a =? 0) &&
  (val4 a =? 0) && (val5 a =? 0) && (val6 a =? 0) && (val7 a =? 0) &&
  (val8 a =? 0).

(** Modelled from the spec: [bn_is_equal] of bignum.c, equality. *)
Definition is_equal (a b : bignum256) : bool :=
  (val0 a =? val0 b) && (val1 a =? val1 b) && (val2 a =? val2 b) &&
  (val3 a =? val3 b) && (val4 a =? val4 b) && (val5 a =? val5 b) &&
  (val6 a =? val6 b) && (val7 a =? val7 b) && (val8 a =? val8 b).

(** Modelled from the spec: [bn_is_less] of bignum.c, less-than on
    normalized values. *)
Definition is_less (a b : bignum256) : bool := bn_value a <? bn_value b.

(** Modelled from the spec: [bn_cmov] of bignum.c, "given a boolean
    condition and two values, returns one or the other". *)
Definition cmov (cond : bool) (truecase falsecase : bignum256) : bignum256 :=
  if cond then truecase else falsecase.

(** Modelled from the spec: [bn_fast_mod] of bignum.c, the "fast partial
    reduction" that "keeps values within ~2x canonical range": the
    multiple of the modulus given by the bits above 2^256 is taken off. *)
Definition fast_mod (x prime : bignum256) : bignum256 :=
  bn_of_Z (bn_value x - bn_value x / 2 ^ 256 * bn_value prime).

(** Modelled from the spec: [bn_mod] of bignum.c, the "full reduction" of
    a partly reduced value. *)
Definition mod_ (x prime : bignum256) : bignum256 :=
  bn_of_Z (if bn_value x <? bn_value prime then bn_value x
           else bn_value x - bn_value prime).

(** Modelled from the spec: [bn_multiply] of bignum.c, "multiply (schoolbook
    limb multiply with combined reduce)". *)
Definition multiply (k x prime : bignum256) : bignum256 :=
  bn_of_Z ((bn_value k * bn_value x) mod bn_value prime).

(** Modelled from the spec: [bn_mult_half] of bignum.c, "half (multiply by
    modular inverse of 2)". *)
Definition mult_half (x prime : bignum256) : bignum256 :=
  bn_of_Z (if Z.even (bn_value x) then bn_value x / 2
           else (bn_value x + bn_value prime) / 2).

(** Modelled from the spec: [bn_mult_k] of bignum.c,
    "multiply-by-small-constant k". *)
Definition mult_k (x : bignum256) (k : Z) (prime : bignum256) : bignum256 :=
  fast_mod (bn_of_Z (k * bn_value x)) prime.

(** Modelled from the spec: [bn_inverse] of bignum.c, "modular inverse ...
    via exponentiation by modulus-2". *)
Definition inverse (x prime : bignum256) : bignum256 :=
  bn_of_Z (pow_mod (bn_value x) (bn_value prime - 2) (bn_value prime)).

(** Modelled from the spec: [bn_sqrt] of bignum.c, "modular square root ...
    computed via exponentiation by (prime+1)/4". *)
Definition sqrt (x prime : bignum256) : bignum256 :=
  bn_of_Z (pow_mod (bn_value x) ((bn_value prime + 1) / 4) (bn_value prime)).

(** Modelled from the spec: [bn_add] of bignum.c, addition without
    reduction. *)
Definition add (a b : bignum256) : bignum256 := bn_of_Z (bn_value a + bn_value b).

(** Modelled from the spec: [bn_addmod] of bignum.c, modular "add". *)
Definition addmod (a b prime : bignum256) : bignum256 :=
  fast_mod (bn_of_Z (bn_value a + bn_value b)) prime.

(** Modelled from the spec: [bn_subi] of bignum.c, subtraction of a small
    constant, kept non-negative by adding the modulus. *)
Definition subi (a : bignum256) (b : Z) (prime : bignum256) : bignum256 :=
  bn_of_Z (bn_value a + bn_value prime - b).

(** Modelled from the spec: [bn_subtractmod] of bignum.c, "subtract (result
    always non-negative via modulus bias)". *)
Definition subtractmod (a b prime : bignum256) : bignum256 :=
  bn_of_Z (bn_value a + 2 * bn_value prime - bn_value b).

(** Modelled from the spec: [bn_subtract] of bignum.c, subtraction of a
    smaller number. *)
Definition subtract (a b : bignum256) : bignum256 :=
  bn_of_Z (bn_value a - bn_value b).

(** Modelled from the spec: [bn_lshift] of bignum.c, "left ... shift by
    one". *)
Definition lshift (a : bignum256) : bignum256 := bn_of_Z (2 * bn_value a).

#[export] Instance ops : BignumOps := {|
  bn_read_be := read_be;
  bn_write_be := write_be;
  bn_zero := bn_zeroed;
  bn_is_zero := is_zero;
  bn_is_less := is_less;
  bn_is_equal := is_equal;
  bn_cmov := cmov;
  bn_lshift := lshift;
  bn_mult_half := mult_half;
  bn_mult_k := mult_k;
  bn_mod := mod_;
  bn_multiply := multiply;
  bn_fast_mod := fast_mod;
  bn_sqrt := sqrt;
  bn_inverse := inverse;
  bn_add := add;
  bn_addmod := addmod;
  bn_subi := subi;
  bn_subtractmod := subtractmod;
  bn_subtract := subtract
|}.

End Ref.

(** ** The curve secp256k1 *)

Definition secp256k1_prime : bignum256 :=
  bn_of_Z 0xFFFFFFFFFFFFFFFFFFFFFFFFFFFFFFFFFFFFFFFFFFFFFFFFFFFFFFFEFFFFFC2F.
Definition secp256k1_order : bignum256 :=
  bn_of_Z 0xFFFFFFFFFFFFFFFFFFFFFFFFFFFFFFFEBAAEDCE6AF48A03BBFD25E8CD0364141.
Definition secp256k1_G : curve_point :=
  mk_point
    (bn_of_Z 0x79BE667EF9DCBBAC55A06295CE870B07029BFCDB2DCE28D959F2815B16F81798)
    (bn_of_Z 0x483ADA7726A3C4655DA4FBFC0E1108A8FD17B448A68554199C47D08FFB10D4B8).

(** The parameters of secp256k1; its table of precomputed multiples
    (secp256k1.c) is not among the sources and no statement below reads
    it. *)
Definition secp256k1 : ecdsa_curve :=
  mk_curve secp256k1_prime secp256k1_G secp256k1_order 0 (bn_of_Z 7)
           (fun _ _ => mk_point bn_zeroed bn_zeroed).

Definition state0 (words : list Z) : state :=
  mk_state words bn_zeroed jacobian_zeroed bn_zeroed jacobian_zeroed.

(** ** Sample inputs *)

(** A raw signature [r || s]. *)
Definition raw_sig (r s : Z) : list Z := Ref.be_bytes 32 r ++ Ref.be_bytes 32 s.

(** [r = 0]: fails the range check on [r]. *)
Definition sig_r_zero : list Z := raw_sig 0 1.

(** [r = order - 1], to be used with recovery id 2: [r + order] is not
    below the prime. *)
Definition sig_x_offset : list Z :=
  raw_sig 0xFFFFFFFFFFFFFFFFFFFFFFFFFFFFFFFEBAAEDCE6AF48A03BBFD25E8CD0364140 1.

(** [r = 5]: no point of secp256k1 has this x-coordinate. *)
Definition sig_off_curve : list Z := raw_sig 5 1.

Definition empty_pub_key : list Z := repeat 0 65.
Definition zero_digest : list Z := repeat 0 32.

(** [-G] on secp256k1. *)
Definition secp256k1_neg_G : curve_point :=
  mk_point (px secp256k1_G) (Ref.subtract secp256k1_prime (py secp256k1_G)).

(** A point [(0, 1)] and the representation [(0, 0)] of infinity. *)
Definition point_0_1 : curve_point := mk_point bn_zeroed (bn_of_Z 1).
Definition point_0_0 : curve_point := mk_point bn_zeroed bn_zeroed.

(** Two points with the same nonzero x, the first with a zero y. *)
Definition point_5_0 : curve_point := mk_point (bn_of_Z 5) bn_zeroed.
Definition point_5_3 : curve_point := mk_point (bn_of_Z 5) (bn_of_Z 3).

(** [30 00 02 01 05 02 01 07]: two one-byte INTEGERs and an outer length of
    0 where 6 is due. *)
Definition der_length_mismatch : list Z :=
  [0x30; 0x00; 0x02; 0x01; 0x05; 0x02; 0x01; 0x07].

(** [31 06 02 01 05 02 01 07]: the same INTEGERs, consistent lengths, and
    a wrong outer tag. *)
Definition der_wrong_tag : list Z :=
  [0x31; 0x06; 0x02; 0x01; 0x05; 0x02; 0x01; 0x07].

(** A caller's output buffer with earlier contents. *)
Definition dirty_sig : list Z := repeat 0xAA 64.

(** What the specification asks of each INTEGER: fewer than 32 bytes are
    left-padded with zero bytes, more than 32 keep their low 32 bytes. *)
Definition integer_to_32_bytes (v : list Z) : list Z :=
  if (length v <? 32)%nat then repeat 0 (32 - length v) ++ v
  else skipn (length v - 32) v.

(** [SEQUENCE { INTEGER r, INTEGER s }] with one-byte lengths. *)
Definition der_sequence (r s : list Z) : list Z :=
  [0x30; Z.of_nat (length r) + Z.of_nat (length s) + 4;
   0x02; Z.of_nat (length r)] ++ r ++ [0x02; Z.of_nat (length s)] ++ s.

(** A 33-byte INTEGER with the sign byte 00 in front, and a 32-byte one. *)
Definition sample_r33 : list Z := 0 :: map Z.of_nat (seq 128 32).
Definition sample_s32 : list Z := map Z.of_nat (seq 1 32).

(** The limbs that one pass of [generate_k_random] makes of the next nine
    words of the random source. *)
Definition k_of_words (ws : list Z) : bignum256 :=
  mk_bignum256
    (Z.land (u32 (nth 0 ws 0)) 0x3FFFFFFF) (Z.land (u32 (nth 1 ws 0)) 0x3FFFFFFF)
    (Z.land (u32 (nth 2 ws 0)) 0x3FFFFFFF) (Z.land (u32 (nth 3 ws 0)) 0x3FFFFFFF)
    (Z.land (u32 (nth 4 ws 0)) 0x3FFFFFFF) (Z.land (u32 (nth 5 ws 0)) 0x3FFFFFFF)
    (Z.land (u32 (nth 6 ws 0)) 0x3FFFFFFF) (Z.land (u32 (nth 7 ws 0)) 0x3FFFFFFF)
    (Z.land (u32 (nth 8 ws 0)) 0xFFFF).

(** The random source after one pass. *)
Definition after_draw (s : state) : state :=
  mk_state (skipn 9 (rand s)) (pm_a s) (pm_jres s) (sm_a s) (sm_jres s).

(** Nine random words that spell the order of secp256k1. *)
Definition secp256k1_order_words : list Z :=
  [val0 secp256k1_order; val1 secp256k1_order; val2 secp256k1_order;
   val3 secp256k1_order; val4 secp256k1_order; val5 secp256k1_order;
   val6 secp256k1_order; val7 secp256k1_order; val8 secp256k1_order].

(** Nine words of zero, rejected, followed by nine words that give 3. *)
Definition words_zero_then_three : list Z :=
  repeat 0 9 ++ [3; 0; 0; 0; 0; 0; 0; 0; 0].

(** A curve of the class the engine is written for: moduli close to
    2^256, [a] in [-3, 0] and not beyond the low limb of the prime, [b]
    at most partly reduced. *)
Definition curve_wf (curve : ecdsa_curve) : Prop :=
  bn_modulus (curve_prime curve) /\
  -3 <= curve_a curve <= 0 /\
  - curve_a curve <= val0 (curve_prime curve) /\
  bn_partly_reduced (curve_prime curve) (curve_b curve).

(** ** bignum.h: the inline functions *)

(** [uint64_t]: arithmetic is modulo 2^64. *)
Definition u64 (v : Z) : Z := v mod 2 ^ 64.

(** [return in_number->val[0] | (in_number->val[1] << 30);] *)
Definition bn_write_uint32 (in_number : bignum256) : Z :=
  Z.lor (val in_number 0) (u32 (Z.shiftl (val in_number 1) 30)).

(** [tmp = in_number->val[2]; tmp <<= 30; tmp |= in_number->val[1];]
    [tmp <<= 30; tmp |= in_number->val[0]; return tmp;] on a [uint64_t]. *)
Definition bn_write_uint64 (in_number : bignum256) : Z :=
  let tmp := val in_number 2 in
  let tmp := u64 (Z.shiftl tmp 30) in
  let tmp := Z.lor tmp (val in_number 1) in
  let tmp := u64 (Z.shiftl tmp 30) in
  let tmp := Z.lor tmp (val in_number 0) in
  tmp.

(** [*b = *a] *)
Definition bn_copy (a : bignum256) : bignum256 := a.

(** [return (a->val[0] & 1) == 0;] *)
Definition bn_is_even (a : bignum256) : bool := Z.land (val a 0) 1 =? 0.

(** [return (a->val[0] & 1) == 1;] *)
Definition bn_is_odd (a : bignum256) : bool := Z.land (val a 0) 1 =? 1.

(** ** The multiple of G behind the table-driven routine

    [scalar_multiply] followed on the integers: the entry [cp[i][j]] of the
    table stands for the number [(2*j+1) * 16^i] (ecdsa.c: "curve->cp[i][j] =
    (2*j+1) * 16^i * G"), [conditional_negate] with an all-ones mask for a
    change of sign, [point_jacobian_add] for an addition.  The recoded
    scalar [a] is shifted and read exactly as in [scalar_multiply_round]. *)

(** [conditional_negate(mask, ...)] on the multiple accumulated so far. *)
Definition negate_if (mask acc : Z) : Z :=
  if mask =? 0xffffffff then - acc else acc.

(** The number that [curve->cp[i][j]] stands for. *)
Definition table_multiple (i : nat) (j : Z) : Z := (2 * j + 1) * 16 ^ Z.of_nat i.

(** One round of [for (i = 1; i < 64; i++)]. *)
Definition scalar_exponent_round (i : nat) (s : bignum256 * Z) : bignum256 * Z :=
  let '(a, acc) := s in
  let a := shift_a_4 a in
  let lowbits := lowbits_of a in
  let acc := negate_if (u32 (Z.land lowbits 1 - 1)) acc in
  let acc := acc + table_multiple i (Z.shiftr lowbits 1) in
  (a, acc).

Definition scalar_exponent (a : bignum256) : Z :=
  let lowbits := lowbits_of a in
  let acc := table_multiple 0 (Z.shiftr lowbits 1) in
  let '(a, acc) := for_up 63 1 scalar_exponent_round (a, acc) in
  negate_if (u32 (Z.land (Z.shiftr (val a 0) 4) 1 - 1)) acc.

(** ** The multiple of p behind [point_multiply]

    The main loop of [point_multiply] followed on the integers: the entry
    [pmult[j]] of the table stands for the number [2*j+1] (ecdsa.c:
    "pmult[i] = (2*i+1) * p"), [point_jacobian_double] for a doubling,
    [conditional_negate] with an all-ones mask for a change of sign,
    [point_jacobian_add] for an addition.  The recoded scalar is read
    through [aptr], [abits] and [ashift] exactly as in
    [point_multiply_round]. *)

(** [for (i = n - 1; i >= 0; i--)] *)
Fixpoint for_down {S : Type} (n : nat) (body : nat -> S -> S) (s : S) : S :=
  match n with
  | O => s
  | Datatypes.S i => for_down i body (body i s)
  end.

(** The lines from [ashift -= 4;] to [bits &= 31;]: the five bits read in
    one round, and the new [aptr], [abits] and [ashift]. *)
Definition next_bits (a : bignum256) (aptr : nat) (abits ashift : Z)
  : Z * nat * Z * Z :=
  let ashift := ashift - 4 in
  let '(bits, aptr, abits, ashift) :=
    if ashift <? 0 then
      let bits := u32 (Z.shiftl abits (- ashift)) in
      let aptr := pred aptr in
      let abits := val a aptr in
      let ashift := ashift + 30 in
      (Z.lor bits (Z.shiftr abits ashift), aptr, abits, ashift)
    else (Z.shiftr abits ashift, aptr, abits, ashift) in
  (Z.land bits 31, aptr, abits, ashift).

(** [aptr], [abits], [ashift] and [sign] of the loop, and the multiple of p
    in the place of [jres]. *)
Record pe_loop : Type := mk_pe_loop {
  pe_aptr : nat; pe_abits : Z; pe_ashift : Z; pe_sign : Z; pe_acc : Z
}.

(** One round of [for (i = 62; i >= 0; i--)]. *)
Definition point_exponent_round (a : bignum256) (i : nat) (l : pe_loop) : pe_loop :=
  let acc := 2 * (2 * (2 * (2 * pe_acc l))) in
  let '(bits, aptr, abits, ashift) :=
    next_bits a (pe_aptr l) (pe_abits l) (pe_ashift l) in
  let nsign := u32 (Z.shiftr bits 4 - 1) in
  let bits := Z.lxor bits nsign in
  let bits := Z.land bits 15 in
  let acc := negate_if (Z.lxor (pe_sign l) nsign) acc in
  let acc := acc + (2 * Z.shiftr bits 1 + 1) in
  mk_pe_loop aptr abits ashift nsign acc.

Definition point_exponent (a : bignum256) : Z :=
  let aptr := 8%nat in
  let abits := val a aptr in
  let ashift := 12 in
  let bits := Z.shiftr abits ashift in
  let sign := u32 (Z.shiftr bits 4 - 1) in
  let bits := Z.lxor bits sign in
  let bits := Z.land bits 15 in
  let acc := 2 * Z.shiftr bits 1 + 1 in
  let l := for_down 63 (point_exponent_round a) (mk_pe_loop aptr abits ashift sign acc) in
  negate_if (pe_sign l) (pe_acc l).

(** The loop state of [point_multiply] when the main loop is entered with
    the recoded scalar [a] and the accumulator [jres]. *)
Definition pm_loop_entry (a : bignum256) (jres : jacobian_curve_point) : pm_loop :=
  let bits := Z.shiftr (val a 8) 12 in
  mk_pm_loop 8 (val a 8) 12 (u32 (Z.shiftr bits 4 - 1)) jres.

(** ** Digits and windows of the recoded scalar *)

(** The limbs of a recoded scalar: eight limbs of 30 bits and a top limb of
    at most 17 bits. *)
Definition bn_recoded (a : bignum256) : Prop :=
  limb30 (val0 a) /\ limb30 (val1 a) /\ limb30 (val2 a) /\ limb30 (val3 a) /\
  limb30 (val4 a) /\ limb30 (val5 a) /\ limb30 (val6 a) /\ limb30 (val7 a) /\
  0 <= val8 a < 2 ^ 17.

(** A number with its bit 0 set. *)
Definition round_odd (v : Z) : Z := 2 * (v / 2) + 1.

(** The odd digit in [-15, 15] that the five low bits [m] of the recoded
    scalar stand for (ecdsa.c: "a[0] = a & 0xf if (a&0x10) != 0 and
    - (16 - (a & 0xf)) otherwise"). *)
Definition signed_digit (m : Z) : Z := round_odd m - 16.

(** The sign of that digit: bit 4 of [m]. *)
Definition digit_sign (m : Z) : Z := if m / 16 =? 1 then 1 else -1.

(** [lowbits_of] as a function of the five low bits. *)
Definition lowbits_of_window (m : Z) : Z :=
  Z.land (Z.lxor m (u32 (Z.shiftr m 4 - 1))) 15.

(** What the code makes of a window [m]: the table index gives the
    magnitude of the digit, the mask of the round tells whether its sign
    differs from the sign of the digit before (bit 0 of [m]). *)
Definition window_check (m : Z) : bool :=
  (2 * Z.shiftr (lowbits_of_window m) 1 + 1 =? digit_sign m * signed_digit m) &&
  Bool.eqb (u32 (Z.land (lowbits_of_window m) 1 - 1) =? 0xffffffff)
           (negb (m / 16 =? m mod 2)).

(** The five bits of a number from bit [4 * i] on. *)
Definition window (v : Z) (i : nat) : Z := (v / 16 ^ Z.of_nat i) mod 32.

(** A list of limbs as a number, least significant limb first. *)
Fixpoint limbs_value (l : list Z) : Z :=
  match l with
  | [] => 0
  | x :: t => x + 2 ^ 30 * limbs_value t
  end.

Definition limbs (a : bignum256) : list Z :=
  [val0 a; val1 a; val2 a; val3 a; val4 a; val5 a; val6 a; val7 a; val8 a].

(** The limbs from limb [j] on, as a number. *)
Definition bn_tail (a : bignum256) (j : nat) : Z := limbs_value (skipn j (limbs a)).

(** What the rounds of [point_multiply] keep, [i] being the digit just
    added: the place in [a], the sign of the digit, and the multiple
    accumulated so far. *)
Definition pe_invariant (a : bignum256) (i : nat) (l : pe_loop) : Prop :=
  30 * Z.of_nat (pe_aptr l) + pe_ashift l = 4 * Z.of_nat i /\
  0 <= pe_ashift l < 30 /\ (pe_aptr l <= 8)%nat /\
  pe_abits l = val a (pe_aptr l) /\
  pe_sign l = u32 (Z.shiftr (window (bn_value a) i) 4 - 1) /\
  digit_sign (window (bn_value a) i) * pe_acc l
  = round_odd (bn_value a / 16 ^ Z.of_nat i)
    - 16 ^ Z.of_nat (64 - i) * round_odd (bn_value a / 2 ^ 256).

(** ** The passes of [generate_k_random] *)

(** The random source after [n] passes of the loop. *)
Fixpoint after_draws (n : nat) (s : state) : state :=
  match n with
  | O => s
  | S n' => after_draws n' (after_draw s)
  end.

(** The loop condition: [bn_is_zero(k) || !bn_is_less(k, prime)]. *)
Definition k_rejected {ops : BignumOps} (prime k : bignum256) : bool :=
  bn_is_zero k || negb (bn_is_less k prime).

(** ** Further sample inputs *)

(** Eighteen random words: nine that spell the order of secp256k1,
    rejected against the order itself, and nine that give 3. *)
Definition words_order_then_three : list Z :=
  secp256k1_order_words ++ [3; 0; 0; 0; 0; 0; 0; 0; 0].

(** Nine random words that give 3. *)
Definition words_three : list Z := [3; 0; 0; 0; 0; 0; 0; 0; 0].

(** The scalar 2 recoded on secp256k1, and the base point with [z = 1]. *)
Definition sample_recoded : bignum256 :=
  snd (recode_scalar secp256k1 (bn_of_Z 2) bn_zeroed).
Definition secp256k1_G_jacobian : jacobian_curve_point :=
  mk_jacobian (px secp256k1_G) (py secp256k1_G) (bn_of_Z 1).

Definition point_of (x y : Z) : curve_point := mk_point (bn_of_Z x) (bn_of_Z y).

(** The multiples [0*G .. 30*G] of the point [G = (2, 12)] on the curve
    [y^2 = x^3 + 7] over the field of 43 elements, which has 31 points. *)
Definition curve_43_multiples : list curve_point :=
  [point_of 0 0; point_of 2 12; point_of 7 7; point_of 35 21; point_of 21 18;
   point_of 12 12; point_of 29 31; point_of 25 18; point_of 32 40; point_of 20 40;
   point_of 42 7; point_of 40 25; point_of 37 36; point_of 13 21; point_of 34 40;
   point_of 38 21; point_of 38 22; point_of 34 3; point_of 13 22; point_of 37 7;
   point_of 40 18; point_of 42 36; point_of 20 3; point_of 32 3; point_of 25 25;
   point_of 29 12; point_of 12 31; point_of 21 25; point_of 35 22; point_of 7 36;
   point_of 2 31].

(** That curve, small enough for whole runs of the multiplication routines
    and of the key recovery, with its table [cp[i][j] = (2*j+1) * 16^i * G].
    Its modulus is far from 2^256, outside the class that the lazily
    reduced arithmetic is written for: a run on it shows which statements
    are executed and what they leave behind, not a multiple of the
    point. *)
Definition curve_43 : ecdsa_curve :=
  mk_curve (bn_of_Z 43) (point_of 2 12) (bn_of_Z 31) 0 (bn_of_Z 7)
    (fun i j => nth (Z.to_nat (((2 * Z.of_nat j + 1) * 16 ^ Z.of_nat i) mod 31))
                    curve_43_multiples (point_of 0 0)).

(** A signature and a digest for a run of the recovery on the small curve:
    [r = 2], the x-coordinate of its base point, [s = 3], and the digest
    70. *)
Definition sig_2_3 : list Z := raw_sig 2 3.
Definition digest_70 : list Z := Ref.be_bytes 32 70.

(** * Properties *)

(** ** Limb arrays and the numbers they stand for *)

Lemma limb_split (v r : Z) :
  limb30 v -> (v + 2 ^ 30 * r) mod 2 ^ 30 = v /\ (v + 2 ^ 30 * r) / 2 ^ 30 = r.
Proof.
  unfold limb30. intros Hv.
  assert (Hr : (v + 2 ^ 30 * r) / 2 ^ 30 = r).
  { rewrite Z.mul_comm, Z.div_add by lia. rewrite Z.div_small by lia. lia. }
  split; [| exact Hr].
  rewrite Z.mul_comm, Z.mod_add by lia. apply Z.mod_small. lia.
Qed.

Lemma bn_of_Z_normalized (n : Z) : bn_normalized (bn_of_Z n).
Proof.
  unfold bn_normalized, bn_of_Z, limb30; cbn [val0 val1 val2 val3 val4 val5 val6 val7 val8].
  repeat split; apply Z.mod_pos_bound; lia.
Qed.

Lemma bn_of_Z_value (a : bignum256) : bn_normalized a -> bn_of_Z (bn_value a) = a.
Proof.
  destruct a as [a0 a1 a2 a3 a4 a5 a6 a7 a8].
  unfold bn_normalized, bn_value, bn_of_Z;
    cbn [val0 val1 val2 val3 val4 val5 val6 val7 val8].
  intros (H0 & H1 & H2 & H3 & H4 & H5 & H6 & H7 & H8).
  repeat match goal with
         | H : limb30 ?v |- context [(?v + 2 ^ 30 * ?r) / 2 ^ 30] =>
             rewrite (proj2 (limb_split v r H))
         end.
  rewrite (proj1 (limb_split a0 _ H0)), (proj1 (limb_split a1 _ H1)),
    (proj1 (limb_split a2 _ H2)), (proj1 (limb_split a3 _ H3)),
    (proj1 (limb_split a4 _ H4)), (proj1 (limb_split a5 _ H5)),
    (proj1 (limb_split a6 _ H6)), (proj1 (limb_split a7 _ H7)).
  rewrite (Z.mod_small a8) by exact H8. reflexivity.
Qed.

Lemma bn_value_inj (a b : bignum256) :
  bn_normalized a -> bn_normalized b -> bn_value a = bn_value b -> a = b.
Proof.
  intros Ha Hb E. rewrite <- (bn_of_Z_value a Ha), <- (bn_of_Z_value b Hb), E.
  reflexivity.
Qed.

Lemma bn_value_bounds (a : bignum256) :
  bn_normalized a -> 0 <= bn_value a < 2 ^ 270.
Proof.
  destruct a as [a0 a1 a2 a3 a4 a5 a6 a7 a8].
  unfold bn_normalized, bn_value, limb30;
    cbn [val0 val1 val2 val3 val4 val5 val6 val7 val8].
  lia.
Qed.

Lemma bn_value_of_Z (n : Z) : 0 <= n < 2 ^ 270 -> bn_value (bn_of_Z n) = n.
Proof.
  intros Hn. unfold bn_value, bn_of_Z;
    cbn [val0 val1 val2 val3 val4 val5 val6 val7 val8].
  assert (H8 : n / 2 ^ 30 / 2 ^ 30 / 2 ^ 30 / 2 ^ 30 / 2 ^ 30 / 2 ^ 30 / 2 ^ 30 / 2 ^ 30
               < 2 ^ 30).
  { repeat (apply Z.div_lt_upper_bound; [lia |]).
    change (2 ^ 30 * (2 ^ 30 * (2 ^ 30 * (2 ^ 30 * (2 ^ 30 * (2 ^ 30 * (2 ^ 30 *
            (2 ^ 30 * 2 ^ 30)))))))) with (2 ^ 270). lia. }
  assert (H8' : 0 <= n / 2 ^ 30 / 2 ^ 30 / 2 ^ 30 / 2 ^ 30 / 2 ^ 30 / 2 ^ 30 / 2 ^ 30 / 2 ^ 30).
  { repeat (apply Z.div_pos; [| lia]). lia. }
  rewrite (Z.mod_small _ _ (conj H8' H8)).
  assert (E : forall m, m mod 2 ^ 30 + 2 ^ 30 * (m / 2 ^ 30) = m).
  { intros m. rewrite Z.add_comm. symmetry. apply Z.div_mod. lia. }
  rewrite !E. reflexivity.
Qed.

(** ** The reference implementation meets the contract *)

Lemma modulus_bounds (prime : bignum256) :
  bn_modulus prime -> 2 ^ 256 - 2 ^ 224 <= bn_value prime < 2 ^ 256.
Proof. intros [_ H]. exact H. Qed.

Lemma ref_is_zero_spec (a : bignum256) : Ref.is_zero a = true <-> a = bn_zeroed.
Proof.
  destruct a as [a0 a1 a2 a3 a4 a5 a6 a7 a8]. unfold Ref.is_zero, bn_zeroed.
  cbn [val0 val1 val2 val3 val4 val5 val6 val7 val8].
  rewrite !andb_true_iff, !Z.eqb_eq. split.
  - intros H. decompose [and] H. subst. reflexivity.
  - intros H. injection H as -> -> -> -> -> -> -> -> ->. repeat split.
Qed.

Lemma ref_is_equal_spec (a b : bignum256) : Ref.is_equal a b = true <-> a = b.
Proof.
  destruct a as [a0 a1 a2 a3 a4 a5 a6 a7 a8], b as [b0 b1 b2 b3 b4 b5 b6 b7 b8].
  unfold Ref.is_equal. cbn [val0 val1 val2 val3 val4 val5 val6 val7 val8].
  rewrite !andb_true_iff, !Z.eqb_eq. split.
  - intros H. decompose [and] H. subst. reflexivity.
  - intros H. injection H as -> -> -> -> -> -> -> -> ->. repeat split.
Qed.

Lemma fast_mod_range (v P : Z) :
  2 ^ 256 - 2 ^ 224 <= P < 2 ^ 256 -> 0 <= v < 4 * P ->
  0 <= v - v / 2 ^ 256 * P < 2 * P.
Proof.
  intros Hb Hv.
  assert (Hq : 0 <= v / 2 ^ 256 <= 3).
  { split; [apply Z.div_pos; lia |].
    apply Z.lt_succ_r. apply Z.div_lt_upper_bound; lia. }
  pose proof (Z.div_mod v (2 ^ 256) ltac:(lia)) as Hdm.
  pose proof (Z.mod_pos_bound v (2 ^ 256) ltac:(lia)) as Hm.
  generalize dependent (v / 2 ^ 256). generalize dependent (v mod 2 ^ 256).
  intros m Hm q Hq Hdm.
  assert (Hc : q = 0 \/ q = 1 \/ q = 2 \/ q = 3) by lia.
  destruct Hc as [Hc | [Hc | [Hc | Hc]]]; subst q; lia.
Qed.

Lemma ref_fast_mod_spec (v : Z) (prime : bignum256) :
  bn_modulus prime -> 0 <= v < 4 * bn_value prime ->
  bn_partly_reduced prime (Ref.fast_mod (bn_of_Z v) prime) /\
  bn_value (Ref.fast_mod (bn_of_Z v) prime) mod bn_value prime = v mod bn_value prime.
Proof.
  intros Hp Hv. pose proof (modulus_bounds _ Hp) as Hb.
  unfold Ref.fast_mod, bn_partly_reduced. rewrite (bn_value_of_Z v) by lia.
  pose proof (fast_mod_range v (bn_value prime) Hb Hv) as Hr.
  rewrite bn_value_of_Z by lia.
  split; [split; [apply bn_of_Z_normalized | lia] |].
  replace (v - v / 2 ^ 256 * bn_value prime)
    with (v + (- (v / 2 ^ 256)) * bn_value prime) by ring.
  apply Z.mod_add. lia.
Qed.

#[export] Instance ref_spec : BignumSpec Ref.ops.
Proof.
  split.
  - reflexivity.
  - exact ref_is_zero_spec.
  - exact ref_is_equal_spec.
  - intros a b _ _. cbn. unfold Ref.is_less. apply Z.ltb_lt.
  - intros k x prime Hp [Hk Hk'] [Hx Hx']. cbn. unfold Ref.multiply, bn_partly_reduced.
    pose proof (modulus_bounds _ Hp) as Hb.
    pose proof (Z.mod_pos_bound (bn_value k * bn_value x) (bn_value prime) ltac:(lia)).
    rewrite bn_value_of_Z by lia.
    split; [split; [apply bn_of_Z_normalized | lia] |].
    apply Z.mod_mod. lia.
  - intros x prime Hp [Hx Hx']. cbn. unfold Ref.mod_.
    pose proof (modulus_bounds _ Hp) as Hb.
    pose proof (bn_value_bounds x Hx) as Hxb.
    split; [apply bn_of_Z_normalized |].
    destruct (Z.ltb_spec (bn_value x) (bn_value prime)).
    + rewrite bn_value_of_Z by lia. symmetry. apply Z.mod_small. lia.
    + rewrite bn_value_of_Z by lia.
      apply Z.mod_unique with (q := 1); lia.
  - intros x b prime Hp [Hx Hx'] Hb0. cbn. unfold Ref.subi, bn_lazy.
    pose proof (modulus_bounds _ Hp) as Hb.
    pose proof (bn_value_bounds x Hx) as Hxb.
    assert (Hv0 : val0 prime <= bn_value prime).
    { destruct Hp as [Hn _]. destruct prime as [p0 p1 p2 p3 p4 p5 p6 p7 p8].
      unfold bn_normalized, bn_value, limb30 in *.
      cbn [val0 val1 val2 val3 val4 val5 val6 val7 val8] in *. lia. }
    rewrite bn_value_of_Z by lia.
    split; [split; [apply bn_of_Z_normalized | lia] |].
    replace (bn_value x + bn_value prime - b)
      with (bn_value x - b + 1 * bn_value prime) by ring.
    apply Z.mod_add. lia.
  - intros a b prime Hp [Ha Ha'] [Hb Hb']. cbn. unfold Ref.addmod.
    pose proof (bn_value_bounds a Ha). pose proof (bn_value_bounds b Hb).
    apply ref_fast_mod_spec; [exact Hp | lia].
Qed.

(** ** Affine primitives *)

Section AffinePrimitives.
Context {ops : BignumOps} {spec : BignumSpec ops}.

Lemma bn_is_zero_false (a : bignum256) : bn_is_zero a = false <-> a <> bn_zeroed.
Proof.
  rewrite <- bn_is_zero_spec. destruct (bn_is_zero a); split; congruence.
Qed.

Lemma bn_is_equal_false (a b : bignum256) : bn_is_equal a b = false <-> a <> b.
Proof.
  rewrite <- bn_is_equal_spec. destruct (bn_is_equal a b); split; congruence.
Qed.

Lemma point_is_infinity_spec (p : curve_point) :
  point_is_infinity p = true <-> p = point_set_infinity.
Proof.
  unfold point_is_infinity, point_set_infinity. rewrite bn_zero_spec.
  rewrite andb_true_iff, !bn_is_zero_spec. destruct p as [x y]; cbn [px py].
  split; [intros [-> ->]; reflexivity | intros E; injection E; auto].
Qed.

Lemma point_is_infinity_set : point_is_infinity point_set_infinity = true.
Proof. apply point_is_infinity_spec. reflexivity. Qed.

(** C10 (as amended): [point_is_negative_of p q] holds exactly when [p] and
    [q] have the same x-coordinate, the y-coordinate of [p] is not zero, and
    the two y-coordinates differ.  Whether [q] is the point at infinity, or
    [p] a point with a nonzero x and a zero y, is not looked at. *)
Theorem point_is_negative_of_spec (p q : curve_point) :
  point_is_negative_of p q = true <->
  px p = px q /\ py p <> bn_zeroed /\ py p <> py q.
Proof.
  unfold point_is_negative_of.
  destruct (bn_is_equal (px p) (px q)) eqn:Ex; cbn [negb].
  - apply bn_is_equal_spec in Ex.
    destruct (bn_is_zero (py p)) eqn:Ez.
    + apply bn_is_zero_spec in Ez. split; [discriminate | tauto].
    + apply bn_is_zero_false in Ez. rewrite negb_true_iff, bn_is_equal_false. tauto.
  - apply bn_is_equal_false in Ex. split; [discriminate | tauto].
Qed.

(** The point at infinity is a left and a right identity of [point_add]. *)
Lemma point_add_infinity_r (curve : ecdsa_curve) (P : curve_point) :
  point_add curve P point_set_infinity = P.
Proof.
  unfold point_add. destruct (point_is_infinity P) eqn:E.
  - apply point_is_infinity_spec in E. congruence.
  - rewrite point_is_infinity_set. reflexivity.
Qed.

Lemma point_add_infinity_l (curve : ecdsa_curve) (P : curve_point) :
  point_add curve point_set_infinity P = P.
Proof. unfold point_add. rewrite point_is_infinity_set. reflexivity. Qed.

End AffinePrimitives.

(** ** [point_is_negative_of]: an instance and the limits of the test *)

Lemma point_is_negative_of_spec_witness :
  point_is_negative_of (ops := Ref.ops) secp256k1_G secp256k1_neg_G = true <->
  px secp256k1_G = px secp256k1_neg_G /\ py secp256k1_G <> bn_zeroed /\
  py secp256k1_G <> py secp256k1_neg_G.
Proof.
  exact (@point_is_negative_of_spec Ref.ops ref_spec secp256k1_G secp256k1_neg_G).
Defined.

(** C10 (counterexample): [(0,1)] is reported the negative of [(0,0)],
    which is the point at infinity; and [(5,0)] is not reported the
    negative of [(5,3)] although the x-coordinates agree, the y-coordinates
    differ and neither point is the point at infinity. *)
Lemma point_is_negative_of_ignores_infinity :
  (point_is_negative_of (ops := Ref.ops) point_0_1 point_0_0 = true /\
   point_is_infinity (ops := Ref.ops) point_0_0 = true) /\
  (point_is_negative_of (ops := Ref.ops) point_5_0 point_5_3 = false /\
   px point_5_0 = px point_5_3 /\ py point_5_0 <> py point_5_3 /\
   point_is_infinity (ops := Ref.ops) point_5_0 = false /\
   point_is_infinity (ops := Ref.ops) point_5_3 = false).
Proof.
  split; [split; reflexivity |].
  split; [reflexivity |]. split; [reflexivity |].
  split; [| split; reflexivity].
  vm_compute. discriminate.
Qed.

(** ** The zero scalar *)

Arguments u32 : simpl never.

(** With [k = 0] the recoding finds [is_non_zero = 0] and writes the low
    limb of [2^256 - order] into [a.val[0]]. *)
Lemma recode_scalar_zero (curve : ecdsa_curve) (a : bignum256) :
  fst (recode_scalar curve bn_zeroed a) = 0 /\
  val0 (snd (recode_scalar curve bn_zeroed a))
  = Z.land (u32 (1 + 0x3fffffff + 0
                 - Z.land (val0 (curve_order curve)) (u32 (0 - 1)))) 0x3fffffff.
Proof.
  destruct a as [a0 a1 a2 a3 a4 a5 a6 a7 a8].
  unfold recode_scalar.
  cbn [for_up val set_val bn_zeroed val0 val1 val2 val3 val4 val5 val6 val7 val8
       fst snd Z.lor Z.land].
  split; reflexivity.
Qed.

Lemma land_1 (v : Z) : Z.land v 1 = v mod 2.
Proof. exact (Z.land_ones v 1 ltac:(lia)). Qed.

Lemma land_30 (v : Z) : Z.land v 0x3fffffff = v mod 2 ^ 30.
Proof. exact (Z.land_ones v 30 ltac:(lia)). Qed.

Lemma land_32 (v : Z) : Z.land v 0xffffffff = v mod 2 ^ 32.
Proof. exact (Z.land_ones v 32 ltac:(lia)). Qed.

Lemma recoded_low_limb_odd (o0 : Z) :
  Z.odd o0 = true ->
  Z.land (Z.land (u32 (1 + 0x3fffffff + 0 - Z.land o0 (u32 (0 - 1)))) 0x3fffffff) 1 <> 0.
Proof.
  intros Ho. unfold u32.
  change ((0 - 1) mod 2 ^ 32) with 0xffffffff.
  rewrite land_1, land_30, land_32.
  apply Z.odd_spec in Ho. destruct Ho as [m Hm].
  Z.div_mod_to_equations. lia.
Qed.

Lemma recode_scalar_zero_odd (curve : ecdsa_curve) (a : bignum256) :
  Z.odd (val0 (curve_order curve)) = true ->
  Z.land (val (snd (recode_scalar curve bn_zeroed a)) 0) 1 <> 0.
Proof.
  intros Ho. cbn [val]. rewrite (proj2 (recode_scalar_zero curve a)).
  apply recoded_low_limb_odd. exact Ho.
Qed.

Lemma recode_scalar_zero_not_wiped (curve : ecdsa_curve) (a : bignum256) :
  Z.odd (val0 (curve_order curve)) = true ->
  snd (recode_scalar curve bn_zeroed a) <> bn_zeroed.
Proof.
  intros Ho E. apply (recode_scalar_zero_odd curve a Ho). rewrite E. reflexivity.
Qed.

Section ZeroScalar.
Context {ops : BignumOps}.

(** What [point_multiply] does with [k = 0]: it returns the point at
    infinity through the early [return], and the static [a] keeps the
    recoded scalar. *)
Lemma point_multiply_zero (curve : ecdsa_curve) (P : curve_point) (s : state) :
  bn_is_less bn_zeroed (curve_order curve) = true ->
  Z.odd (val0 (curve_order curve)) = true ->
  point_multiply curve bn_zeroed P s
  = Ok point_set_infinity
       (mk_state (rand s) (snd (recode_scalar curve bn_zeroed (pm_a s)))
                 (pm_jres s) (sm_a s) (sm_jres s)).
Proof.
  intros Hl Ho. unfold point_multiply, bind, assert, get. rewrite Hl.
  pose proof (recode_scalar_zero curve (pm_a s)) as [Hnz _].
  pose proof (recode_scalar_zero_odd curve (pm_a s) Ho) as Hodd.
  destruct (recode_scalar curve bn_zeroed (pm_a s)) as [nz a].
  cbn [fst snd] in *. subst nz. unfold put_pm_a. cbn [rand pm_a pm_jres sm_a sm_jres].
  apply Z.eqb_neq in Hodd. rewrite Hodd. cbn [negb Z.eqb]. reflexivity.
Qed.

Lemma scalar_multiply_precomputed_zero (curve : ecdsa_curve) (s : state) :
  bn_is_less bn_zeroed (curve_order curve) = true ->
  Z.odd (val0 (curve_order curve)) = true ->
  scalar_multiply_precomputed curve bn_zeroed s
  = Ok point_set_infinity
       (mk_state (rand s) (pm_a s) (pm_jres s)
                 (snd (recode_scalar curve bn_zeroed (sm_a s))) (sm_jres s)).
Proof.
  intros Hl Ho. unfold scalar_multiply_precomputed, bind, assert, get. rewrite Hl.
  pose proof (recode_scalar_zero curve (sm_a s)) as [Hnz _].
  pose proof (recode_scalar_zero_odd curve (sm_a s) Ho) as Hodd.
  destruct (recode_scalar curve bn_zeroed (sm_a s)) as [nz a].
  cbn [fst snd] in *. subst nz. unfold put_sm_a. cbn [rand pm_a pm_jres sm_a sm_jres].
  apply Z.eqb_neq in Hodd. rewrite Hodd. cbn [negb Z.eqb]. reflexivity.
Qed.

End ZeroScalar.

(** C9: [point_multiply] with the scalar 0 returns the point at infinity
    for every point [P] (on a curve whose order is odd and not zero, so
    that the two assertions of the routine hold), and the point at infinity
    is a two-sided identity of [point_add]. *)
Theorem point_multiply_zero_point_add_identity
  {ops : BignumOps} {spec : BignumSpec ops}
  (curve : ecdsa_curve) (P : curve_point) (s : state) :
  bn_is_less bn_zeroed (curve_order curve) = true ->
  Z.odd (val0 (curve_order curve)) = true ->
  (exists s', point_multiply curve bn_zeroed P s = Ok point_set_infinity s') /\
  point_add curve P point_set_infinity = P /\
  point_add curve point_set_infinity P = P.
Proof.
  intros Hl Ho. split; [| split].
  - eexists. apply point_multiply_zero; assumption.
  - apply point_add_infinity_r.
  - apply point_add_infinity_l.
Qed.

Lemma point_multiply_zero_point_add_identity_witness :
  (bn_is_less (BignumOps := Ref.ops) bn_zeroed (curve_order secp256k1) = true /\
   Z.odd (val0 (curve_order secp256k1)) = true) /\
  ((exists s', point_multiply (ops := Ref.ops) secp256k1 bn_zeroed secp256k1_G (state0 [])
               = Ok (point_set_infinity (ops := Ref.ops)) s') /\
   point_add (ops := Ref.ops) secp256k1 secp256k1_G (point_set_infinity (ops := Ref.ops)) = secp256k1_G /\
   point_add (ops := Ref.ops) secp256k1 (point_set_infinity (ops := Ref.ops)) secp256k1_G = secp256k1_G).
Proof.
  split.
  - split; vm_compute; reflexivity.
  - apply (@point_multiply_zero_point_add_identity Ref.ops ref_spec
             secp256k1 secp256k1_G (state0 [])); vm_compute; reflexivity.
Defined.

(** ** The exits of the multiplication routines *)

Section Exits.
Context {ops : BignumOps}.

Ltac step_bind H :=
  match type of H with
  | match ?c with Ok _ _ => _ | Abort => _ | Starved => _ end = _ =>
      let v := fresh "v" in let s := fresh "s" in
      destruct c as [v s | |]; [| discriminate H | discriminate H]
  | (if ?b then _ else _) = _ => destruct b; [| discriminate H]
  end.

(** [point_multiply] returns in one of two ways: early, for a zero scalar,
    with the recoded scalar still in [a]; or at the end, with [a] and
    [jres] wiped. *)
Lemma point_multiply_exit (curve : ecdsa_curve) (k : bignum256) (P : curve_point)
  (s : state) (res : curve_point) (s' : state) :
  point_multiply curve k P s = Ok res s' ->
  (fst (recode_scalar curve k (pm_a s)) = 0 /\
   pm_a s' = snd (recode_scalar curve k (pm_a s)) /\ pm_jres s' = pm_jres s) \/
  (fst (recode_scalar curve k (pm_a s)) <> 0 /\
   pm_a s' = bn_zeroed /\ pm_jres s' = jacobian_zeroed).
Proof.
  unfold point_multiply, bind, assert, get. intros H.
  destruct (bn_is_less k (curve_order curve)); [| discriminate H].
  destruct (recode_scalar curve k (pm_a s)) as [nz a]. cbn [fst snd].
  unfold put_pm_a at 1 in H. cbn [rand pm_a pm_jres sm_a sm_jres] in H.
  destruct (negb (Z.land (val a 0) 1 =? 0)); [| discriminate H].
  destruct (Z.eqb_spec nz 0) as [Hz | Hz].
  - left. unfold ret in H. injection H as _ <-. cbn [pm_a pm_jres]. auto.
  - right. split; [exact Hz |].
    unfold put_pm_a, put_pm_jres, ret in H.
    repeat (step_bind H; cbv beta iota in H).
    injection H as _ <-. cbn [pm_a pm_jres]. auto.
Qed.

(** The same two exits of the table-driven [scalar_multiply]. *)
Lemma scalar_multiply_precomputed_exit (curve : ecdsa_curve) (k : bignum256)
  (s : state) (res : curve_point) (s' : state) :
  scalar_multiply_precomputed curve k s = Ok res s' ->
  (fst (recode_scalar curve k (sm_a s)) = 0 /\
   sm_a s' = snd (recode_scalar curve k (sm_a s)) /\ sm_jres s' = sm_jres s) \/
  (fst (recode_scalar curve k (sm_a s)) <> 0 /\
   sm_a s' = bn_zeroed /\ sm_jres s' = jacobian_zeroed).
Proof.
  unfold scalar_multiply_precomputed, bind, assert, get. intros H.
  destruct (bn_is_less k (curve_order curve)); [| discriminate H].
  destruct (recode_scalar curve k (sm_a s)) as [nz a]. cbn [fst snd].
  unfold put_sm_a at 1 in H. cbn [rand pm_a pm_jres sm_a sm_jres] in H.
  destruct (negb (Z.land (val a 0) 1 =? 0)); [| discriminate H].
  destruct (Z.eqb_spec nz 0) as [Hz | Hz].
  - left. unfold ret in H. injection H as _ <-. cbn [sm_a sm_jres]. auto.
  - right. split; [exact Hz |].
    unfold put_sm_a, put_sm_jres, ret in H.
    step_bind H; cbv beta iota in H.
    step_bind H; cbv beta iota in H.
    match type of H with
    | context [let '(_, _) := ?p in _] => destruct p as [a1 jres1]
    end.
    repeat (step_bind H; cbv beta iota in H).
    injection H as _ <-. cbn [sm_a sm_jres]. auto.
Qed.

End Exits.

(** C5 (the code at the failing input): on secp256k1, [point_multiply] and
    the table-driven [scalar_multiply] called with [k = 0] return the point
    at infinity and leave the recoded scalar [2^256 - order] in their
    static [a]: the early [return] comes before the two [memzero] calls. *)
Theorem zero_scalar_leaves_scratch :
  (exists s', point_multiply (ops := Ref.ops) secp256k1 bn_zeroed secp256k1_G (state0 [])
              = Ok (point_set_infinity (ops := Ref.ops)) s' /\
              pm_a s' = bn_of_Z (2 ^ 256 - bn_value secp256k1_order) /\
              pm_a s' <> bn_zeroed) /\
  (exists s', scalar_multiply (ops := Ref.ops) true secp256k1 bn_zeroed (state0 [])
              = Ok (point_set_infinity (ops := Ref.ops)) s' /\
              sm_a s' = bn_of_Z (2 ^ 256 - bn_value secp256k1_order) /\
              sm_a s' <> bn_zeroed).
Proof.
  split.
  - eexists. split; [apply point_multiply_zero; vm_compute; reflexivity |].
    cbn [pm_a]. split; [vm_compute; reflexivity |].
    apply recode_scalar_zero_not_wiped. vm_compute; reflexivity.
  - eexists. split.
    + unfold scalar_multiply.
      apply scalar_multiply_precomputed_zero; vm_compute; reflexivity.
    + cbn [sm_a]. split; [vm_compute; reflexivity |].
      apply recode_scalar_zero_not_wiped. vm_compute; reflexivity.
Qed.

(** ** Public-key recovery: the failure code *)

(** C1 (as amended): [ecdsa_recover_pub_from_sig] has one failure code.
    Whichever validation step fails -- [r] zero or not below the order, [s]
    zero or not below the order, [r + order] not below the prime when bit 1
    of the recovery id is set, or the rebuilt point rejected by
    [ecdsa_validate_pubkey] -- it returns 1 and leaves [pub_key]
    untouched. *)
Theorem ecdsa_recover_failure_code {ops : BignumOps} (USE_PRECOMPUTED_CP : bool)
  (curve : ecdsa_curve) (pub_key sig digest : list Z) (recid : Z) (st : state) :
  let r := bn_read_be sig in
  let s := bn_read_be (skipn 32 sig) in
  let x := if negb (Z.land recid 2 =? 0) then bn_add r (curve_order curve) else r in
  (negb (bn_is_less r (curve_order curve)) || bn_is_zero r = true \/
   negb (bn_is_less s (curve_order curve)) || bn_is_zero s = true \/
   (Z.land recid 2 <> 0 /\ bn_is_less x (curve_prime curve) = false) \/
   ecdsa_validate_pubkey curve
     (mk_point x (uncompress_coords curve (Z.land recid 1) x)) = 0) ->
  ecdsa_recover_pub_from_sig USE_PRECOMPUTED_CP curve pub_key sig digest recid st
  = Ok (1, pub_key) st.
Proof.
  cbv zeta. intros H. unfold ecdsa_recover_pub_from_sig.
  destruct (negb (bn_is_less (bn_read_be sig) (curve_order curve))
            || bn_is_zero (bn_read_be sig)) eqn:E1; [reflexivity |].
  destruct (negb (bn_is_less (bn_read_be (skipn 32 sig)) (curve_order curve))
            || bn_is_zero (bn_read_be (skipn 32 sig))) eqn:E2; [reflexivity |].
  match goal with
  | |- (if ?c then _ else _) _ = _ => destruct c eqn:E3; [reflexivity |]
  end.
  match goal with
  | |- (if ?c then _ else _) _ = _ => destruct c eqn:E4; [reflexivity |]
  end.
  exfalso. destruct H as [H | [H | [[H H'] | H]]].
  - discriminate.
  - discriminate.
  - rewrite H' in E3. apply Z.eqb_neq in H. rewrite H in E3. discriminate.
  - apply Z.eqb_neq in E4. contradiction.
Qed.

Lemma ecdsa_recover_failure_code_witness :
  ecdsa_recover_pub_from_sig (ops := Ref.ops) false secp256k1 empty_pub_key
    sig_r_zero zero_digest 0 (state0 [])
  = Ok (1, empty_pub_key) (state0 []).
Proof.
  apply (@ecdsa_recover_failure_code Ref.ops false secp256k1 empty_pub_key
           sig_r_zero zero_digest 0 (state0 [])).
  left. vm_compute. reflexivity.
Defined.

(** C1 (counterexample): three signatures that fail at three different
    validation steps -- [r] zero; [r] and [s] in range but [r + order] not
    below the prime; [r], [s] and x in range but no curve point with that
    x -- all receive the same outcome, the return value 1. *)
Lemma ecdsa_recover_failures_indistinguishable :
  let recover sig recid :=
    ecdsa_recover_pub_from_sig (ops := Ref.ops) false secp256k1 empty_pub_key
      sig zero_digest recid (state0 []) in
  let rejected (v : bignum256) :=
    negb (Ref.is_less v secp256k1_order) || Ref.is_zero v in
  (rejected (Ref.read_be sig_r_zero) = true /\
   recover sig_r_zero 0 = Ok (1, empty_pub_key) (state0 [])) /\
  (rejected (Ref.read_be sig_x_offset) = false /\
   rejected (Ref.read_be (skipn 32 sig_x_offset)) = false /\
   Ref.is_less (Ref.add (Ref.read_be sig_x_offset) secp256k1_order) secp256k1_prime = false /\
   recover sig_x_offset 2 = Ok (1, empty_pub_key) (state0 [])) /\
  (rejected (Ref.read_be sig_off_curve) = false /\
   rejected (Ref.read_be (skipn 32 sig_off_curve)) = false /\
   Ref.is_less (Ref.read_be sig_off_curve) secp256k1_prime = true /\
   ecdsa_validate_pubkey (ops := Ref.ops) secp256k1
     (mk_point (Ref.read_be sig_off_curve)
        (uncompress_coords (ops := Ref.ops) secp256k1 0 (Ref.read_be sig_off_curve))) = 0 /\
   recover sig_off_curve 0 = Ok (1, empty_pub_key) (state0 [])).
Proof.
  cbv zeta. repeat match goal with |- _ /\ _ => split end; vm_compute; reflexivity.
Qed.

(** ** DER decoding *)

(** C2 (the code at the failing input): with an outer length that does not
    match, [ecdsa_der_to_sig] returns -1 through the early [return] and the
    first INTEGER stays in the output buffer (byte 31 is 05); with a wrong
    tag and matching lengths the buffer is zeroed. *)
Theorem der_length_mismatch_keeps_r :
  ecdsa_der_to_sig der_length_mismatch dirty_sig
  = Some (-1, repeat 0 31 ++ [0x05] ++ repeat 0 32) /\
  ecdsa_der_to_sig der_wrong_tag dirty_sig = Some (-1, repeat 0 64).
Proof. split; vm_compute; reflexivity. Qed.

Lemma firstn_app_exact {A : Type} (a l : list A) : firstn (length a) (a ++ l) = a.
Proof. induction a as [| h t IH]; cbn; [reflexivity | now rewrite IH]. Qed.

Lemma skipn_app_more {A : Type} (a l : list A) (n : nat) :
  skipn (length a + n) (a ++ l) = skipn n l.
Proof. induction a as [| h t IH]; cbn; [reflexivity | exact IH]. Qed.

Lemma skipn_app_exact {A : Type} (a l : list A) : skipn (length a) (a ++ l) = l.
Proof. rewrite <- (Nat.add_0_r (length a)). apply skipn_app_more. Qed.

(** Writing [length b] bytes over the segment [b]. *)
Lemma store_segment (a b c bytes : list Z) :
  length bytes = length b ->
  store (a ++ b ++ c) (length a) bytes = a ++ bytes ++ c.
Proof.
  intros E. unfold store. rewrite firstn_app_exact, E, skipn_app_more.
  rewrite skipn_app_exact. reflexivity.
Qed.

Lemma der_bytes_segment (dp v dq : list Z) :
  der_bytes (dp ++ v ++ dq) (length dp) (length v) = Some v.
Proof.
  unfold der_bytes.
  replace (length dp + length v <=? length (dp ++ v ++ dq))%nat with true.
  - rewrite skipn_app_exact, firstn_app_exact. reflexivity.
  - symmetry. apply Nat.leb_le. rewrite !length_app. lia.
Qed.

Lemma der_bytes_low32 (dp v dq : list Z) :
  (32 <= length v)%nat ->
  der_bytes (dp ++ v ++ dq) (length dp + (length v - 32)) 32
  = Some (skipn (length v - 32) v).
Proof.
  intros Hv. unfold der_bytes.
  replace (length dp + (length v - 32) + 32 <=? length (dp ++ v ++ dq))%nat with true.
  - rewrite skipn_app_more, skipn_app.
    replace (length v - 32 - length v)%nat with 0%nat by lia. cbn [skipn].
    replace 32%nat with (length (skipn (length v - 32) v)) at 1
      by (rewrite length_skipn; lia).
    rewrite firstn_app_exact. reflexivity.
  - symmetry. apply Nat.leb_le. rewrite !length_app. lia.
Qed.

(** One INTEGER lands in its 32-byte half as the specification says. *)
Lemma der_integer_spec (sp mid sq dp v dq : list Z) :
  length mid = 32%nat ->
  der_integer (sp ++ mid ++ sq) (length sp) (dp ++ v ++ dq) (length dp)
    (Z.of_nat (length v))
  = Some (sp ++ integer_to_32_bytes v ++ sq).
Proof.
  intros Hm. unfold der_integer, integer_to_32_bytes.
  destruct (Z.ltb_spec (Z.of_nat (length v)) 32) as [Hlt | Hge].
  - replace (length v <? 32)%nat with true by (symmetry; apply Nat.ltb_lt; lia).
    replace (Z.to_nat (32 - Z.of_nat (length v))) with (32 - length v)%nat by lia.
    rewrite Nat2Z.id. unfold memzero, memcpy_der.
    rewrite der_bytes_segment.
    rewrite <- (firstn_skipn (32 - length v) mid) at 1.
    rewrite <- app_assoc.
    rewrite store_segment by (rewrite repeat_length, length_firstn; lia).
    replace (length sp + (32 - length v))%nat
      with (length (sp ++ repeat 0 (32 - length v)))
      by (rewrite length_app, repeat_length; reflexivity).
    rewrite (app_assoc sp).
    rewrite store_segment by (rewrite length_skipn; lia).
    rewrite <- !app_assoc. reflexivity.
  - replace (length v <? 32)%nat with false by (symmetry; apply Nat.ltb_ge; lia).
    replace (Z.of_nat (length v) >=? 32) with true by (symmetry; apply Z.geb_le; lia).
    replace (Z.to_nat (Z.of_nat (length v) - 32)) with (length v - 32)%nat by lia.
    unfold memcpy_der. rewrite der_bytes_low32 by lia.
    rewrite store_segment by (rewrite length_skipn; lia).
    reflexivity.
Qed.

Lemma integer_to_32_bytes_length (v : list Z) :
  length (integer_to_32_bytes v) = 32%nat.
Proof.
  unfold integer_to_32_bytes. destruct (Nat.ltb_spec (length v) 32).
  - rewrite length_app, repeat_length. lia.
  - rewrite length_skipn. lia.
Qed.

Lemma memzero_whole (buf : list Z) (n : nat) :
  length buf = n -> memzero buf 0 n = repeat 0 n.
Proof.
  intros E. unfold memzero, store. cbn [firstn app Nat.add].
  rewrite repeat_length, skipn_all2 by lia. apply app_nil_r.
Qed.

Lemma der_byte_at (dp dq : list Z) (b : Z) :
  der_byte (dp ++ b :: dq) (length dp) = Some b.
Proof.
  unfold der_byte. rewrite nth_error_app2 by lia.
  rewrite Nat.sub_diag. reflexivity.
Qed.

(** The decoder on a well-formed SEQUENCE of two INTEGERs. *)
Lemma ecdsa_der_to_sig_sequence (r s rest sig : list Z) :
  length sig = 64%nat ->
  ecdsa_der_to_sig (der_sequence r s ++ rest) sig
  = Some (0, integer_to_32_bytes r ++ integer_to_32_bytes s).
Proof.
  intros Hsig. unfold ecdsa_der_to_sig, SIGNATURE_SIZE_IN_ASN1.
  rewrite memzero_whole by exact Hsig.
  set (b2 := Z.of_nat (length r)). set (b3 := Z.of_nat (length s)).
  set (hd := [0x30; b2 + b3 + 4; 0x02; b2]).
  assert (Hder : der_sequence r s ++ rest = hd ++ r ++ [0x02] ++ [b3] ++ s ++ rest).
  { unfold der_sequence. fold b2 b3 hd. rewrite <- !app_assoc. reflexivity. }
  rewrite Hder. clear Hder. set (der := hd ++ r ++ [0x02] ++ [b3] ++ s ++ rest).
  assert (E0 : der_byte der 0 = Some 0x30) by reflexivity.
  assert (E1 : der_byte der 1 = Some (b2 + b3 + 4)) by reflexivity.
  assert (E2 : der_byte der 2 = Some 0x02) by reflexivity.
  assert (E3 : der_byte der 3 = Some b2) by reflexivity.
  assert (E4 : der_byte der (Z.to_nat (4 + b2)) = Some 0x02).
  { replace (Z.to_nat (4 + b2)) with (length (hd ++ r))
      by (rewrite length_app; cbn [length hd]; lia).
    unfold der. rewrite (app_assoc hd r). apply der_byte_at. }
  assert (E5 : der_byte der (Z.to_nat (4 + b2 + 1)) = Some b3).
  { replace (Z.to_nat (4 + b2 + 1)) with (length ((hd ++ r) ++ [0x02]))
      by (rewrite !length_app; cbn [length hd]; lia).
    unfold der. rewrite (app_assoc hd r), (app_assoc (hd ++ r) [0x02]).
    apply der_byte_at. }
  assert (I1 : der_integer (repeat 0 64) 0 der 4 b2
               = Some (integer_to_32_bytes r ++ repeat 0 32)).
  { exact (der_integer_spec [] (repeat 0 32) (repeat 0 32) hd r
             ([0x02] ++ [b3] ++ s ++ rest) eq_refl). }
  assert (I2 : der_integer (integer_to_32_bytes r ++ repeat 0 32) 32 der
                 (Z.to_nat (4 + b2 + 2)) b3
               = Some (integer_to_32_bytes r ++ integer_to_32_bytes s)).
  { replace (Z.to_nat (4 + b2 + 2)) with (length (((hd ++ r) ++ [0x02]) ++ [b3]))
      by (rewrite !length_app; cbn [length hd]; lia).
    rewrite <- (integer_to_32_bytes_length r) at 2.
    pose proof (der_integer_spec (integer_to_32_bytes r) (repeat 0 32) []
                  (((hd ++ r) ++ [0x02]) ++ [b3]) s rest eq_refl) as H.
    rewrite !app_nil_r in H. rewrite <- H. unfold der.
    rewrite <- !app_assoc. reflexivity. }
  rewrite E0, E1, E2, E3. cbn [obind Z.eqb Pos.eqb negb].
  rewrite I1. cbn [obind]. rewrite E4, E5. cbn [obind Z.eqb Pos.eqb negb].
  rewrite Z.eqb_refl. cbn [negb]. rewrite I2. reflexivity.
Qed.

Lemma store_length (buf bytes : list Z) (off : nat) :
  (off + length bytes <= length buf)%nat -> length (store buf off bytes) = length buf.
Proof.
  intros H. unfold store. rewrite !length_app, length_firstn, length_skipn. lia.
Qed.

Lemma der_bytes_length (der bytes : list Z) (off n : nat) :
  der_bytes der off n = Some bytes -> length bytes = n.
Proof.
  unfold der_bytes. destruct (Nat.leb_spec (off + n) (length der)); [| discriminate].
  intros E. injection E as <-. rewrite length_firstn, length_skipn. lia.
Qed.

Lemma der_integer_length (sig der out : list Z) (off from : nat) (len : Z) :
  0 <= len -> (off + 32 <= length sig)%nat ->
  der_integer sig off der from len = Some out -> length out = length sig.
Proof.
  intros Hlen Hoff. unfold der_integer, memcpy_der, memzero. cbv zeta.
  destruct (Z.ltb_spec len 32).
  - assert (Hpad : (Z.to_nat (32 - len) + Z.to_nat len = 32)%nat) by lia.
    generalize dependent (Z.to_nat (32 - len)). intros pad Hpad.
    destruct (der_bytes der from (Z.to_nat len)) as [bytes |] eqn:E; [| discriminate].
    intros Hs. injection Hs as <-. apply der_bytes_length in E.
    assert (Hin : length (store sig off (repeat 0 pad)) = length sig)
      by (apply store_length; rewrite repeat_length; lia).
    rewrite store_length; [exact Hin |]. rewrite Hin, E. lia.
  - replace (len >=? 32) with true by (symmetry; apply Z.geb_le; lia).
    destruct (der_bytes der (from + Z.to_nat (len - 32)) 32) as [bytes |] eqn:E;
      [| discriminate].
    intros Hs. injection Hs as <-. apply der_bytes_length in E.
    apply store_length. lia.
Qed.

Lemma der_byte_range (der : list Z) (i : nat) (b : Z) :
  Forall (fun v => 0 <= v < 256) der -> der_byte der i = Some b -> 0 <= b < 256.
Proof.
  intros Hall E. unfold der_byte in E. apply nth_error_In in E.
  rewrite Forall_forall in Hall. exact (Hall b E).
Qed.

(** Every failure leaves the output buffer zeroed, except the one through
    the early [return] of the length check. *)
Lemma ecdsa_der_to_sig_failure (der sig out : list Z) :
  Forall (fun v => 0 <= v < 256) der -> length sig = 64%nat ->
  ecdsa_der_to_sig der sig = Some (-1, out) ->
  out = repeat 0 64 \/
  exists b1 b2 b3,
    der_byte der 1 = Some b1 /\ der_byte der 3 = Some b2 /\
    der_byte der (Z.to_nat (4 + b2 + 1)) = Some b3 /\ b2 + b3 + 4 <> b1.
Proof.
  intros Hder Hsig. unfold ecdsa_der_to_sig, SIGNATURE_SIZE_IN_ASN1.
  rewrite memzero_whole by exact Hsig.
  destruct (der_byte der 0) as [d0 |] eqn:E0; [| discriminate].
  destruct (der_byte der 1) as [b1 |] eqn:E1; [| discriminate].
  destruct (der_byte der 2) as [d2 |] eqn:E2; [| discriminate].
  destruct (der_byte der 3) as [b2 |] eqn:E3; [| discriminate].
  cbn [obind].
  pose proof (der_byte_range _ _ _ Hder E3) as Hb2.
  destruct (der_integer (repeat 0 64) 0 der 4 b2) as [sig1 |] eqn:I1; [| discriminate].
  cbn [obind].
  pose proof (der_integer_length (repeat 0 64) der sig1 0 4 b2 (proj1 Hb2)) as L1.
  rewrite repeat_length in L1. specialize (L1 ltac:(lia) I1).
  destruct (der_byte der (Z.to_nat (4 + b2))) as [d3 |] eqn:E4; [| discriminate].
  destruct (der_byte der (Z.to_nat (4 + b2 + 1))) as [b3 |] eqn:E5; [| discriminate].
  cbn [obind].
  pose proof (der_byte_range _ _ _ Hder E5) as Hb3.
  destruct (Z.eqb_spec (b2 + b3 + 4) b1) as [Hb | Hb]; cbn [negb].
  - destruct (der_integer sig1 32 der (Z.to_nat (4 + b2 + 2)) b3) as [sig2 |] eqn:I2;
      [| discriminate].
    cbn [obind].
    pose proof (der_integer_length sig1 der sig2 32 (Z.to_nat (4 + b2 + 2)) b3
                  (proj1 Hb3)) as L2.
    rewrite L1 in L2. specialize (L2 ltac:(lia) I2).
    intros H. injection H as Hr Ho. left. rewrite Hr in Ho.
    cbn [Z.eqb Pos.eqb] in Ho. rewrite <- Ho. apply memzero_whole. exact L2.
  - intros _. right. exists b1, b2, b3. auto.
Qed.

(** C6: on a well-formed input -- [30 len 02 len_r r 02 len_s s] with
    [len = len_r + len_s + 4], possibly followed by more bytes --
    [ecdsa_der_to_sig] returns 0 and writes the two INTEGERs as two 32-byte
    halves, a short one left-padded with zeroes and a long one cut down to
    its low 32 bytes.  In particular [30 44 02 20 r 02 20 s] with two
    32-byte values gives [r || s], and a 33-byte INTEGER [00 r'] gives
    [r']. *)
Theorem ecdsa_der_to_sig_well_formed (r s rest sig : list Z) :
  length sig = 64%nat ->
  ecdsa_der_to_sig (der_sequence r s ++ rest) sig
  = Some (0, integer_to_32_bytes r ++ integer_to_32_bytes s) /\
  (length r = 32%nat -> length s = 32%nat ->
   der_sequence r s = [0x30; 0x44; 0x02; 0x20] ++ r ++ [0x02; 0x20] ++ s /\
   ecdsa_der_to_sig (der_sequence r s ++ rest) sig = Some (0, r ++ s)) /\
  (forall r', r = 0x00 :: r' -> length r' = 32%nat ->
   ecdsa_der_to_sig (der_sequence r s ++ rest) sig
   = Some (0, r' ++ integer_to_32_bytes s)).
Proof.
  intros Hsig. pose proof (ecdsa_der_to_sig_sequence r s rest sig Hsig) as H.
  split; [exact H | split].
  - intros Hr Hs. split.
    + unfold der_sequence. rewrite Hr, Hs. reflexivity.
    + rewrite H. unfold integer_to_32_bytes. rewrite Hr, Hs. reflexivity.
  - intros r' -> Hr'. rewrite H. unfold integer_to_32_bytes at 1.
    cbn [length]. rewrite Hr'. reflexivity.
Qed.

Lemma ecdsa_der_to_sig_well_formed_witness :
  length dirty_sig = 64%nat /\
  ecdsa_der_to_sig (der_sequence sample_r33 sample_s32) dirty_sig
  = Some (0, tl sample_r33 ++ sample_s32).
Proof.
  split; [reflexivity |].
  pose proof (proj1 (ecdsa_der_to_sig_well_formed sample_r33 sample_s32 []
                       dirty_sig eq_refl)) as H.
  rewrite app_nil_r in H. exact H.
Defined.

(** ** Conditional negation *)

Lemma keep_limb (t v : Z) :
  word32 v -> Z.lor (Z.land (Z.land t 0x3fffffff) 0) (Z.land v (not32 0)) = v.
Proof.
  intros Hv. rewrite Z.land_0_r, Z.lor_0_l.
  change (not32 0) with 0xffffffff. rewrite land_32. apply Z.mod_small. exact Hv.
Qed.

Lemma negate_limb (t v : Z) :
  Z.lor (Z.land (Z.land t 0x3fffffff) 0xffffffff) (Z.land v (not32 0xffffffff))
  = t mod 2 ^ 30.
Proof.
  change (not32 0xffffffff) with 0. rewrite Z.land_0_r, Z.lor_0_r.
  rewrite land_32, land_30. apply Z.mod_small.
  pose proof (Z.mod_pos_bound t (2 ^ 30) ltac:(lia)). lia.
Qed.

(** With [cond = 0] every limb is written back as it was. *)
Lemma conditional_negate_keep (a prime : bignum256) (s : state) :
  bn_words a -> val8 a < 2 ^ 17 -> conditional_negate 0 a prime s = Ok a s.
Proof.
  destruct a as [a0 a1 a2 a3 a4 a5 a6 a7 a8].
  unfold bn_words. cbn [val0 val1 val2 val3 val4 val5 val6 val7 val8].
  intros (H0 & H1 & H2 & H3 & H4 & H5 & H6 & H7 & H8) Htop.
  unfold conditional_negate, bind, assert.
  cbn [val val0 val1 val2 val3 val4 val5 val6 val7 val8].
  replace (a8 <? 0x20000) with true by (symmetry; apply Z.ltb_lt; lia).
  cbn [for_up conditional_negate_limb val set_val
       val0 val1 val2 val3 val4 val5 val6 val7 val8].
  rewrite !keep_limb by assumption.
  cbn [val val0 val1 val2 val3 val4 val5 val6 val7 val8].
  replace (a8 <? 0x20000) with true by (symmetry; apply Z.ltb_lt; lia).
  reflexivity.
Qed.

(** One limb of the subtraction: no wrap-around of [tmp], and a carry of
    at most 3. *)
Lemma negate_step (c p a : Z) :
  0 <= c <= 3 -> limb30 p -> limb30 a ->
  u32 (c + 0x3fffffff + 2 * p - a) = c + 0x3fffffff + 2 * p - a /\
  0 <= (c + 0x3fffffff + 2 * p - a) / 2 ^ 30 <= 3.
Proof.
  unfold limb30, u32. intros Hc Hp Ha. split.
  - apply Z.mod_small. lia.
  - split; [apply Z.div_pos; lia |].
    apply Z.lt_succ_r. apply Z.div_lt_upper_bound; lia.
Qed.

(** With [cond = 0xffffffff] the limbs of [2 * prime - a] are written. *)
Lemma conditional_negate_negates (a prime : bignum256) (s : state) :
  bn_normalized a -> bn_normalized prime ->
  bn_value a <= 2 * bn_value prime -> bn_value prime < 2 ^ 256 ->
  exists a', conditional_negate 0xffffffff a prime s = Ok a' s /\
             bn_normalized a' /\
             bn_value a' = 2 * bn_value prime - bn_value a.
Proof.
  destruct a as [a0 a1 a2 a3 a4 a5 a6 a7 a8], prime as [p0 p1 p2 p3 p4 p5 p6 p7 p8].
  unfold bn_normalized, bn_value. cbn [val0 val1 val2 val3 val4 val5 val6 val7 val8].
  intros (A0 & A1 & A2 & A3 & A4 & A5 & A6 & A7 & A8)
         (P0 & P1 & P2 & P3 & P4 & P5 & P6 & P7 & P8) Hle Hp.
  unfold conditional_negate, bind, assert.
  cbn [val val0 val1 val2 val3 val4 val5 val6 val7 val8].
  assert (Htop : a8 < 2 ^ 17) by (unfold limb30 in *; lia).
  replace (a8 <? 0x20000) with true by (symmetry; apply Z.ltb_lt; lia).
  cbn [for_up conditional_negate_limb val set_val
       val0 val1 val2 val3 val4 val5 val6 val7 val8].
  rewrite !negate_limb. rewrite !Z.shiftr_div_pow2 by lia.
  destruct (negate_step 1 p0 a0 ltac:(lia) P0 A0) as [E0 C0]. rewrite !E0.
  remember (1 + 1073741823 + 2 * p0 - a0) as t0 eqn:T0.
  destruct (negate_step _ p1 a1 C0 P1 A1) as [E1 C1]. rewrite !E1.
  remember (t0 / 2 ^ 30 + 1073741823 + 2 * p1 - a1) as t1 eqn:T1.
  destruct (negate_step _ p2 a2 C1 P2 A2) as [E2 C2]. rewrite !E2.
  remember (t1 / 2 ^ 30 + 1073741823 + 2 * p2 - a2) as t2 eqn:T2.
  destruct (negate_step _ p3 a3 C2 P3 A3) as [E3 C3]. rewrite !E3.
  remember (t2 / 2 ^ 30 + 1073741823 + 2 * p3 - a3) as t3 eqn:T3.
  destruct (negate_step _ p4 a4 C3 P4 A4) as [E4 C4]. rewrite !E4.
  remember (t3 / 2 ^ 30 + 1073741823 + 2 * p4 - a4) as t4 eqn:T4.
  destruct (negate_step _ p5 a5 C4 P5 A5) as [E5 C5]. rewrite !E5.
  remember (t4 / 2 ^ 30 + 1073741823 + 2 * p5 - a5) as t5 eqn:T5.
  destruct (negate_step _ p6 a6 C5 P6 A6) as [E6 C6]. rewrite !E6.
  remember (t5 / 2 ^ 30 + 1073741823 + 2 * p6 - a6) as t6 eqn:T6.
  destruct (negate_step _ p7 a7 C6 P7 A7) as [E7 C7]. rewrite !E7.
  remember (t6 / 2 ^ 30 + 1073741823 + 2 * p7 - a7) as t7 eqn:T7.
  destruct (negate_step _ p8 a8 C7 P8 A8) as [E8 C8]. rewrite !E8.
  remember (t7 / 2 ^ 30 + 1073741823 + 2 * p8 - a8) as t8 eqn:T8.
  clear E0 E1 E2 E3 E4 E5 E6 E7 E8.
  assert (K : t0 mod 2 ^ 30 + 2 ^ 30 * (t1 mod 2 ^ 30 + 2 ^ 30 * (t2 mod 2 ^ 30 +
              2 ^ 30 * (t3 mod 2 ^ 30 + 2 ^ 30 * (t4 mod 2 ^ 30 + 2 ^ 30 *
              (t5 mod 2 ^ 30 + 2 ^ 30 * (t6 mod 2 ^ 30 + 2 ^ 30 * (t7 mod 2 ^ 30 +
               2 ^ 30 * (t8 mod 2 ^ 30))))))))
              = 2 * (p0 + 2 ^ 30 * (p1 + 2 ^ 30 * (p2 + 2 ^ 30 * (p3 + 2 ^ 30 *
                    (p4 + 2 ^ 30 * (p5 + 2 ^ 30 * (p6 + 2 ^ 30 * (p7 + 2 ^ 30 * p8))))))))
                - (a0 + 2 ^ 30 * (a1 + 2 ^ 30 * (a2 + 2 ^ 30 * (a3 + 2 ^ 30 *
                    (a4 + 2 ^ 30 * (a5 + 2 ^ 30 * (a6 + 2 ^ 30 * (a7 + 2 ^ 30 * a8))))))))
              /\ t8 mod 2 ^ 30 < 2 ^ 17).
  { unfold limb30 in *. Z.div_mod_to_equations. lia. }
  destruct K as [K Ktop].
  replace (t8 mod 2 ^ 30 <? 131072) with true by (symmetry; apply Z.ltb_lt; lia).
  eexists. split; [reflexivity |].
  cbn [val0 val1 val2 val3 val4 val5 val6 val7 val8].
  split; [| exact K].
  unfold limb30. repeat split; apply Z.mod_pos_bound; lia.
Qed.

Lemma bn_normalized_words (a : bignum256) : bn_normalized a -> bn_words a.
Proof.
  unfold bn_normalized, bn_words, limb30, word32. intros H.
  decompose [and] H. repeat split; lia.
Qed.

(** C4 (as amended): with [cond = 0] [conditional_negate] leaves [a] as it
    is; with [cond = 0xffffffff], for normalized [a] and modulus with
    [a <= 2 * modulus < 2^257], it replaces [a] by the normalized limbs of
    [2 * modulus - a].  That number is congruent to [-a]; it is not reduced
    into [0, modulus). *)
Theorem conditional_negate_spec (a prime : bignum256) (s : state) :
  (bn_words a -> val8 a < 2 ^ 17 -> conditional_negate 0 a prime s = Ok a s) /\
  (bn_normalized a -> bn_normalized prime ->
   bn_value a <= 2 * bn_value prime -> bn_value prime < 2 ^ 256 ->
   exists a', conditional_negate 0xffffffff a prime s = Ok a' s /\
              bn_normalized a' /\
              bn_value a' = 2 * bn_value prime - bn_value a /\
              bn_value a' mod bn_value prime = (- bn_value a) mod bn_value prime).
Proof.
  split.
  - apply conditional_negate_keep.
  - intros Ha Hp Hle Hlt.
    destruct (conditional_negate_negates a prime s Ha Hp Hle Hlt) as (a' & E & Hn & Hv).
    exists a'. split; [exact E |]. split; [exact Hn |]. split; [exact Hv |].
    rewrite Hv.
    replace (2 * bn_value prime - bn_value a)
      with (- bn_value a + 2 * bn_value prime) by ring.
    destruct (Z.eq_dec (bn_value prime) 0) as [Hz | Hz].
    + rewrite Hz. rewrite Z.mul_0_r, Z.add_0_r. reflexivity.
    + apply Z.mod_add. exact Hz.
Qed.

Lemma conditional_negate_spec_witness :
  conditional_negate 0 (px secp256k1_G) secp256k1_prime (state0 [])
  = Ok (px secp256k1_G) (state0 []) /\
  exists a', conditional_negate 0xffffffff (px secp256k1_G) secp256k1_prime (state0 [])
             = Ok a' (state0 []) /\
             bn_normalized a' /\
             bn_value a' = 2 * bn_value secp256k1_prime - bn_value (px secp256k1_G) /\
             bn_value a' mod bn_value secp256k1_prime
             = (- bn_value (px secp256k1_G)) mod bn_value secp256k1_prime.
Proof.
  destruct (conditional_negate_spec (px secp256k1_G) secp256k1_prime (state0 []))
    as [H0 H1].
  split.
  - apply H0.
    + apply bn_normalized_words. apply bn_of_Z_normalized.
    + vm_compute. reflexivity.
  - apply H1.
    + apply bn_of_Z_normalized.
    + apply bn_of_Z_normalized.
    + vm_compute. discriminate.
    + vm_compute. reflexivity.
Defined.

(** C4 (counterexample): negating 1 modulo the prime of secp256k1 yields
    [2 * prime - 1], which is not [(2 * prime - 1) mod prime] and does not
    lie in [0, prime). *)
Lemma conditional_negate_not_canonical :
  exists a', conditional_negate 0xffffffff (bn_of_Z 1) secp256k1_prime (state0 [])
             = Ok a' (state0 []) /\
             val8 (bn_of_Z 1) < 2 ^ 17 /\
             bn_value a' = 2 * bn_value secp256k1_prime - 1 /\
             bn_value a' <> (2 * bn_value secp256k1_prime - 1) mod bn_value secp256k1_prime /\
             ~ (bn_value a' < bn_value secp256k1_prime).
Proof.
  eexists. split; [vm_compute; reflexivity |].
  split; [vm_compute; reflexivity |].
  split; [vm_compute; reflexivity |].
  split; vm_compute; discriminate.
Qed.

(** ** Blinding: the random z *)

Lemma k_of_words_normalized (ws : list Z) : bn_normalized (k_of_words ws).
Proof.
  unfold bn_normalized, k_of_words, limb30.
  cbn [val0 val1 val2 val3 val4 val5 val6 val7 val8].
  change 0xFFFF with (Z.ones 16). rewrite !land_30, Z.land_ones by lia.
  repeat split; try (apply Z.mod_pos_bound; lia).
  pose proof (Z.mod_pos_bound (u32 (nth 8 ws 0)) (2 ^ 16) ltac:(lia)). lia.
Qed.

Section Blinding.
Context {ops : BignumOps}.

(** One pass takes nine words, or finds the source exhausted. *)
Lemma generate_k_draw_spec (k : bignum256) (s : state) :
  generate_k_draw k s
  = if (9 <=? length (rand s))%nat then Ok (k_of_words (rand s)) (after_draw s)
    else Starved.
Proof.
  destruct k as [k0 k1 k2 k3 k4 k5 k6 k7 k8], s as [r a j a' j'].
  unfold after_draw. cbn [rand pm_a pm_jres sm_a sm_jres].
  destruct r as [| w0 [| w1 [| w2 [| w3 [| w4 [| w5 [| w6 [| w7 [| w8 r]]]]]]]]];
    reflexivity.
Qed.

Lemma generate_k_random_loop_step (fuel : nat) (k prime : bignum256) (s : state) :
  generate_k_random_loop (S fuel) k prime s
  = if (9 <=? length (rand s))%nat
    then if bn_is_zero (k_of_words (rand s))
            || negb (bn_is_less (k_of_words (rand s)) prime)
         then generate_k_random_loop fuel (k_of_words (rand s)) prime (after_draw s)
         else Ok (k_of_words (rand s)) (after_draw s)
    else Starved.
Proof.
  cbn [generate_k_random_loop]. unfold bind. rewrite generate_k_draw_spec.
  destruct (9 <=? length (rand s))%nat; [| reflexivity].
  destruct (bn_is_zero (k_of_words (rand s))
            || negb (bn_is_less (k_of_words (rand s)) prime)); reflexivity.
Qed.

Lemma after_draw_length (s : state) :
  (9 <= length (rand s))%nat ->
  (length (rand (after_draw s)) = length (rand s) - 9)%nat.
Proof. intros _. unfold after_draw. cbn [rand]. apply length_skipn. Qed.

(** The bound on the number of passes is never what stops the loop. *)
Lemma generate_k_random_loop_fuel (prime : bignum256) (fuel1 : nat) :
  forall (fuel2 : nat) (k : bignum256) (s : state),
  (length (rand s) < fuel1)%nat -> (length (rand s) < fuel2)%nat ->
  generate_k_random_loop fuel1 k prime s = generate_k_random_loop fuel2 k prime s.
Proof.
  induction fuel1 as [| f1 IH]; intros fuel2 k s H1 H2; [lia |].
  destruct fuel2 as [| f2]; [lia |].
  rewrite !generate_k_random_loop_step.
  destruct (Nat.leb_spec 9 (length (rand s))) as [Hlen | Hlen]; [| reflexivity].
  destruct (bn_is_zero (k_of_words (rand s))
            || negb (bn_is_less (k_of_words (rand s)) prime)); [| reflexivity].
  apply IH; rewrite after_draw_length by exact Hlen; lia.
Qed.

(** Whatever the loop returns passed the test of the [while]. *)
Lemma generate_k_random_loop_accepted (prime : bignum256) (fuel : nat) :
  forall (k : bignum256) (s : state) (z : bignum256) (s' : state),
  generate_k_random_loop fuel k prime s = Ok z s' ->
  bn_is_zero z = false /\ bn_is_less z prime = true /\ bn_normalized z.
Proof.
  induction fuel as [| f IH]; intros k s z s' H; [discriminate |].
  rewrite generate_k_random_loop_step in H.
  destruct (9 <=? length (rand s))%nat; [| discriminate].
  destruct (bn_is_zero (k_of_words (rand s))
            || negb (bn_is_less (k_of_words (rand s)) prime)) eqn:E.
  - exact (IH _ _ _ _ H).
  - injection H as <- _. apply orb_false_iff in E. destruct E as [E1 E2].
    apply negb_false_iff in E2.
    split; [exact E1 | split; [exact E2 | apply k_of_words_normalized]].
Qed.

(** A first pass that passes the test is returned. *)
Lemma generate_k_random_first (k prime : bignum256) (s : state) :
  (9 <= length (rand s))%nat ->
  bn_is_zero (k_of_words (rand s)) = false ->
  bn_is_less (k_of_words (rand s)) prime = true ->
  generate_k_random k prime s = Ok (k_of_words (rand s)) (after_draw s).
Proof.
  intros Hlen Hz Hl. unfold generate_k_random.
  rewrite generate_k_random_loop_step.
  replace (9 <=? length (rand s))%nat with true by (symmetry; apply Nat.leb_le; lia).
  rewrite Hz, Hl. reflexivity.
Qed.

(** A first pass that fails the test is thrown away and the next nine
    words are drawn. *)
Lemma generate_k_random_redraw (k prime : bignum256) (s : state) :
  (9 <= length (rand s))%nat ->
  bn_is_zero (k_of_words (rand s)) || negb (bn_is_less (k_of_words (rand s)) prime)
  = true ->
  generate_k_random k prime s
  = generate_k_random (k_of_words (rand s)) prime (after_draw s).
Proof.
  intros Hlen Hrej. unfold generate_k_random.
  rewrite generate_k_random_loop_step.
  replace (9 <=? length (rand s))%nat with true by (symmetry; apply Nat.leb_le; lia).
  rewrite Hrej.
  apply generate_k_random_loop_fuel; rewrite after_draw_length by exact Hlen; lia.
Qed.

End Blinding.

(** ** Congruences *)

Lemma mod_add_l (P a a' b : Z) :
  a mod P = a' mod P -> (a + b) mod P = (a' + b) mod P.
Proof.
  intros H. destruct (Z.eq_dec P 0) as [-> | HP].
  - rewrite !Z.mod_0_r in *. lia.
  - rewrite (Z.add_mod a b), (Z.add_mod a' b), H by exact HP. reflexivity.
Qed.

Lemma mod_sub_l (P a a' b : Z) :
  a mod P = a' mod P -> (a - b) mod P = (a' - b) mod P.
Proof. intros H. unfold Z.sub. apply mod_add_l. exact H. Qed.

Lemma mod_mul_r (P a b b' : Z) :
  b mod P = b' mod P -> (a * b) mod P = (a * b') mod P.
Proof.
  intros H. destruct (Z.eq_dec P 0) as [-> | HP].
  - rewrite !Z.mod_0_r in *. now subst.
  - rewrite (Z.mul_mod a b), (Z.mul_mod a b'), H by exact HP. reflexivity.
Qed.

Section Contract.
Context {ops : BignumOps} {spec : BignumSpec ops}.

Lemma bn_is_zero_value (z : bignum256) :
  bn_normalized z -> bn_is_zero z = false -> 0 < bn_value z.
Proof.
  intros Hn Hz. pose proof (bn_value_bounds z Hn) as Hb.
  destruct (Z.eq_dec (bn_value z) 0) as [E | E]; [| lia].
  exfalso. apply bn_is_zero_false in Hz. apply Hz.
  apply bn_value_inj; [exact Hn | | exact E].
  unfold bn_normalized, bn_zeroed, limb30.
  cbn [val0 val1 val2 val3 val4 val5 val6 val7 val8]. lia.
Qed.

(** The blinded point: what [curve_to_jacobian] returns for a [z] that passed
    the test of [generate_k_random]. *)
Lemma curve_to_jacobian_blinds (p : curve_point) (prime z : bignum256) :
  bn_modulus prime -> bn_lazy prime (px p) -> bn_lazy prime (py p) ->
  bn_normalized z -> bn_is_zero z = false -> bn_is_less z prime = true ->
  let x := bn_multiply (px p) (bn_multiply z z prime) prime in
  let y := bn_multiply (py p) (bn_multiply z (bn_multiply z z prime) prime) prime in
  0 < bn_value z < bn_value prime /\
  bn_value x mod bn_value prime
  = (bn_value (px p) * bn_value z ^ 2) mod bn_value prime /\
  bn_value y mod bn_value prime
  = (bn_value (py p) * bn_value z ^ 3) mod bn_value prime.
Proof.
  intros Hp Hx Hy Hn Hz Hl. cbv zeta.
  pose proof (modulus_bounds _ Hp) as Hb.
  assert (Hlt : bn_value z < bn_value prime).
  { apply bn_is_less_spec; [exact Hn | exact (proj1 Hp) | exact Hl]. }
  pose proof (bn_is_zero_value z Hn Hz) as Hpos.
  assert (Hlz : bn_lazy prime z) by (split; [exact Hn | lia]).
  destruct (bn_multiply_spec z z prime Hp Hlz Hlz) as [[Hn2 Hr2] Hv2].
  assert (Hl2 : bn_lazy prime (bn_multiply z z prime)) by (split; [exact Hn2 | lia]).
  destruct (bn_multiply_spec z _ prime Hp Hlz Hl2) as [[Hn3 Hr3] Hv3].
  assert (Hl3 : bn_lazy prime (bn_multiply z (bn_multiply z z prime) prime))
    by (split; [exact Hn3 | lia]).
  destruct (bn_multiply_spec (px p) _ prime Hp Hx Hl2) as [_ Hvx].
  destruct (bn_multiply_spec (py p) _ prime Hp Hy Hl3) as [_ Hvy].
  split; [lia | split].
  - rewrite Hvx. apply mod_mul_r. rewrite Hv2. f_equal. ring.
  - rewrite Hvy. apply mod_mul_r. rewrite Hv3.
    replace (bn_value z ^ 3) with (bn_value z * (bn_value z * bn_value z)) by ring.
    apply mod_mul_r. exact Hv2.
Qed.

End Contract.

(** C8 (as amended): the z-coordinate that [curve_to_jacobian] draws
    satisfies [0 < z < prime], where [prime] is the modulus handed to it
    (the field prime of the curve, not its order); the point returned is
    [(x * z^2, y * z^3, z)] modulo [prime].  A first draw that passes the
    test is returned; one that is zero or not below [prime] is thrown away
    and the next nine random words are drawn. *)
Theorem curve_to_jacobian_spec {ops : BignumOps} {spec : BignumSpec ops}
  (p : curve_point) (jp : jacobian_curve_point) (prime : bignum256) (s : state) :
  bn_modulus prime -> bn_lazy prime (px p) -> bn_lazy prime (py p) ->
  (forall jp' s', curve_to_jacobian p jp prime s = Ok jp' s' ->
     0 < bn_value (jz jp') < bn_value prime /\
     bn_value (jx jp') mod bn_value prime
     = (bn_value (px p) * bn_value (jz jp') ^ 2) mod bn_value prime /\
     bn_value (jy jp') mod bn_value prime
     = (bn_value (py p) * bn_value (jz jp') ^ 3) mod bn_value prime) /\
  ((9 <= length (rand s))%nat ->
   (bn_is_zero (k_of_words (rand s)) = false ->
    bn_is_less (k_of_words (rand s)) prime = true ->
    exists jp', curve_to_jacobian p jp prime s = Ok jp' (after_draw s) /\
                jz jp' = k_of_words (rand s)) /\
   (bn_is_zero (k_of_words (rand s)) || negb (bn_is_less (k_of_words (rand s)) prime)
    = true ->
    curve_to_jacobian p jp prime s
    = curve_to_jacobian p (mk_jacobian (jx jp) (jy jp) (k_of_words (rand s))) prime
        (after_draw s))).
Proof.
  intros Hp Hx Hy. split; [| intros Hlen; split].
  - intros jp' s' H. unfold curve_to_jacobian, bind in H.
    destruct (generate_k_random (jz jp) prime s) as [z s1 | |] eqn:G;
      try discriminate.
    unfold ret in H. injection H as <- _. cbn [jx jy jz].
    unfold generate_k_random in G.
    destruct (generate_k_random_loop_accepted _ _ _ _ _ _ G) as (Hz & Hl & Hn).
    exact (curve_to_jacobian_blinds p prime z Hp Hx Hy Hn Hz Hl).
  - intros Hz Hl. unfold curve_to_jacobian, bind.
    rewrite (generate_k_random_first _ _ _ Hlen Hz Hl).
    eexists. split; reflexivity.
  - intros Hrej. unfold curve_to_jacobian, bind. cbn [jz].
    rewrite (generate_k_random_redraw _ _ _ Hlen Hrej). reflexivity.
Qed.

Lemma secp256k1_prime_modulus : bn_modulus secp256k1_prime.
Proof.
  split; [apply bn_of_Z_normalized |].
  split; vm_compute; [discriminate | reflexivity].
Qed.

Lemma secp256k1_G_lazy :
  bn_lazy secp256k1_prime (px secp256k1_G) /\ bn_lazy secp256k1_prime (py secp256k1_G).
Proof.
  split; (split; [apply bn_of_Z_normalized | vm_compute; reflexivity]).
Qed.

Lemma curve_to_jacobian_spec_witness :
  (bn_modulus secp256k1_prime /\
   bn_lazy secp256k1_prime (px secp256k1_G) /\
   bn_lazy secp256k1_prime (py secp256k1_G)) /\
  exists jp',
    curve_to_jacobian (ops := Ref.ops) secp256k1_G jacobian_zeroed secp256k1_prime
      (state0 words_zero_then_three) = Ok jp' (state0 []) /\
    jz jp' = bn_of_Z 3 /\
    0 < bn_value (jz jp') < bn_value secp256k1_prime /\
    bn_value (jx jp') mod bn_value secp256k1_prime
    = (bn_value (px secp256k1_G) * bn_value (jz jp') ^ 2) mod bn_value secp256k1_prime /\
    bn_value (jy jp') mod bn_value secp256k1_prime
    = (bn_value (py secp256k1_G) * bn_value (jz jp') ^ 3) mod bn_value secp256k1_prime.
Proof.
  split.
  - split; [exact secp256k1_prime_modulus | exact secp256k1_G_lazy].
  - destruct (curve_to_jacobian (ops := Ref.ops) secp256k1_G jacobian_zeroed
                secp256k1_prime (state0 words_zero_then_three))
      as [jp' s' | |] eqn:E.
    + exists jp'.
      assert (Es : s' = state0 [] /\ jz jp' = bn_of_Z 3).
      { vm_compute in E. injection E as <- <-. split; reflexivity. }
      destruct Es as [-> Ez]. split; [reflexivity |]. split; [exact Ez |].
      exact (proj1 (@curve_to_jacobian_spec Ref.ops ref_spec secp256k1_G
                      jacobian_zeroed secp256k1_prime (state0 words_zero_then_three)
                      secp256k1_prime_modulus (proj1 secp256k1_G_lazy)
                      (proj2 secp256k1_G_lazy)) jp' (state0 []) E).
    + vm_compute in E. discriminate.
    + vm_compute in E. discriminate.
Defined.

(** C8 (counterexample): when the random source spells the order of
    secp256k1, [curve_to_jacobian] keeps it as z: it is below the prime, and
    it is not below the order. *)
Lemma curve_to_jacobian_accepts_order :
  exists jp',
    curve_to_jacobian (ops := Ref.ops) secp256k1_G jacobian_zeroed
      (curve_prime secp256k1) (state0 secp256k1_order_words) = Ok jp' (state0 []) /\
    jz jp' = curve_order secp256k1 /\
    bn_value (jz jp') < bn_value (curve_prime secp256k1) /\
    ~ (bn_value (jz jp') < bn_value (curve_order secp256k1)).
Proof.
  eexists. split; [vm_compute; reflexivity |].
  cbn [jz]. split; [vm_compute; reflexivity |].
  split; [vm_compute; reflexivity |].
  vm_compute. discriminate.
Qed.

(** ** Public-key validation *)

Section Validation.
Context {ops : BignumOps} {spec : BignumSpec ops}.

(** The two sides of the curve equation as [ecdsa_validate_pubkey] computes
    them, for coordinates below the prime. *)
Lemma validate_sides (curve : ecdsa_curve) (pub : curve_point) :
  curve_wf curve ->
  bn_normalized (px pub) -> bn_normalized (py pub) ->
  bn_value (px pub) < bn_value (curve_prime curve) ->
  bn_value (py pub) < bn_value (curve_prime curve) ->
  let prime := curve_prime curve in
  let y_2 := bn_mod (bn_multiply (py pub) (py pub) prime) prime in
  let x3_ax_b :=
    bn_mod (bn_addmod
              (bn_multiply (px pub)
                 (bn_subi (bn_multiply (px pub) (px pub) prime)
                    (u32 (- curve_a curve)) prime) prime)
              (curve_b curve) prime) prime in
  bn_normalized y_2 /\ bn_normalized x3_ax_b /\
  bn_value y_2 = (bn_value (py pub) * bn_value (py pub)) mod bn_value prime /\
  bn_value x3_ax_b
  = (bn_value (px pub) * bn_value (px pub) * bn_value (px pub)
     + curve_a curve * bn_value (px pub) + bn_value (curve_b curve))
    mod bn_value prime.
Proof.
  intros (Hp & Ha & Ha0 & Hb) Hnx Hny Hx Hy. cbv zeta.
  pose proof (modulus_bounds _ Hp) as Hpb.
  set (prime := curve_prime curve) in *.
  assert (Hlx : bn_lazy prime (px pub)) by (split; [exact Hnx | lia]).
  assert (Hly : bn_lazy prime (py pub)) by (split; [exact Hny | lia]).
  replace (u32 (- curve_a curve)) with (- curve_a curve)
    by (unfold u32; symmetry; apply Z.mod_small; lia).
  destruct (bn_multiply_spec (py pub) (py pub) prime Hp Hly Hly) as [Hy2p Hy2v].
  destruct (bn_mod_spec _ prime Hp Hy2p) as [Hy2n Hy2m].
  destruct (bn_multiply_spec (px pub) (px pub) prime Hp Hlx Hlx) as [Hx2p Hx2v].
  destruct (bn_subi_spec _ (- curve_a curve) prime Hp Hx2p ltac:(lia)) as [Hsl Hsv].
  destruct (bn_multiply_spec (px pub) _ prime Hp Hlx Hsl) as [Hm3p Hm3v].
  destruct (bn_addmod_spec _ (curve_b curve) prime Hp Hm3p Hb) as [Hap Hav].
  destruct (bn_mod_spec _ prime Hp Hap) as [Hfn Hfm].
  split; [exact Hy2n | split; [exact Hfn | split]].
  - rewrite Hy2m. exact Hy2v.
  - rewrite Hfm, Hav. apply mod_add_l. rewrite Hm3v.
    replace (bn_value (px pub) * bn_value (px pub) * bn_value (px pub)
             + curve_a curve * bn_value (px pub))
      with (bn_value (px pub)
            * (bn_value (px pub) * bn_value (px pub) - - curve_a curve)) by ring.
    apply mod_mul_r. rewrite Hsv. apply mod_sub_l. exact Hx2v.
Qed.

(** C7: on a curve of the class and a point with normalized coordinates,
    [ecdsa_validate_pubkey] returns 1 exactly when the point is not the
    point at infinity, both coordinates are below the prime, and
    [y^2 = x^3 + a*x + b] holds modulo the prime; it returns 0 otherwise.
    The function is total: it has no other outcome. *)
Theorem ecdsa_validate_pubkey_spec (curve : ecdsa_curve) (pub : curve_point) :
  curve_wf curve -> bn_normalized (px pub) -> bn_normalized (py pub) ->
  (ecdsa_validate_pubkey curve pub = 1 <->
   pub <> point_set_infinity /\
   bn_value (px pub) < bn_value (curve_prime curve) /\
   bn_value (py pub) < bn_value (curve_prime curve) /\
   (bn_value (py pub) * bn_value (py pub)) mod bn_value (curve_prime curve)
   = (bn_value (px pub) * bn_value (px pub) * bn_value (px pub)
      + curve_a curve * bn_value (px pub) + bn_value (curve_b curve))
     mod bn_value (curve_prime curve)) /\
  (ecdsa_validate_pubkey curve pub = 1 \/ ecdsa_validate_pubkey curve pub = 0).
Proof.
  intros Hwf Hnx Hny.
  assert (Hnp : bn_normalized (curve_prime curve)) by exact (proj1 (proj1 Hwf)).
  pose proof (bn_is_less_spec (px pub) (curve_prime curve) Hnx Hnp) as Lx.
  pose proof (bn_is_less_spec (py pub) (curve_prime curve) Hny Hnp) as Ly.
  unfold ecdsa_validate_pubkey.
  destruct (point_is_infinity pub) eqn:Ei.
  { apply point_is_infinity_spec in Ei.
    split; [split; [discriminate | intros [H _]; contradiction] | right; reflexivity]. }
  assert (Hni : pub <> point_set_infinity).
  { intros E. apply point_is_infinity_spec in E. congruence. }
  destruct (bn_is_less (px pub) (curve_prime curve)) eqn:Ex; cbn [negb orb].
  2:{ split; [split; [discriminate |] | right; reflexivity].
      intros (_ & H & _). apply Lx in H. discriminate. }
  destruct (bn_is_less (py pub) (curve_prime curve)) eqn:Ey; cbn [negb].
  2:{ split; [split; [discriminate |] | right; reflexivity].
      intros (_ & _ & H & _). apply Ly in H. discriminate. }
  assert (Hx : bn_value (px pub) < bn_value (curve_prime curve)) by (apply Lx; reflexivity).
  assert (Hy : bn_value (py pub) < bn_value (curve_prime curve)) by (apply Ly; reflexivity).
  destruct (validate_sides curve pub Hwf Hnx Hny Hx Hy) as (Hn2 & Hn3 & Hv2 & Hv3).
  cbv zeta in Hn2, Hn3, Hv2, Hv3.
  match goal with
  | |- context [bn_is_equal ?l ?r] => destruct (bn_is_equal l r) eqn:Ee
  end; cbn [negb].
  - apply bn_is_equal_spec in Ee.
    split; [| left; reflexivity].
    split; [intros _ | reflexivity].
    repeat (split; [assumption |]).
    rewrite <- Hv2, <- Hv3, Ee. reflexivity.
  - apply bn_is_equal_false in Ee.
    split; [| right; reflexivity].
    split; [discriminate |].
    intros (_ & _ & _ & H). exfalso. apply Ee.
    apply bn_value_inj; [exact Hn3 | exact Hn2 |].
    rewrite Hv2, Hv3. symmetry. exact H.
Qed.

End Validation.

Lemma secp256k1_wf : curve_wf secp256k1.
Proof.
  split; [exact secp256k1_prime_modulus |].
  split; [cbn; lia |]. split; [vm_compute; discriminate |].
  split; [apply bn_of_Z_normalized | vm_compute; reflexivity].
Qed.

Lemma ecdsa_validate_pubkey_spec_witness :
  (curve_wf secp256k1 /\
   bn_normalized (px secp256k1_G) /\ bn_normalized (py secp256k1_G)) /\
  ecdsa_validate_pubkey (ops := Ref.ops) secp256k1 secp256k1_G = 1 /\
  (bn_value (py secp256k1_G) * bn_value (py secp256k1_G))
    mod bn_value (curve_prime secp256k1)
  = (bn_value (px secp256k1_G) * bn_value (px secp256k1_G) * bn_value (px secp256k1_G)
     + curve_a secp256k1 * bn_value (px secp256k1_G) + bn_value (curve_b secp256k1))
    mod bn_value (curve_prime secp256k1).
Proof.
  split.
  - split; [exact secp256k1_wf |]. split; apply bn_of_Z_normalized.
  - assert (E : ecdsa_validate_pubkey (ops := Ref.ops) secp256k1 secp256k1_G = 1)
      by (vm_compute; reflexivity).
    split; [exact E |].
    pose proof (proj1 (proj1 (@ecdsa_validate_pubkey_spec Ref.ops ref_spec
                                secp256k1 secp256k1_G secp256k1_wf
                                (bn_of_Z_normalized _) (bn_of_Z_normalized _))) E)
      as (_ & _ & _ & H).
    exact H.
Defined.

(** * Further properties

    The inline functions of bignum.h, the recoding of the scalar and the
    digits both multiplication routines read from it, the decoder on any
    input, the sampling loop, and the returns of the routines. *)

(** ** Bits and sums *)

(** [hi * 2^n] and a number below [2^n] share no bit. *)
Lemma lor_high_low (hi lo n : Z) :
  0 <= n -> 0 <= lo < 2 ^ n -> Z.lor (hi * 2 ^ n) lo = hi * 2 ^ n + lo.
Proof.
  intros Hn Hlo.
  assert (H0 : Z.land (hi * 2 ^ n) lo = 0).
  { apply Z.bits_inj'. intros i Hi. rewrite Z.land_spec, Z.bits_0.
    destruct (Z.lt_ge_cases i n) as [Hlt | Hge].
    - rewrite Z.mul_pow2_bits_low by lia. reflexivity.
    - rewrite <- (Z.mod_small lo (2 ^ n)) by lia.
      rewrite Z.mod_pow2_bits_high by lia. apply andb_false_r. }
  rewrite (Z.add_nocarry_lxor _ _ H0). symmetry. apply Z.lxor_lor. exact H0.
Qed.

Lemma lor_low_high (hi lo n : Z) :
  0 <= n -> 0 <= lo < 2 ^ n -> Z.lor lo (hi * 2 ^ n) = lo + hi * 2 ^ n.
Proof. intros. rewrite Z.lor_comm, Z.add_comm. now apply lor_high_low. Qed.

(** ** bignum.h: parity and the low machine words *)

Lemma bn_value_low (a : bignum256) :
  exists q, bn_value a = val0 a + 2 ^ 30 * val1 a + 2 ^ 60 * val2 a + 2 ^ 90 * q.
Proof.
  destruct a as [a0 a1 a2 a3 a4 a5 a6 a7 a8]. unfold bn_value.
  cbn [val0 val1 val2 val3 val4 val5 val6 val7 val8].
  exists (a3 + 2 ^ 30 * (a4 + 2 ^ 30 * (a5 + 2 ^ 30 * (a6 + 2 ^ 30 * (a7 + 2 ^ 30 * a8))))).
  ring.
Qed.

(** X1: [bn_is_even] and [bn_is_odd] look at limb 0 only, and that is
    enough whatever the limbs hold: they give the parity of the number the
    nine limbs stand for, and each is the negation of the other. *)
Theorem bn_parity (a : bignum256) :
  bn_is_even a = Z.even (bn_value a) /\
  bn_is_odd a = Z.odd (bn_value a) /\
  bn_is_odd a = negb (bn_is_even a).
Proof.
  destruct (bn_value_low a) as [q Hq].
  assert (E : bn_value a mod 2 = val0 a mod 2).
  { rewrite Hq.
    replace (val0 a + 2 ^ 30 * val1 a + 2 ^ 60 * val2 a + 2 ^ 90 * q)
      with (val0 a + (2 ^ 29 * val1 a + 2 ^ 59 * val2 a + 2 ^ 89 * q) * 2) by ring.
    apply Z.mod_add. lia. }
  unfold bn_is_even, bn_is_odd. cbn [val]. rewrite land_1, <- E.
  rewrite <- Z.bit0_mod, Z.bit0_odd, <- Z.negb_odd.
  destruct (Z.odd (bn_value a)); repeat split; reflexivity.
Qed.

(** [(x * 2^30) mod 2^m] is a multiple of [2^30]. *)
Lemma shift30_mod (x m : Z) :
  30 <= m -> (x * 2 ^ 30) mod 2 ^ m = (x mod 2 ^ (m - 30)) * 2 ^ 30.
Proof.
  intros Hm. replace (2 ^ m) with (2 ^ (m - 30) * 2 ^ 30)
    by (rewrite <- Z.pow_add_r by lia; f_equal; lia).
  rewrite Z.mul_mod_distr_r by lia. reflexivity.
Qed.

(** X2: for a normalized number [bn_write_uint32] returns its low 32 bits
    and [bn_write_uint64] its low 64 bits: the shifts by 30 inside a
    [uint32_t] and a [uint64_t] drop exactly the bits beyond the word. *)
Theorem bn_write_machine_words (a : bignum256) :
  bn_normalized a ->
  bn_write_uint32 a = bn_value a mod 2 ^ 32 /\
  bn_write_uint64 a = bn_value a mod 2 ^ 64.
Proof.
  intros Hn. destruct (bn_value_low a) as [q Hq].
  destruct Hn as (H0 & H1 & H2 & _). unfold limb30 in *.
  unfold bn_write_uint32, bn_write_uint64, u32, u64. cbn [val].
  rewrite !Z.shiftl_mul_pow2 by lia. split.
  - rewrite (shift30_mod (val1 a) 32) by lia.
    rewrite lor_low_high by lia. rewrite Hq.
    replace (val0 a + 2 ^ 30 * val1 a + 2 ^ 60 * val2 a + 2 ^ 90 * q)
      with (val0 a + 2 ^ 30 * val1 a + (2 ^ 28 * val2 a + 2 ^ 58 * q) * 2 ^ 32) by ring.
    rewrite Z.mod_add by lia. cbn [Z.sub Z.add Z.opp Z.pos_sub].
    Z.div_mod_to_equations. lia.
  - rewrite (Z.mod_small (val2 a * 2 ^ 30)) by lia.
    rewrite lor_high_low by lia.
    rewrite (shift30_mod (val2 a * 2 ^ 30 + val1 a) 64) by lia.
    rewrite lor_high_low by lia. rewrite Hq.
    replace (val0 a + 2 ^ 30 * val1 a + 2 ^ 60 * val2 a + 2 ^ 90 * q)
      with (val0 a + 2 ^ 30 * val1 a + 2 ^ 60 * val2 a + (2 ^ 26 * q) * 2 ^ 64) by ring.
    rewrite Z.mod_add by lia. cbn [Z.sub Z.add Z.opp Z.pos_sub].
    Z.div_mod_to_equations. lia.
Qed.

Lemma bn_write_machine_words_witness :
  bn_normalized (bn_of_Z 0x0123456789ABCDEF0FEDCBA987654321) /\
  bn_write_uint32 (bn_of_Z 0x0123456789ABCDEF0FEDCBA987654321) = 0x87654321 /\
  bn_write_uint64 (bn_of_Z 0x0123456789ABCDEF0FEDCBA987654321) = 0x0FEDCBA987654321.
Proof.
  split; [apply bn_of_Z_normalized |].
  exact (bn_write_machine_words _ (bn_of_Z_normalized _)).
Defined.

(** ** The recoded scalar *)

Lemma bn_value_mod2 (a : bignum256) : bn_value a mod 2 = val0 a mod 2.
Proof.
  destruct a as [a0 a1 a2 a3 a4 a5 a6 a7 a8]. unfold bn_value.
  cbn [val0 val1 val2 val3 val4 val5 val6 val7 val8].
  replace (a0 + 2 ^ 30 * (a1 + 2 ^ 30 * (a2 + 2 ^ 30 * (a3 + 2 ^ 30 * (a4 + 2 ^ 30 *
           (a5 + 2 ^ 30 * (a6 + 2 ^ 30 * (a7 + 2 ^ 30 * a8))))))))
    with (a0 + (2 ^ 29 * (a1 + 2 ^ 30 * (a2 + 2 ^ 30 * (a3 + 2 ^ 30 * (a4 + 2 ^ 30 *
           (a5 + 2 ^ 30 * (a6 + 2 ^ 30 * (a7 + 2 ^ 30 * a8)))))))) * 2) by ring.
  apply Z.mod_add. lia.
Qed.

Lemma bn_value_even (a : bignum256) : Z.even (bn_value a) = Z.even (val0 a).
Proof.
  rewrite <- !Z.negb_odd, <- !Z.bit0_odd. f_equal.
  apply Z.b2z_inj. rewrite !Z.bit0_mod. apply bn_value_mod2.
Qed.

(** [is_even = (k->val[0] & 1) - 1]: all ones for an even [k], zero for an
    odd one. *)
Lemma is_even_mask (k0 : Z) :
  u32 (Z.land k0 1 - 1) = if Z.even k0 then 0xffffffff else 0.
Proof.
  rewrite land_1, <- Z.bit0_mod, Z.bit0_odd, <- Z.negb_odd.
  destruct (Z.odd k0); reflexivity.
Qed.

(** One limb of the recoding: no wrap-around, a carry of at most 1. *)
Lemma recode_step (c k e : Z) :
  0 <= c <= 1 -> limb30 k -> 0 <= e < 2 ^ 30 ->
  u32 (c + 0x3fffffff + k - e) = c + 0x3fffffff + k - e /\
  0 <= (c + 0x3fffffff + k - e) / 2 ^ 30 <= 1.
Proof.
  unfold limb30, u32. intros Hc Hk He. split.
  - apply Z.mod_small. lia.
  - split; [apply Z.div_pos; lia |].
    apply Z.lt_succ_r. apply Z.div_lt_upper_bound; lia.
Qed.

Lemma recode_scalar_is_non_zero (curve : ecdsa_curve) (k a0 : bignum256) :
  fst (recode_scalar curve k a0) = 0 <-> k = bn_zeroed.
Proof.
  destruct k as [k0 k1 k2 k3 k4 k5 k6 k7 k8], a0 as [a0 a1 a2 a3 a4 a5 a6 a7 a8].
  unfold recode_scalar.
  cbn [for_up val set_val val0 val1 val2 val3 val4 val5 val6 val7 val8 fst snd].
  rewrite !Z.lor_eq_0_iff. unfold bn_zeroed. split.
  - intros H. decompose [and] H. subst. reflexivity.
  - intros H. injection H as -> -> -> -> -> -> -> -> ->. repeat split.
Qed.

Lemma land_mask (o e : Z) :
  limb30 o -> e = 0 \/ e = 0xffffffff ->
  Z.land o e = (if e =? 0 then 0 else o) /\ 0 <= Z.land o e < 2 ^ 30.
Proof.
  unfold limb30. intros Ho [-> | ->]; cbn [Z.eqb].
  - rewrite Z.land_0_r. lia.
  - rewrite land_32, Z.mod_small by lia. lia.
Qed.

Lemma recode_scalar_limbs (curve : ecdsa_curve) (k a0 : bignum256) (e : Z) :
  bn_normalized k -> bn_normalized (curve_order curve) ->
  val8 k < 2 ^ 16 -> val8 (curve_order curve) < 2 ^ 16 ->
  u32 (Z.land (val0 k) 1 - 1) = e -> (e = 0 \/ e = 0xffffffff) ->
  let a := snd (recode_scalar curve k a0) in
  bn_recoded a /\
  bn_value a
  = bn_value k + 2 ^ 256 - (if e =? 0 then 0 else bn_value (curve_order curve)) /\
  val0 a mod 2 = (val0 k - (if e =? 0 then 0 else val0 (curve_order curve))) mod 2.
Proof.
  destruct curve as [prime G order ca cb cp]. cbn [curve_order].
  destruct k as [k0 k1 k2 k3 k4 k5 k6 k7 k8], order as [o0 o1 o2 o3 o4 o5 o6 o7 o8],
    a0 as [a0 a1 a2 a3 a4 a5 a6 a7 a8].
  unfold bn_normalized, bn_value, bn_recoded.
  cbn [val0 val1 val2 val3 val4 val5 val6 val7 val8].
  intros (K0 & K1 & K2 & K3 & K4 & K5 & K6 & K7 & K8)
         (O0 & O1 & O2 & O3 & O4 & O5 & O6 & O7 & O8) Kt Ot He Hcase.
  unfold recode_scalar. cbn [curve_order val val0].
  rewrite He.
  cbn [for_up val set_val val0 val1 val2 val3 val4 val5 val6 val7 val8 fst snd].
  destruct (land_mask o0 e O0 Hcase) as [M0 B0].
  destruct (land_mask o1 e O1 Hcase) as [M1 B1].
  destruct (land_mask o2 e O2 Hcase) as [M2 B2].
  destruct (land_mask o3 e O3 Hcase) as [M3 B3].
  destruct (land_mask o4 e O4 Hcase) as [M4 B4].
  destruct (land_mask o5 e O5 Hcase) as [M5 B5].
  destruct (land_mask o6 e O6 Hcase) as [M6 B6].
  destruct (land_mask o7 e O7 Hcase) as [M7 B7].
  destruct (land_mask o8 e O8 Hcase) as [M8 B8].
  remember (Z.land o0 e) as e0 eqn:Q0. remember (Z.land o1 e) as e1 eqn:Q1.
  remember (Z.land o2 e) as e2 eqn:Q2. remember (Z.land o3 e) as e3 eqn:Q3.
  remember (Z.land o4 e) as e4 eqn:Q4. remember (Z.land o5 e) as e5 eqn:Q5.
  remember (Z.land o6 e) as e6 eqn:Q6. remember (Z.land o7 e) as e7 eqn:Q7.
  remember (Z.land o8 e) as e8 eqn:Q8.
  clear Q0 Q1 Q2 Q3 Q4 Q5 Q6 Q7 Q8 He.
  assert (B8' : e8 <= 65535).
  { unfold limb30 in *. destruct Hcase as [Hc | Hc]; rewrite Hc in M8;
      cbn [Z.eqb] in M8; lia. }
  rewrite !land_30, !Z.shiftr_div_pow2 by lia.
  destruct (recode_step 1 k0 e0 ltac:(lia) K0 B0) as [E0 C0]. rewrite !E0.
  remember (1 + 1073741823 + k0 - e0) as t0 eqn:T0.
  destruct (recode_step _ k1 e1 C0 K1 B1) as [E1 C1]. rewrite !E1.
  remember (t0 / 2 ^ 30 + 1073741823 + k1 - e1) as t1 eqn:T1.
  destruct (recode_step _ k2 e2 C1 K2 B2) as [E2 C2]. rewrite !E2.
  remember (t1 / 2 ^ 30 + 1073741823 + k2 - e2) as t2 eqn:T2.
  destruct (recode_step _ k3 e3 C2 K3 B3) as [E3 C3]. rewrite !E3.
  remember (t2 / 2 ^ 30 + 1073741823 + k3 - e3) as t3 eqn:T3.
  destruct (recode_step _ k4 e4 C3 K4 B4) as [E4 C4]. rewrite !E4.
  remember (t3 / 2 ^ 30 + 1073741823 + k4 - e4) as t4 eqn:T4.
  destruct (recode_step _ k5 e5 C4 K5 B5) as [E5 C5]. rewrite !E5.
  remember (t4 / 2 ^ 30 + 1073741823 + k5 - e5) as t5 eqn:T5.
  destruct (recode_step _ k6 e6 C5 K6 B6) as [E6 C6]. rewrite !E6.
  remember (t5 / 2 ^ 30 + 1073741823 + k6 - e6) as t6 eqn:T6.
  destruct (recode_step _ k7 e7 C6 K7 B7) as [E7 C7]. rewrite !E7.
  remember (t6 / 2 ^ 30 + 1073741823 + k7 - e7) as t7 eqn:T7.
  clear E0 E1 E2 E3 E4 E5 E6 E7.
  assert (E8 : u32 (t7 / 2 ^ 30 + 65535 + k8 - e8) = t7 / 2 ^ 30 + 65535 + k8 - e8).
  { unfold u32, limb30 in *. apply Z.mod_small. lia. }
  rewrite !E8. clear E8.
  unfold limb30 in *.
  split; [| split].
  - repeat split; try (apply Z.mod_pos_bound; lia); lia.
  - destruct Hcase as [-> | ->]; cbn [Z.eqb] in *; subst e0 e1 e2 e3 e4 e5 e6 e7 e8;
      Z.div_mod_to_equations; lia.
  - subst t0. destruct Hcase as [-> | ->]; cbn [Z.eqb] in *; subst e0;
      Z.div_mod_to_equations; lia.
Qed.

(** ** The digits of the table-driven routine *)

Lemma shift_a_4_spec (a : bignum256) :
  bn_recoded a ->
  bn_recoded (shift_a_4 a) /\ bn_value (shift_a_4 a) = bn_value a / 16.
Proof.
  destruct a as [a0 a1 a2 a3 a4 a5 a6 a7 a8]. unfold bn_recoded, bn_value, limb30.
  cbn [val0 val1 val2 val3 val4 val5 val6 val7 val8].
  intros (A0 & A1 & A2 & A3 & A4 & A5 & A6 & A7 & A8).
  unfold shift_a_4.
  cbn [for_up val set_val val0 val1 val2 val3 val4 val5 val6 val7 val8 Nat.add].
  change 15 with (Z.ones 4). rewrite !Z.land_ones, !Z.shiftr_div_pow2 by lia.
  rewrite !Z.shiftl_mul_pow2 by lia.
  assert (L : forall x y, 0 <= x < 2 ^ 30 ->
            Z.lor (x / 2 ^ 4) (y mod 2 ^ 4 * 2 ^ 26) = x / 2 ^ 4 + y mod 2 ^ 4 * 2 ^ 26).
  { intros x y Hx. apply lor_low_high; [lia |].
    split; [apply Z.div_pos; lia | apply Z.div_lt_upper_bound; lia]. }
  rewrite !L by assumption. clear L.
  change (2 ^ 4) with 16.
  split.
  - repeat split; Z.div_mod_to_equations; lia.
  - Z.div_mod_to_equations. lia.
Qed.

(** Every window of five bits passes the check. *)
Lemma window_check_all (m : Z) : 0 <= m < 32 -> window_check m = true.
Proof.
  intros Hm.
  assert (Hall : forallb window_check (map Z.of_nat (seq 0 32)) = true)
    by (vm_compute; reflexivity).
  rewrite forallb_forall in Hall. apply Hall.
  rewrite <- (Z2Nat.id m) by lia. apply in_map. apply in_seq. lia.
Qed.

Lemma lowbits_of_window_eq (a : bignum256) :
  lowbits_of a = lowbits_of_window (bn_value a mod 32) /\
  Z.land (Z.shiftr (val a 0) 4) 1 = bn_value a mod 32 / 16.
Proof.
  assert (E : Z.land (val0 a) 31 = bn_value a mod 32).
  { change 31 with (Z.ones 5). rewrite Z.land_ones by lia. change (2 ^ 5) with 32.
    destruct a as [a0 a1 a2 a3 a4 a5 a6 a7 a8]. unfold bn_value.
    cbn [val0 val1 val2 val3 val4 val5 val6 val7 val8].
    replace (a0 + 2 ^ 30 * (a1 + 2 ^ 30 * (a2 + 2 ^ 30 * (a3 + 2 ^ 30 * (a4 + 2 ^ 30 *
             (a5 + 2 ^ 30 * (a6 + 2 ^ 30 * (a7 + 2 ^ 30 * a8))))))))
      with (a0 + (2 ^ 25 * (a1 + 2 ^ 30 * (a2 + 2 ^ 30 * (a3 + 2 ^ 30 * (a4 + 2 ^ 30 *
             (a5 + 2 ^ 30 * (a6 + 2 ^ 30 * (a7 + 2 ^ 30 * a8)))))))) * 32) by ring.
    symmetry. apply Z.mod_add. lia. }
  split.
  - unfold lowbits_of, lowbits_of_window. cbn [val].
    change (Z.shiftl 1 5 - 1) with 31. rewrite E. reflexivity.
  - cbn [val]. rewrite <- E. change 31 with (Z.ones 5).
    rewrite land_1, Z.land_ones, Z.shiftr_div_pow2 by lia.
    Z.div_mod_to_equations. lia.
Qed.

Lemma round_odd_step (v : Z) :
  round_odd v = signed_digit (v mod 32) + 16 * round_odd (v / 16).
Proof. unfold signed_digit, round_odd. Z.div_mod_to_equations. lia. Qed.

Lemma negate_if_sign (mask acc : Z) (flip : bool) :
  (mask =? 0xffffffff) = flip ->
  negate_if mask acc = (if flip then -1 else 1) * acc.
Proof. unfold negate_if. intros ->. destruct flip; lia. Qed.

(** The arithmetic of one round: [m] the window before the shift, [m']
    the window after it, [p] the weight of the round. *)
Lemma round_arith (m m' acc p : Z) :
  0 <= m < 32 -> 0 <= m' < 32 -> m' mod 2 = m / 16 ->
  digit_sign m' *
    (negate_if (u32 (Z.land (lowbits_of_window m') 1 - 1)) acc
     + (2 * Z.shiftr (lowbits_of_window m') 1 + 1) * p)
  = digit_sign m * acc + signed_digit m' * p.
Proof.
  intros Hm Hm' Hbit.
  pose proof (window_check_all m' Hm') as Hc. unfold window_check in Hc.
  apply andb_true_iff in Hc. destruct Hc as [Hc1 Hc2].
  apply Z.eqb_eq in Hc1. apply eqb_prop in Hc2.
  rewrite (negate_if_sign _ acc _ Hc2), Hc1, Hbit.
  generalize (signed_digit m'). intros d.
  unfold digit_sign.
  assert (Hd' : m' / 16 = 0 \/ m' / 16 = 1) by (Z.div_mod_to_equations; lia).
  assert (Hd : m / 16 = 0 \/ m / 16 = 1) by (Z.div_mod_to_equations; lia).
  destruct Hd' as [-> | ->], Hd as [-> | ->]; cbn [Z.eqb Pos.eqb negb]; ring.
Qed.

(** One round, on the value of [a] and the accumulated multiple brought to
    the sign of the current digit. *)
Lemma scalar_exponent_round_spec (i : nat) (a a' : bignum256) (acc acc' : Z) :
  bn_recoded a ->
  scalar_exponent_round i (a, acc) = (a', acc') ->
  bn_recoded a' /\ bn_value a' = bn_value a / 16 /\
  digit_sign (bn_value a' mod 32) * acc'
  = digit_sign (bn_value a mod 32) * acc
    + signed_digit (bn_value a' mod 32) * 16 ^ Z.of_nat i.
Proof.
  intros Ha E. unfold scalar_exponent_round in E.
  injection E as <- <-.
  destruct (shift_a_4_spec a Ha) as [Hr Hv].
  split; [exact Hr | split; [exact Hv |]].
  destruct (lowbits_of_window_eq (shift_a_4 a)) as [-> _].
  unfold table_multiple.
  apply round_arith.
  - apply Z.mod_pos_bound; lia.
  - apply Z.mod_pos_bound; lia.
  - rewrite Hv. generalize (bn_value a). intros v. Z.div_mod_to_equations. lia.
Qed.

Lemma for_up_0 {S : Type} (i : nat) (body : nat -> S -> S) (s : S) :
  for_up 0 i body s = s.
Proof. reflexivity. Qed.

Lemma for_up_S {S : Type} (n i : nat) (body : nat -> S -> S) (s : S) :
  for_up (Datatypes.S n) i body s = for_up n (Datatypes.S i) body (body i s).
Proof. reflexivity. Qed.

Lemma scalar_exponent_rounds_spec (n : nat) :
  forall (i : nat) (a a' : bignum256) (acc acc' : Z),
  bn_recoded a ->
  for_up n i scalar_exponent_round (a, acc) = (a', acc') ->
  bn_recoded a' /\ bn_value a' = bn_value a / 16 ^ Z.of_nat n /\
  digit_sign (bn_value a' mod 32) * acc'
  = digit_sign (bn_value a mod 32) * acc
    + 16 ^ Z.of_nat i * round_odd (bn_value a / 16)
    - 16 ^ Z.of_nat (i + n) * round_odd (bn_value a / 16 ^ Z.of_nat (S n)).
Proof.
  induction n as [| n IH]; intros i a a' acc acc' Ha E.
  - rewrite for_up_0 in E. injection E as <- <-. rewrite Nat.add_0_r.
    change (16 ^ Z.of_nat 0) with 1. change (16 ^ Z.of_nat 1) with 16.
    rewrite Z.div_1_r. split; [exact Ha | split; [reflexivity |]].
    generalize (16 ^ Z.of_nat i). intros p. ring.
  - rewrite for_up_S in E.
    destruct (scalar_exponent_round i (a, acc)) as [a1 acc1] eqn:E1.
    destruct (scalar_exponent_round_spec i a a1 acc acc1 Ha E1) as (Hr & Hv & Hs).
    destruct (IH (S i) a1 a' acc1 acc' Hr E) as (Hr' & Hv' & Hs').
    split; [exact Hr' | split].
    + rewrite Hv', Hv. rewrite Z.div_div by lia. f_equal.
      rewrite Nat2Z.inj_succ, Z.pow_succ_r by lia. reflexivity.
    + assert (Hdd : bn_value a / 16 / 16 ^ Z.of_nat (S n)
                    = bn_value a / 16 ^ Z.of_nat (S (S n))).
      { rewrite Z.div_div by lia. f_equal.
        rewrite (Nat2Z.inj_succ (S n)), Z.pow_succ_r by lia. reflexivity. }
      rewrite Hs', Hs, Hv, Hdd.
      rewrite (round_odd_step (bn_value a / 16)).
      replace (i + S n)%nat with (S i + n)%nat by lia.
      replace (16 ^ Z.of_nat (S i)) with (16 * 16 ^ Z.of_nat i)
        by (rewrite Nat2Z.inj_succ, Z.pow_succ_r by lia; reflexivity).
      generalize (16 ^ Z.of_nat i) (16 ^ Z.of_nat (S i + n)). intros p q.
      ring.
Qed.

(** The multiple that the table lookups and sign changes add up to. *)
Lemma scalar_exponent_value (a : bignum256) :
  bn_recoded a ->
  scalar_exponent a = round_odd (bn_value a) - 2 ^ 256 * round_odd (bn_value a / 2 ^ 256).
Proof.
  intros Ha. unfold scalar_exponent.
  destruct (for_up 63 1 scalar_exponent_round
              (a, table_multiple 0 (Z.shiftr (lowbits_of a) 1))) as [a' acc'] eqn:E63.
  destruct (scalar_exponent_rounds_spec 63 1 a a' _ acc' Ha E63) as (Hr & Hv & Hs).
  destruct (lowbits_of_window_eq a') as [_ ->].
  destruct (lowbits_of_window_eq a) as [E0 _]. rewrite E0 in Hs.
  set (m := bn_value a mod 32) in *. set (m' := bn_value a' mod 32) in *.
  assert (Hm : 0 <= m < 32) by (apply Z.mod_pos_bound; lia).
  assert (Hm' : 0 <= m' < 32) by (apply Z.mod_pos_bound; lia).
  pose proof (window_check_all m Hm) as Hc. unfold window_check in Hc.
  apply andb_true_iff in Hc. destruct Hc as [Hc1 _]. apply Z.eqb_eq in Hc1.
  unfold table_multiple in Hs. rewrite Hc1 in Hs.
  change (16 ^ Z.of_nat 0) with 1 in Hs. change (16 ^ Z.of_nat 1) with 16 in Hs.
  change (16 ^ Z.of_nat (1 + 63)) with (2 ^ 256) in Hs.
  change (16 ^ Z.of_nat 64) with (2 ^ 256) in Hs.
  rewrite (round_odd_step (bn_value a)). fold m.
  assert (Hd : m / 16 = 0 \/ m / 16 = 1) by (Z.div_mod_to_equations; lia).
  assert (Hd' : m' / 16 = 0 \/ m' / 16 = 1) by (Z.div_mod_to_equations; lia).
  unfold negate_if, digit_sign in *.
  destruct Hd' as [E' | E'], Hd as [E | E]; rewrite E' in *; rewrite E in *;
    cbn [Z.eqb Pos.eqb Z.sub Z.add Z.opp Z.pos_sub] in *;
    change (u32 (-1)) with 4294967295 in *; change (u32 0) with 0 in *;
    cbn [Z.eqb Pos.eqb] in *; lia.
Qed.

Lemma normalized_top_limb (a : bignum256) :
  bn_normalized a -> bn_value a < 2 ^ 256 -> val8 a < 2 ^ 16.
Proof.
  destruct a as [a0 a1 a2 a3 a4 a5 a6 a7 a8]. unfold bn_normalized, bn_value, limb30.
  cbn [val0 val1 val2 val3 val4 val5 val6 val7 val8].
  intros (A0 & A1 & A2 & A3 & A4 & A5 & A6 & A7 & A8) H. lia.
Qed.

Lemma round_odd_odd (v : Z) : Z.odd v = true -> round_odd v = v.
Proof.
  intros H. unfold round_odd. rewrite <- Z.bit0_odd in H.
  apply (f_equal Z.b2z) in H. rewrite Z.bit0_mod in H. cbn [Z.b2z] in H.
  Z.div_mod_to_equations. lia.
Qed.

(** The recoded scalar, for a scalar and an order of 256 bits. *)
Lemma recode_scalar_sum (curve : ecdsa_curve) (k a0 : bignum256) :
  bn_normalized k -> bn_value k < 2 ^ 256 ->
  bn_normalized (curve_order curve) -> bn_value (curve_order curve) < 2 ^ 256 ->
  let a := snd (recode_scalar curve k a0) in
  bn_recoded a /\
  bn_value a = bn_value k + 2 ^ 256
               - (if Z.even (bn_value k) then bn_value (curve_order curve) else 0) /\
  (Z.odd (bn_value (curve_order curve)) = true -> Z.odd (bn_value a) = true).
Proof.
  intros Hk Hk256 Ho Ho256.
  pose proof (is_even_mask (val0 k)) as He.
  assert (Hcase : u32 (Z.land (val0 k) 1 - 1) = 0 \/
                  u32 (Z.land (val0 k) 1 - 1) = 0xffffffff)
    by (rewrite He; destruct (Z.even (val0 k)); [right | left]; reflexivity).
  destruct (recode_scalar_limbs curve k a0 _ Hk Ho
              (normalized_top_limb k Hk Hk256)
              (normalized_top_limb _ Ho Ho256) eq_refl Hcase) as (Hr & Hv & _).
  cbv zeta. split; [exact Hr |].
  assert (Hv' : bn_value (snd (recode_scalar curve k a0))
                = bn_value k + 2 ^ 256
                  - (if Z.even (bn_value k) then bn_value (curve_order curve) else 0)).
  { rewrite Hv, He, bn_value_even. destruct (Z.even (val0 k)); reflexivity. }
  split; [exact Hv' |].
  intros Hodd. rewrite Hv'.
  generalize dependent (bn_value (curve_order curve)). intros O _ _ _ Hodd.
  generalize (bn_value k). intros K.
  destruct (Z.even K) eqn:EK.
  - rewrite Z.odd_sub, Z.odd_add, <- (Z.negb_even K), EK, Hodd. reflexivity.
  - rewrite Z.sub_0_r, Z.odd_add, <- (Z.negb_even K), EK. reflexivity.
Qed.

(** X3: the recoding loop that opens [point_multiply] and
    [scalar_multiply].  For a normalized scalar [k] and a normalized odd
    order, both below 2^256, no limb computation wraps around: [a] holds, in
    eight limbs of 30 bits and one of at most 17, the number
    [k + 2^256 - order] for an even [k] and [k + 2^256] for an odd one.
    That number is congruent to [k + 2^256] modulo the order and odd, so
    the assertion [(a.val[0] & 1) != 0] holds; and [is_non_zero] is zero
    exactly for [k = 0]. *)
Theorem recode_scalar_value (curve : ecdsa_curve) (k a0 : bignum256) :
  bn_normalized k -> bn_value k < 2 ^ 256 ->
  bn_normalized (curve_order curve) -> bn_value (curve_order curve) < 2 ^ 256 ->
  Z.odd (bn_value (curve_order curve)) = true ->
  let a := snd (recode_scalar curve k a0) in
  let is_non_zero := fst (recode_scalar curve k a0) in
  bn_recoded a /\
  bn_value a = bn_value k + 2 ^ 256
               - (if Z.even (bn_value k) then bn_value (curve_order curve) else 0) /\
  bn_value a mod bn_value (curve_order curve)
  = (bn_value k + 2 ^ 256) mod bn_value (curve_order curve) /\
  negb (Z.land (val a 0) 1 =? 0) = true /\
  (is_non_zero = 0 <-> bn_value k = 0).
Proof.
  intros Hk Hk256 Ho Ho256 Hodd. cbv zeta.
  destruct (recode_scalar_sum curve k a0 Hk Hk256 Ho Ho256) as (Hr & Hv & Ha).
  specialize (Ha Hodd).
  split; [exact Hr |]. split; [exact Hv |]. split; [| split].
  - rewrite Hv. destruct (Z.even (bn_value k)).
    + replace (bn_value k + 2 ^ 256 - bn_value (curve_order curve))
        with (bn_value k + 2 ^ 256 + (-1) * bn_value (curve_order curve)) by ring.
      apply Z.mod_add.
      intros E. rewrite E in Hodd. discriminate Hodd.
    + rewrite Z.sub_0_r. reflexivity.
  - cbn [val]. rewrite land_1, <- bn_value_mod2, <- Z.bit0_mod, Z.bit0_odd, Ha.
    reflexivity.
  - rewrite recode_scalar_is_non_zero. split.
    + intros ->. reflexivity.
    + intros E. apply bn_value_inj; [exact Hk | | exact E].
      repeat split; cbn; lia.
Qed.

Lemma recode_scalar_value_witness :
  (bn_normalized (bn_of_Z 2) /\ bn_value (bn_of_Z 2) < 2 ^ 256 /\
   bn_normalized (curve_order secp256k1) /\
   bn_value (curve_order secp256k1) < 2 ^ 256 /\
   Z.odd (bn_value (curve_order secp256k1)) = true) /\
  let a := snd (recode_scalar secp256k1 (bn_of_Z 2) bn_zeroed) in
  let is_non_zero := fst (recode_scalar secp256k1 (bn_of_Z 2) bn_zeroed) in
  bn_recoded a /\
  bn_value a = bn_value (bn_of_Z 2) + 2 ^ 256
               - (if Z.even (bn_value (bn_of_Z 2))
                  then bn_value (curve_order secp256k1) else 0) /\
  bn_value a mod bn_value (curve_order secp256k1)
  = (bn_value (bn_of_Z 2) + 2 ^ 256) mod bn_value (curve_order secp256k1) /\
  negb (Z.land (val a 0) 1 =? 0) = true /\
  (is_non_zero = 0 <-> bn_value (bn_of_Z 2) = 0).
Proof.
  assert (H1 : bn_value (bn_of_Z 2) < 2 ^ 256) by (vm_compute; reflexivity).
  assert (H2 : bn_value (curve_order secp256k1) < 2 ^ 256) by (vm_compute; reflexivity).
  assert (H3 : Z.odd (bn_value (curve_order secp256k1)) = true)
    by (vm_compute; reflexivity).
  split.
  - split; [apply bn_of_Z_normalized |]. split; [exact H1 |].
    split; [apply bn_of_Z_normalized |]. split; [exact H2 | exact H3].
  - exact (recode_scalar_value secp256k1 (bn_of_Z 2) bn_zeroed
             (bn_of_Z_normalized _) H1 (bn_of_Z_normalized _) H2 H3).
Defined.

(** X4: the inner loop of [scalar_multiply] that shifts [a] by four
    places: on a recoded scalar it divides the number by 16, moving the low
    four bits of every limb into the top of the limb below, and leaves the
    limbs within their range. *)
Theorem shift_a_4_value (a : bignum256) :
  bn_recoded a ->
  bn_recoded (shift_a_4 a) /\ bn_value (shift_a_4 a) = bn_value a / 2 ^ 4.
Proof. exact (shift_a_4_spec a). Qed.

Lemma shift_a_4_value_witness :
  bn_recoded (bn_of_Z 0x123456789ABCDEF0123456789ABCDEF) /\
  bn_recoded (shift_a_4 (bn_of_Z 0x123456789ABCDEF0123456789ABCDEF)) /\
  bn_value (shift_a_4 (bn_of_Z 0x123456789ABCDEF0123456789ABCDEF))
  = bn_value (bn_of_Z 0x123456789ABCDEF0123456789ABCDEF) / 2 ^ 4.
Proof.
  assert (H : bn_recoded (bn_of_Z 0x123456789ABCDEF0123456789ABCDEF)).
  { unfold bn_recoded, limb30. vm_compute. intuition discriminate. }
  split; [exact H |]. exact (shift_a_4_value _ H).
Defined.

(** X5: whatever [a] holds, the index [lowbits >> 1] with which
    [scalar_multiply] reads [curve->cp[i]] lies in 0..7, within the eight
    entries of a row, and the mask [(lowbits & 1) - 1] handed to
    [conditional_negate] is 0 or 0xffffffff, the two values that function
    is written for. *)
Theorem lowbits_of_range (a : bignum256) :
  let lowbits := lowbits_of a in
  0 <= Z.shiftr lowbits 1 < 8 /\
  (Z.to_nat (Z.shiftr lowbits 1) < 8)%nat /\
  (u32 (Z.land lowbits 1 - 1) = 0 \/ u32 (Z.land lowbits 1 - 1) = 0xffffffff).
Proof.
  cbv zeta.
  assert (H : 0 <= lowbits_of a < 16).
  { unfold lowbits_of. change 15 with (Z.ones 4). rewrite Z.land_ones by lia.
    apply Z.mod_pos_bound. lia. }
  assert (H1 : 0 <= Z.shiftr (lowbits_of a) 1 < 8).
  { rewrite Z.shiftr_div_pow2 by lia. change (2 ^ 1) with 2.
    Z.div_mod_to_equations. lia. }
  split; [exact H1 |]. split; [lia |].
  rewrite is_even_mask. destruct (Z.even (lowbits_of a)); [right | left]; reflexivity.
Qed.

Lemma top_digit_arith (K e : Z) :
  0 <= K < 2 ^ 256 -> 0 <= e < 2 ^ 256 ->
  K + 2 ^ 256 - e - 2 ^ 256 * round_odd ((K + 2 ^ 256 - e) / 2 ^ 256) = K - e.
Proof.
  intros HK He.
  assert (Hq : (K + 2 ^ 256 - e) / 2 ^ 256 = 0 \/ (K + 2 ^ 256 - e) / 2 ^ 256 = 1)
    by (Z.div_mod_to_equations; lia).
  destruct Hq as [-> | ->]; unfold round_odd; cbn; lia.
Qed.



(** ** Conditional negation twice; the DER decoder on any input *)

(** X7: [conditional_negate] with the mask 0xffffffff applied twice gives
    back the limbs it started from, for normalized [a] and modulus with
    [a <= 2 * modulus < 2^257]; neither call fails its assertions. *)
Theorem conditional_negate_involution (a prime : bignum256) (s : state) :
  bn_normalized a -> bn_normalized prime ->
  bn_value a <= 2 * bn_value prime -> bn_value prime < 2 ^ 256 ->
  exists a', conditional_negate 0xffffffff a prime s = Ok a' s /\
             conditional_negate 0xffffffff a' prime s = Ok a s.
Proof.
  intros Ha Hp Hle Hlt.
  destruct (conditional_negate_negates a prime s Ha Hp Hle Hlt) as (a' & E & Hn & Hv).
  exists a'. split; [exact E |].
  pose proof (bn_value_bounds a Ha) as Hb.
  destruct (conditional_negate_negates a' prime s Hn Hp ltac:(lia) Hlt)
    as (a'' & E' & Hn' & Hv').
  rewrite E'. f_equal. apply bn_value_inj; [exact Hn' | exact Ha | lia].
Qed.

Lemma conditional_negate_involution_witness :
  exists a', conditional_negate 0xffffffff (px secp256k1_G) secp256k1_prime (state0 [])
             = Ok a' (state0 []) /\
             conditional_negate 0xffffffff a' secp256k1_prime (state0 [])
             = Ok (px secp256k1_G) (state0 []).
Proof.
  apply (conditional_negate_involution (px secp256k1_G) secp256k1_prime (state0 [])).
  - apply bn_of_Z_normalized.
  - apply bn_of_Z_normalized.
  - vm_compute. discriminate.
  - vm_compute. reflexivity.
Defined.

(** The decoder on any three tags, the length bytes being consistent. *)
Lemma ecdsa_der_to_sig_tags (d0 d2 d3 : Z) (r s rest sig : list Z) :
  length sig = 64%nat ->
  ecdsa_der_to_sig
    ([d0; Z.of_nat (length r) + Z.of_nat (length s) + 4; d2; Z.of_nat (length r)]
     ++ r ++ [d3; Z.of_nat (length s)] ++ s ++ rest) sig
  = Some (if (d0 =? 0x30) && (d2 =? 0x02) && (d3 =? 0x02)
          then (0, integer_to_32_bytes r ++ integer_to_32_bytes s)
          else (-1, repeat 0 64)).
Proof.
  intros Hsig. unfold ecdsa_der_to_sig, SIGNATURE_SIZE_IN_ASN1.
  rewrite memzero_whole by exact Hsig.
  set (b2 := Z.of_nat (length r)). set (b3 := Z.of_nat (length s)).
  set (hd := [d0; b2 + b3 + 4; d2; b2]).
  assert (Hder : hd ++ r ++ [d3; b3] ++ s ++ rest
                 = hd ++ r ++ [d3] ++ [b3] ++ s ++ rest) by reflexivity.
  rewrite Hder. clear Hder. set (der := hd ++ r ++ [d3] ++ [b3] ++ s ++ rest).
  assert (E0 : der_byte der 0 = Some d0) by reflexivity.
  assert (E1 : der_byte der 1 = Some (b2 + b3 + 4)) by reflexivity.
  assert (E2 : der_byte der 2 = Some d2) by reflexivity.
  assert (E3 : der_byte der 3 = Some b2) by reflexivity.
  assert (E4 : der_byte der (Z.to_nat (4 + b2)) = Some d3).
  { replace (Z.to_nat (4 + b2)) with (length (hd ++ r))
      by (rewrite length_app; cbn [length hd]; lia).
    unfold der. rewrite (app_assoc hd r). apply der_byte_at. }
  assert (E5 : der_byte der (Z.to_nat (4 + b2 + 1)) = Some b3).
  { replace (Z.to_nat (4 + b2 + 1)) with (length ((hd ++ r) ++ [d3]))
      by (rewrite !length_app; cbn [length hd]; lia).
    unfold der. rewrite (app_assoc hd r), (app_assoc (hd ++ r) [d3]).
    apply der_byte_at. }
  assert (I1 : der_integer (repeat 0 64) 0 der 4 b2
               = Some (integer_to_32_bytes r ++ repeat 0 32)).
  { exact (der_integer_spec [] (repeat 0 32) (repeat 0 32) hd r
             ([d3] ++ [b3] ++ s ++ rest) eq_refl). }
  assert (I2 : der_integer (integer_to_32_bytes r ++ repeat 0 32) 32 der
                 (Z.to_nat (4 + b2 + 2)) b3
               = Some (integer_to_32_bytes r ++ integer_to_32_bytes s)).
  { replace (Z.to_nat (4 + b2 + 2)) with (length (((hd ++ r) ++ [d3]) ++ [b3]))
      by (rewrite !length_app; cbn [length hd]; lia).
    rewrite <- (integer_to_32_bytes_length r) at 2.
    pose proof (der_integer_spec (integer_to_32_bytes r) (repeat 0 32) []
                  (((hd ++ r) ++ [d3]) ++ [b3]) s rest eq_refl) as H.
    rewrite !app_nil_r in H. rewrite <- H. unfold der.
    rewrite <- !app_assoc. reflexivity. }
  rewrite E0, E1, E2, E3. cbn [obind].
  rewrite I1. cbn [obind]. rewrite E4, E5. cbn [obind].
  rewrite Z.eqb_refl. cbn [negb]. rewrite I2. cbn [obind].
  assert (Hz : memzero (integer_to_32_bytes r ++ integer_to_32_bytes s) 0 64
               = repeat 0 64).
  { apply memzero_whole. rewrite length_app, !integer_to_32_bytes_length. reflexivity. }
  destruct (d0 =? 48), (d2 =? 2), (d3 =? 2); cbn [negb andb Z.eqb Pos.eqb];
    rewrite ?Hz; reflexivity.
Qed.

(** X8: a DER input whose length bytes are consistent but in which one of
    the three tag bytes is wrong (the outer one not 0x30, or one of the
    INTEGER tags not 0x02) is answered with -1 and 64 zero bytes, whatever
    the two INTEGERs hold. *)
Theorem ecdsa_der_to_sig_wrong_tag (d0 d2 d3 : Z) (r s rest sig : list Z) :
  length sig = 64%nat ->
  d0 <> 0x30 \/ d2 <> 0x02 \/ d3 <> 0x02 ->
  ecdsa_der_to_sig
    ([d0; Z.of_nat (length r) + Z.of_nat (length s) + 4; d2; Z.of_nat (length r)]
     ++ r ++ [d3; Z.of_nat (length s)] ++ s ++ rest) sig
  = Some (-1, repeat 0 64).
Proof.
  intros Hsig Htag. rewrite (ecdsa_der_to_sig_tags d0 d2 d3 r s rest sig Hsig).
  destruct (Z.eqb_spec d0 0x30), (Z.eqb_spec d2 0x02), (Z.eqb_spec d3 0x02);
    cbn [andb]; try reflexivity.
  exfalso. destruct Htag as [H | [H | H]]; contradiction.
Qed.

Lemma ecdsa_der_to_sig_wrong_tag_witness :
  ecdsa_der_to_sig
    ([0x30; Z.of_nat (length sample_r33) + Z.of_nat (length sample_s32) + 4;
      0x03; Z.of_nat (length sample_r33)]
     ++ sample_r33 ++ [0x02; Z.of_nat (length sample_s32)] ++ sample_s32 ++ [])
    dirty_sig
  = Some (-1, repeat 0 64).
Proof.
  apply (ecdsa_der_to_sig_wrong_tag 0x30 0x03 0x02 sample_r33 sample_s32 [] dirty_sig).
  - reflexivity.
  - right. left. discriminate.
Defined.

(** X9: the result of [ecdsa_der_to_sig], return code and output bytes,
    does not depend on what the 64-byte output buffer held before the call,
    on any path, the early return included. *)
Theorem ecdsa_der_to_sig_ignores_sig (der sig1 sig2 : list Z) :
  length sig1 = 64%nat -> length sig2 = 64%nat ->
  ecdsa_der_to_sig der sig1 = ecdsa_der_to_sig der sig2.
Proof.
  intros H1 H2. unfold ecdsa_der_to_sig, SIGNATURE_SIZE_IN_ASN1.
  rewrite (memzero_whole sig1 64 H1), (memzero_whole sig2 64 H2). reflexivity.
Qed.

Lemma ecdsa_der_to_sig_ignores_sig_witness :
  ecdsa_der_to_sig der_length_mismatch dirty_sig
  = ecdsa_der_to_sig der_length_mismatch (repeat 0 64).
Proof.
  apply (ecdsa_der_to_sig_ignores_sig der_length_mismatch dirty_sig (repeat 0 64));
    reflexivity.
Defined.

(** X10: whenever [ecdsa_der_to_sig] returns on a buffer of bytes, the
    output still has 64 bytes, the return code is 0 or -1 (never 1), and it
    is 0 exactly when the three tag bytes are 0x30, 0x02, 0x02 and the
    outer length byte equals the two INTEGER lengths plus 4; the bytes read
    for this are [der[0..3]], [der[4 + b2]] and [der[5 + b2]]. *)
Theorem ecdsa_der_to_sig_outcome (der sig out : list Z) (rc : Z) :
  Forall (fun v => 0 <= v < 256) der -> length sig = 64%nat ->
  ecdsa_der_to_sig der sig = Some (rc, out) ->
  length out = 64%nat /\ (rc = 0 \/ rc = -1) /\
  exists d0 b1 d2 b2 d3 b3,
    der_byte der 0 = Some d0 /\ der_byte der 1 = Some b1 /\
    der_byte der 2 = Some d2 /\ der_byte der 3 = Some b2 /\
    der_byte der (Z.to_nat (4 + b2)) = Some d3 /\
    der_byte der (Z.to_nat (4 + b2 + 1)) = Some b3 /\
    (rc = 0 <-> d0 = 0x30 /\ d2 = 0x02 /\ d3 = 0x02 /\ b2 + b3 + 4 = b1).
Proof.
  intros Hder Hsig. unfold ecdsa_der_to_sig, SIGNATURE_SIZE_IN_ASN1.
  rewrite memzero_whole by exact Hsig.
  destruct (der_byte der 0) as [d0 |] eqn:E0; [| discriminate].
  destruct (der_byte der 1) as [b1 |] eqn:E1; [| discriminate].
  destruct (der_byte der 2) as [d2 |] eqn:E2; [| discriminate].
  destruct (der_byte der 3) as [b2 |] eqn:E3; [| discriminate].
  cbn [obind].
  pose proof (der_byte_range _ _ _ Hder E3) as Hb2.
  destruct (der_integer (repeat 0 64) 0 der 4 b2) as [sig1 |] eqn:I1; [| discriminate].
  cbn [obind].
  pose proof (der_integer_length (repeat 0 64) der sig1 0 4 b2 (proj1 Hb2)) as L1.
  rewrite repeat_length in L1. specialize (L1 ltac:(lia) I1).
  destruct (der_byte der (Z.to_nat (4 + b2))) as [d3 |] eqn:E4; [| discriminate].
  destruct (der_byte der (Z.to_nat (4 + b2 + 1))) as [b3 |] eqn:E5; [| discriminate].
  cbn [obind].
  pose proof (der_byte_range _ _ _ Hder E5) as Hb3.
  destruct (Z.eqb_spec (b2 + b3 + 4) b1) as [Hb | Hb]; cbn [negb].
  - destruct (der_integer sig1 32 der (Z.to_nat (4 + b2 + 2)) b3) as [sig2 |] eqn:I2;
      [| discriminate].
    cbn [obind].
    pose proof (der_integer_length sig1 der sig2 32 (Z.to_nat (4 + b2 + 2)) b3
                  (proj1 Hb3)) as L2.
    rewrite L1 in L2. specialize (L2 ltac:(lia) I2).
    assert (Lz : length (memzero sig2 0 64) = 64%nat)
      by (rewrite memzero_whole by exact L2; apply repeat_length).
    intros H. injection H as Hr Ho.
    assert (Hrc : rc = if (d0 =? 0x30) && (d2 =? 0x02) && (d3 =? 0x02) then 0 else -1).
    { rewrite <- Hr. destruct (d0 =? 48), (d2 =? 2), (d3 =? 2); reflexivity. }
    assert (Hlen : length out = 64%nat).
    { rewrite <- Ho. rewrite Hr. destruct (rc =? -1); [exact Lz | exact L2]. }
    clear Hr Ho. split; [exact Hlen |].
    split; [rewrite Hrc; destruct ((d0 =? 48) && (d2 =? 2) && (d3 =? 2)); auto |].
    exists d0, b1, d2, b2, d3, b3. repeat (split; [first [reflexivity | assumption] |]).
    rewrite Hrc.
    destruct (Z.eqb_spec d0 0x30) as [H0 | H0], (Z.eqb_spec d2 0x02) as [H2 | H2],
      (Z.eqb_spec d3 0x02) as [H3 | H3]; cbn [andb];
      (split; [intros H; first [discriminate H | auto] | intros H; first [reflexivity | exfalso; tauto]]).
  - intros H. injection H as Hr Ho. subst rc out.
    split; [exact L1 |]. split; [right; reflexivity |].
    exists d0, b1, d2, b2, d3, b3. repeat (split; [first [reflexivity | assumption] |]).
    split; [discriminate | tauto].
Qed.

Lemma ecdsa_der_to_sig_outcome_witness :
  length (repeat 0 31 ++ [0x05] ++ repeat 0 32) = 64%nat /\ (-1 = 0 \/ -1 = -1) /\
  exists d0 b1 d2 b2 d3 b3,
    der_byte der_length_mismatch 0 = Some d0 /\
    der_byte der_length_mismatch 1 = Some b1 /\
    der_byte der_length_mismatch 2 = Some d2 /\
    der_byte der_length_mismatch 3 = Some b2 /\
    der_byte der_length_mismatch (Z.to_nat (4 + b2)) = Some d3 /\
    der_byte der_length_mismatch (Z.to_nat (4 + b2 + 1)) = Some b3 /\
    (-1 = 0 <-> d0 = 0x30 /\ d2 = 0x02 /\ d3 = 0x02 /\ b2 + b3 + 4 = b1).
Proof.
  apply (ecdsa_der_to_sig_outcome der_length_mismatch dirty_sig).
  - unfold der_length_mismatch. repeat constructor; discriminate.
  - reflexivity.
  - vm_compute. reflexivity.
Defined.

(** ** Rejection sampling *)

Section Sampling.
Context {ops : BignumOps}.

Lemma after_draws_length (n : nat) :
  forall s : state,
  (9 <= length (rand (after_draws n s)))%nat -> (9 <= length (rand s))%nat.
Proof.
  induction n as [| n IH]; intros s H; [exact H |].
  cbn [after_draws] in H. apply IH in H.
  unfold after_draw in H. cbn [rand] in H. rewrite length_skipn in H. lia.
Qed.

(** The rounds of the loop: [n] rejected passes, then an accepted one. *)
Lemma generate_k_random_rounds (prime : bignum256) (n : nat) :
  forall (k : bignum256) (s : state),
  (forall i, (i < n)%nat -> k_rejected prime (k_of_words (rand (after_draws i s))) = true) ->
  (9 <= length (rand (after_draws n s)))%nat ->
  k_rejected prime (k_of_words (rand (after_draws n s))) = false ->
  generate_k_random k prime s
  = Ok (k_of_words (rand (after_draws n s))) (after_draws (S n) s).
Proof.
  induction n as [| n IH]; intros k s Hrej Hlen Hacc.
  - cbn [after_draws] in *. unfold k_rejected in Hacc.
    apply orb_false_iff in Hacc. destruct Hacc as [Hz Hl].
    apply negb_false_iff in Hl.
    apply generate_k_random_first; assumption.
  - pose proof (after_draws_length (S n) s Hlen) as Hlen0.
    rewrite (generate_k_random_redraw k prime s Hlen0 (Hrej 0%nat ltac:(lia))).
    cbn [after_draws] in *.
    apply (IH (k_of_words (rand s)) (after_draw s)); [| exact Hlen | exact Hacc].
    intros i Hi. exact (Hrej (S i) ltac:(lia)).
Qed.

(** X11: [generate_k_random] is rejection sampling over blocks of nine
    random words: when the first [n] blocks are rejected (zero, or not below
    [prime]) and block [n] is accepted, it returns the limbs made of block
    [n], has consumed exactly [9 * (n + 1)] words, and the result does not
    depend on what [k] held before the call. *)
Theorem generate_k_random_first_accepted (k prime : bignum256) (s : state) (n : nat) :
  (forall i, (i < n)%nat -> k_rejected prime (k_of_words (rand (after_draws i s))) = true) ->
  (9 <= length (rand (after_draws n s)))%nat ->
  k_rejected prime (k_of_words (rand (after_draws n s))) = false ->
  generate_k_random k prime s
  = Ok (k_of_words (rand (after_draws n s))) (after_draws (S n) s) /\
  rand (after_draws (S n) s) = skipn (9 * S n) (rand s) /\
  forall k0, generate_k_random k0 prime s = generate_k_random k prime s.
Proof.
  intros Hrej Hlen Hacc.
  split; [apply generate_k_random_rounds; assumption |].
  split.
  - clear. generalize (S n). intros m. revert s.
    induction m as [| m IH]; intros s; [reflexivity |].
    cbn [after_draws]. rewrite IH. unfold after_draw. cbn [rand].
    rewrite skipn_skipn. f_equal. lia.
  - intros k0.
    rewrite (generate_k_random_rounds prime n k0 s Hrej Hlen Hacc).
    rewrite (generate_k_random_rounds prime n k s Hrej Hlen Hacc). reflexivity.
Qed.

End Sampling.

Lemma generate_k_random_first_accepted_witness :
  generate_k_random (ops := Ref.ops) bn_zeroed secp256k1_order
    (state0 words_order_then_three)
  = Ok (k_of_words (rand (after_draws 1 (state0 words_order_then_three))))
       (after_draws 2 (state0 words_order_then_three)) /\
  rand (after_draws 2 (state0 words_order_then_three))
  = skipn (9 * 2) (rand (state0 words_order_then_three)) /\
  forall k0, generate_k_random (ops := Ref.ops) k0 secp256k1_order
               (state0 words_order_then_three)
             = generate_k_random (ops := Ref.ops) bn_zeroed secp256k1_order
                 (state0 words_order_then_three).
Proof.
  apply (@generate_k_random_first_accepted Ref.ops bn_zeroed secp256k1_order
           (state0 words_order_then_three) 1).
  - intros i Hi. assert (i = 0%nat) as -> by lia. vm_compute. reflexivity.
  - vm_compute. lia.
  - vm_compute. reflexivity.
Defined.

(** ** The scratch values after a multiplication *)

Section Wipe.
Context {ops : BignumOps}.

(** X12: whenever [point_multiply] returns for a scalar that is not zero,
    its static scratch values [a] and [jres] are zero. *)
Theorem point_multiply_wipes_scratch (curve : ecdsa_curve) (k : bignum256)
  (P : curve_point) (s : state) (res : curve_point) (s' : state) :
  k <> bn_zeroed ->
  point_multiply curve k P s = Ok res s' ->
  pm_a s' = bn_zeroed /\ pm_jres s' = jacobian_zeroed.
Proof.
  intros Hk E.
  destruct (point_multiply_exit curve k P s res s' E) as [(H0 & _) | (_ & H)].
  - apply recode_scalar_is_non_zero in H0. contradiction.
  - exact H.
Qed.

(** X13: whenever the table-driven [scalar_multiply] returns for a scalar
    that is not zero, its static scratch values [a] and [jres] are zero. *)
Theorem scalar_multiply_wipes_scratch (curve : ecdsa_curve) (k : bignum256)
  (s : state) (res : curve_point) (s' : state) :
  k <> bn_zeroed ->
  scalar_multiply true curve k s = Ok res s' ->
  sm_a s' = bn_zeroed /\ sm_jres s' = jacobian_zeroed.
Proof.
  intros Hk E. unfold scalar_multiply in E.
  destruct (scalar_multiply_precomputed_exit curve k s res s' E) as [(H0 & _) | (_ & H)].
  - apply recode_scalar_is_non_zero in H0. contradiction.
  - exact H.
Qed.

End Wipe.

Lemma point_multiply_wipes_scratch_witness :
  exists res s',
    point_multiply (ops := Ref.ops) curve_43 (bn_of_Z 2) (curve_G curve_43)
      (state0 words_three) = Ok res s' /\
    pm_a s' = bn_zeroed /\ pm_jres s' = jacobian_zeroed.
Proof.
  assert (Hrun : exists res s',
            point_multiply (ops := Ref.ops) curve_43 (bn_of_Z 2) (curve_G curve_43)
              (state0 words_three) = Ok res s')
    by (vm_compute; eexists; eexists; reflexivity).
  destruct Hrun as (res & s' & E). exists res, s'. split; [exact E |].
  apply (@point_multiply_wipes_scratch Ref.ops curve_43 (bn_of_Z 2) (curve_G curve_43)
           (state0 words_three) res s'); [discriminate | exact E].
Defined.

Lemma scalar_multiply_wipes_scratch_witness :
  exists res s',
    scalar_multiply (ops := Ref.ops) true curve_43 (bn_of_Z 2) (state0 words_three)
    = Ok res s' /\
    sm_a s' = bn_zeroed /\ sm_jres s' = jacobian_zeroed.
Proof.
  assert (Hrun : exists res s',
            scalar_multiply (ops := Ref.ops) true curve_43 (bn_of_Z 2)
              (state0 words_three) = Ok res s')
    by (vm_compute; eexists; eexists; reflexivity).
  destruct Hrun as (res & s' & E). exists res, s'. split; [exact E |].
  apply (@scalar_multiply_wipes_scratch Ref.ops curve_43 (bn_of_Z 2)
           (state0 words_three) res s'); [discriminate | exact E].
Defined.

(** ** Degenerate additions; to Jacobian coordinates and back *)

Section Degenerate.
Context {ops : BignumOps} {spec : BignumSpec ops}.

Lemma point_is_equal_refl (P : curve_point) : point_is_equal P P = true.
Proof.
  unfold point_is_equal. apply andb_true_iff. split; apply bn_is_equal_spec; reflexivity.
Qed.

(** X14: the degenerate cases of the affine operations.  [point_add] of a
    point to itself is [point_double]; [point_double] of a point with
    [y = 0] is the point at infinity; and [point_add] of two points with the
    same [x] and different [y], the first with [y <> 0] and the second not
    the point at infinity, is the point at infinity. *)
Theorem point_add_degenerate (curve : ecdsa_curve) (P Q : curve_point) :
  point_add curve P P = point_double curve P /\
  (py P = bn_zeroed -> point_double curve P = point_set_infinity) /\
  (px P = px Q -> py P <> bn_zeroed -> py P <> py Q -> Q <> point_set_infinity ->
   point_add curve P Q = point_set_infinity).
Proof.
  split; [| split].
  - unfold point_add.
    destruct (point_is_infinity P) eqn:Hinf.
    + unfold point_double. rewrite Hinf. reflexivity.
    + rewrite point_is_equal_refl. reflexivity.
  - intros Hy. unfold point_double.
    destruct (point_is_infinity P) eqn:Hinf.
    + apply point_is_infinity_spec. exact Hinf.
    + replace (bn_is_zero (py P)) with true
        by (symmetry; apply bn_is_zero_spec; exact Hy).
      reflexivity.
  - intros Hx Hy Hne HQ. unfold point_add.
    assert (HP : point_is_infinity P = false).
    { unfold point_is_infinity. apply andb_false_iff. right.
      apply bn_is_zero_false. exact Hy. }
    assert (HQ' : point_is_infinity Q = false).
    { destruct (point_is_infinity Q) eqn:E; [| reflexivity].
      apply point_is_infinity_spec in E. contradiction. }
    assert (HE : point_is_equal P Q = false).
    { unfold point_is_equal. apply andb_false_iff. right.
      apply bn_is_equal_false. exact Hne. }
    rewrite HP, HQ', HE. unfold point_is_negative_of.
    replace (bn_is_equal (px P) (px Q)) with true
      by (symmetry; apply bn_is_equal_spec; exact Hx).
    cbn [negb].
    replace (bn_is_zero (py P)) with false
      by (symmetry; apply bn_is_zero_false; exact Hy).
    replace (bn_is_equal (py P) (py Q)) with false
      by (symmetry; apply bn_is_equal_false; exact Hne).
    reflexivity.
Qed.

Lemma mod_mul_both (P a a' b b' : Z) :
  a mod P = a' mod P -> b mod P = b' mod P -> (a * b) mod P = (a' * b') mod P.
Proof.
  intros Ha Hb. rewrite (mod_mul_r P a b b' Hb).
  rewrite (Z.mul_comm a b'), (Z.mul_comm a' b'). apply mod_mul_r. exact Ha.
Qed.

Lemma mod_one_cancel (P a u : Z) :
  P <> 0 -> u mod P = 1 -> (a * u) mod P = a mod P.
Proof.
  intros HP Hu. rewrite <- Z.mul_mod_idemp_r by exact HP.
  rewrite Hu, Z.mul_1_r. reflexivity.
Qed.

(** What [jacobian_to_curve] makes of the blinded coordinates, for an
    inverse of [z] that is one. *)
Lemma jacobian_unblind (x y z prime : bignum256) :
  bn_modulus prime -> bn_lazy prime x -> bn_lazy prime y ->
  bn_lazy prime z ->
  bn_lazy prime (bn_inverse z prime) ->
  (bn_value (bn_inverse z prime) * bn_value z) mod bn_value prime = 1 ->
  let jp := mk_jacobian
              (bn_multiply x (bn_multiply z z prime) prime)
              (bn_multiply y (bn_multiply z (bn_multiply z z prime) prime) prime) z in
  let q := jacobian_to_curve jp prime in
  bn_normalized (px q) /\ bn_value (px q) = bn_value x mod bn_value prime /\
  bn_normalized (py q) /\ bn_value (py q) = bn_value y mod bn_value prime.
Proof.
  intros Hp Hx Hy Hlz Hil Hinv. cbv zeta. unfold jacobian_to_curve.
  cbn [jx jy jz px py].
  pose proof (modulus_bounds _ Hp) as Hb.
  assert (HP : bn_value prime <> 0) by lia.
  assert (Hlazy : forall a, bn_partly_reduced prime a -> bn_lazy prime a).
  { intros a [Hn Hr]. split; [exact Hn | lia]. }
  set (zi := bn_inverse z prime) in *. clearbody zi.
  (* the blinded coordinates *)
  destruct (bn_multiply_spec z z prime Hp Hlz Hlz) as [Hr2 Hv2].
  set (z2 := bn_multiply z z prime) in *. clearbody z2.
  destruct (bn_multiply_spec z z2 prime Hp Hlz (Hlazy _ Hr2)) as [Hr3 Hv3].
  set (z3 := bn_multiply z z2 prime) in *. clearbody z3.
  destruct (bn_multiply_spec x z2 prime Hp Hx (Hlazy _ Hr2)) as [HrX HvX].
  set (X := bn_multiply x z2 prime) in *. clearbody X.
  destruct (bn_multiply_spec y z3 prime Hp Hy (Hlazy _ Hr3)) as [HrY HvY].
  set (Y := bn_multiply y z3 prime) in *. clearbody Y.
  (* the powers of the inverse *)
  destruct (bn_multiply_spec zi zi prime Hp Hil Hil) as [Hi2r Hi2v].
  set (zi2 := bn_multiply zi zi prime) in *. clearbody zi2.
  destruct (bn_multiply_spec zi2 zi prime Hp (Hlazy _ Hi2r) Hil) as [Hi3r Hi3v].
  set (zi3 := bn_multiply zi2 zi prime) in *. clearbody zi3.
  destruct (bn_multiply_spec X zi2 prime Hp (Hlazy _ HrX) (Hlazy _ Hi2r)) as [Hxr Hxv].
  destruct (bn_multiply_spec Y zi3 prime Hp (Hlazy _ HrY) (Hlazy _ Hi3r)) as [Hyr Hyv].
  destruct (bn_mod_spec _ prime Hp Hxr) as [Hxn Hxm].
  destruct (bn_mod_spec _ prime Hp Hyr) as [Hyn Hym].
  set (P := bn_value prime) in *. clearbody P.
  split; [exact Hxn |]. split; [| split; [exact Hyn |]].
  - rewrite Hxm, Hxv.
    rewrite (mod_mul_both P _ _ _ _ (eq_trans HvX (mod_mul_r P _ _ _ Hv2)) Hi2v).
    replace (bn_value x * (bn_value z * bn_value z) * (bn_value zi * bn_value zi))
      with (bn_value x * (bn_value zi * bn_value z) * (bn_value zi * bn_value z))
      by ring.
    rewrite (mod_one_cancel P _ _ HP Hinv). apply (mod_one_cancel P _ _ HP Hinv).
  - rewrite Hym, Hyv.
    assert (Cz3 : bn_value z3 mod P = (bn_value z * (bn_value z * bn_value z)) mod P)
      by (exact (eq_trans Hv3 (mod_mul_r P _ _ _ Hv2))).
    assert (Ci3 : bn_value zi3 mod P
                  = (bn_value zi * bn_value zi * bn_value zi) mod P).
    { rewrite Hi3v. apply (mod_mul_both P _ _ _ _ Hi2v eq_refl). }
    rewrite (mod_mul_both P _ _ _ _ (eq_trans HvY (mod_mul_r P _ _ _ Cz3)) Ci3).
    replace (bn_value y * (bn_value z * (bn_value z * bn_value z))
             * (bn_value zi * bn_value zi * bn_value zi))
      with (bn_value y * (bn_value zi * bn_value z) * (bn_value zi * bn_value z)
            * (bn_value zi * bn_value z)) by ring.
    rewrite (mod_one_cancel P _ _ HP Hinv), (mod_one_cancel P _ _ HP Hinv).
    apply (mod_one_cancel P _ _ HP Hinv).
Qed.

(** X15: [jacobian_to_curve] undoes [curve_to_jacobian].  For a modulus
    of the class, coordinates between reductions, and a [bn_inverse] that
    returns, for the sampled [z], a lazily reduced number whose product with
    [z] is 1 modulo the prime, the affine point that comes back has
    normalized coordinates equal to the original ones reduced modulo the
    prime, whichever [z] was drawn. *)
Theorem jacobian_round_trip (p : curve_point) (jp0 jp : jacobian_curve_point)
  (prime : bignum256) (s s' : state) :
  bn_modulus prime -> bn_lazy prime (px p) -> bn_lazy prime (py p) ->
  curve_to_jacobian p jp0 prime s = Ok jp s' ->
  bn_lazy prime (bn_inverse (jz jp) prime) ->
  (bn_value (bn_inverse (jz jp) prime) * bn_value (jz jp)) mod bn_value prime = 1 ->
  let q := jacobian_to_curve jp prime in
  bn_normalized (px q) /\ bn_value (px q) = bn_value (px p) mod bn_value prime /\
  bn_normalized (py q) /\ bn_value (py q) = bn_value (py p) mod bn_value prime.
Proof.
  intros Hp Hx Hy H. unfold curve_to_jacobian, bind in H.
  destruct (generate_k_random (jz jp0) prime s) as [z s1 | |] eqn:G;
    try discriminate.
  unfold ret in H. injection H as <- _. cbn [jz].
  unfold generate_k_random in G.
  destruct (generate_k_random_loop_accepted _ _ _ _ _ _ G) as (Hz & Hl & Hn).
  intros Hil Hinv.
  assert (Hlt : bn_value z < bn_value prime).
  { apply bn_is_less_spec; [exact Hn | exact (proj1 Hp) | exact Hl]. }
  pose proof (modulus_bounds _ Hp) as Hb.
  assert (Hlz : bn_lazy prime z) by (split; [exact Hn | lia]).
  exact (jacobian_unblind (px p) (py p) z prime Hp Hx Hy Hlz Hil Hinv).
Qed.

End Degenerate.

Lemma point_add_degenerate_witness :
  (px secp256k1_G = px secp256k1_neg_G /\ py secp256k1_G <> bn_zeroed /\
   py secp256k1_G <> py secp256k1_neg_G /\
   secp256k1_neg_G <> point_set_infinity (ops := Ref.ops)) /\
  point_add (ops := Ref.ops) secp256k1 secp256k1_G secp256k1_neg_G
  = point_set_infinity (ops := Ref.ops).
Proof.
  assert (H1 : px secp256k1_G = px secp256k1_neg_G) by reflexivity.
  assert (H2 : py secp256k1_G <> bn_zeroed) by (vm_compute; discriminate).
  assert (H3 : py secp256k1_G <> py secp256k1_neg_G) by (vm_compute; discriminate).
  assert (H4 : secp256k1_neg_G <> point_set_infinity (ops := Ref.ops))
    by (vm_compute; discriminate).
  split; [repeat split; assumption |].
  exact (proj2 (proj2 (@point_add_degenerate Ref.ops ref_spec secp256k1
                         secp256k1_G secp256k1_neg_G)) H1 H2 H3 H4).
Defined.

Lemma jacobian_round_trip_witness :
  exists jp s',
    curve_to_jacobian (ops := Ref.ops) secp256k1_G jacobian_zeroed secp256k1_prime
      (state0 words_zero_then_three) = Ok jp s' /\
    let q := jacobian_to_curve (ops := Ref.ops) jp secp256k1_prime in
    bn_normalized (px q) /\
    bn_value (px q) = bn_value (px secp256k1_G) mod bn_value secp256k1_prime /\
    bn_normalized (py q) /\
    bn_value (py q) = bn_value (py secp256k1_G) mod bn_value secp256k1_prime.
Proof.
  destruct (curve_to_jacobian (ops := Ref.ops) secp256k1_G jacobian_zeroed
              secp256k1_prime (state0 words_zero_then_three)) as [jp s' | |] eqn:E.
  - exists jp, s'. split; [reflexivity |].
    assert (Ez : jz jp = bn_of_Z 3).
    { vm_compute in E. injection E as <- _. reflexivity. }
    apply (@jacobian_round_trip Ref.ops ref_spec secp256k1_G jacobian_zeroed jp
             secp256k1_prime (state0 words_zero_then_three) s').
    + exact secp256k1_prime_modulus.
    + exact (proj1 secp256k1_G_lazy).
    + exact (proj2 secp256k1_G_lazy).
    + exact E.
    + rewrite Ez. split; [apply bn_of_Z_normalized | vm_compute; reflexivity].
    + rewrite Ez. vm_compute. reflexivity.
  - exfalso. vm_compute in E. discriminate E.
  - exfalso. vm_compute in E. discriminate E.
Defined.

(** ** The digits of [point_multiply] *)

Lemma bn_value_limbs (a : bignum256) : bn_value a = bn_tail a 0.
Proof.
  destruct a as [a0 a1 a2 a3 a4 a5 a6 a7 a8]. unfold bn_tail, limbs, bn_value.
  cbn [skipn limbs_value val0 val1 val2 val3 val4 val5 val6 val7 val8]. ring.
Qed.

Lemma bn_recoded_limb (a : bignum256) (j : nat) :
  bn_recoded a -> limb30 (val a j).
Proof.
  intros (H0 & H1 & H2 & H3 & H4 & H5 & H6 & H7 & H8).
  do 9 (destruct j as [| j]; [cbn [val]; unfold limb30 in *; lia |]).
  cbn [val]. unfold limb30. lia.
Qed.

Lemma bn_tail_step (a : bignum256) (j : nat) :
  bn_tail a j = val a j + 2 ^ 30 * bn_tail a (S j).
Proof.
  unfold bn_tail, limbs.
  do 9 (destruct j as [| j]; [reflexivity |]).
  cbn [skipn val]. destruct j; reflexivity.
Qed.

Lemma bn_tail_div (a : bignum256) (j : nat) :
  bn_recoded a -> bn_value a / 2 ^ (30 * Z.of_nat j) = bn_tail a j.
Proof.
  intros Ha. induction j as [| j IH].
  - change (2 ^ (30 * Z.of_nat 0)) with 1. rewrite Z.div_1_r. apply bn_value_limbs.
  - replace (2 ^ (30 * Z.of_nat (S j))) with (2 ^ (30 * Z.of_nat j) * 2 ^ 30)
      by (rewrite <- Z.pow_add_r by lia; f_equal; lia).
    rewrite <- Z.div_div by lia. rewrite IH, bn_tail_step.
    apply (limb_split _ _ (bn_recoded_limb a j Ha)).
Qed.

(** A window that lies within one limb. *)
Lemma window_inside (x T t : Z) :
  0 <= t <= 25 -> ((x + 2 ^ 30 * T) / 2 ^ t) mod 32 = (x / 2 ^ t) mod 32.
Proof.
  intros Ht.
  replace (x + 2 ^ 30 * T) with (x + (2 ^ (25 - t) * 32 * T) * 2 ^ t).
  - rewrite Z.div_add by lia.
    replace (2 ^ (25 - t) * 32 * T) with (2 ^ (25 - t) * T * 32) by ring.
    apply Z.mod_add. lia.
  - replace (2 ^ 30) with (2 ^ (25 - t) * 32 * 2 ^ t); [ring |].
    change 32 with (2 ^ 5). rewrite <- !Z.pow_add_r by lia. f_equal. lia.
Qed.

(** A window across two limbs: [k] bits of the upper one. *)
Lemma window_across (lo hi T k : Z) :
  0 <= lo < 2 ^ 30 -> 0 <= hi -> 1 <= k <= 4 ->
  Z.land (Z.lor (u32 (Z.shiftl hi k)) (Z.shiftr lo (30 - k))) 31
  = ((lo + 2 ^ 30 * (hi + 2 ^ 30 * T)) / 2 ^ (30 - k)) mod 32.
Proof.
  intros Hlo Hhi Hk.
  change 31 with (Z.ones 5). rewrite Z.land_ones by lia. change (2 ^ 5) with 32.
  rewrite Z.shiftl_mul_pow2, Z.shiftr_div_pow2 by lia. unfold u32.
  assert (E : (hi * 2 ^ k) mod 2 ^ 32 = (hi mod 2 ^ (32 - k)) * 2 ^ k).
  { replace (2 ^ 32) with (2 ^ (32 - k) * 2 ^ k)
      by (rewrite <- Z.pow_add_r by lia; f_equal; lia).
    rewrite Z.mul_mod_distr_r by lia. reflexivity. }
  rewrite E.
  assert (Hlo' : 0 <= lo / 2 ^ (30 - k) < 2 ^ k).
  { split; [apply Z.div_pos; lia |]. apply Z.div_lt_upper_bound; [lia |].
    rewrite <- Z.pow_add_r by lia. replace (30 - k + k) with 30 by lia. lia. }
  rewrite lor_high_low by lia.
  replace (lo + 2 ^ 30 * (hi + 2 ^ 30 * T))
    with (lo + (hi * 2 ^ k + 2 ^ k * 2 ^ 30 * T) * 2 ^ (30 - k)).
  - rewrite Z.div_add by lia.
    assert (Hk' : k = 1 \/ k = 2 \/ k = 3 \/ k = 4) by lia.
    generalize dependent (lo / 2 ^ (30 - k)). intros l' Hl'.
    clear E. destruct Hk' as [-> | [-> | [-> | ->]]];
      cbn [Z.sub Z.add Z.opp Z.pos_sub Pos.pred_double] in *;
      Z.div_mod_to_equations; lia.
  - assert (H30 : 2 ^ 30 = 2 ^ k * 2 ^ (30 - k))
      by (rewrite <- Z.pow_add_r by lia; f_equal; lia).
    rewrite H30. ring.
Qed.

Lemma pow_16 (i : nat) : 16 ^ Z.of_nat i = 2 ^ (4 * Z.of_nat i).
Proof. change 16 with (2 ^ 4). rewrite <- Z.pow_mul_r by lia. reflexivity. Qed.

(** The value at bit [30 * j + t] of the number, from the limbs. *)
Lemma window_at (a : bignum256) (i j : nat) (t : Z) :
  bn_recoded a -> 0 <= t -> 4 * Z.of_nat i = 30 * Z.of_nat j + t ->
  window (bn_value a) i = (bn_tail a j / 2 ^ t) mod 32.
Proof.
  intros Ha Ht E. unfold window. rewrite pow_16, E.
  rewrite Z.pow_add_r by lia. rewrite <- Z.div_div by lia.
  rewrite (bn_tail_div a j Ha). reflexivity.
Qed.

(** The bits read in a round are the window of the digit, and the place in
    [a] moves down by four bits. *)
Lemma next_bits_window (a : bignum256) (i aptr : nat) (ashift : Z) :
  bn_recoded a ->
  30 * Z.of_nat aptr + ashift = 4 * Z.of_nat (S i) ->
  0 <= ashift < 30 -> (aptr <= 8)%nat ->
  exists aptr' ashift',
    next_bits a aptr (val a aptr) ashift
    = (window (bn_value a) i, aptr', val a aptr', ashift') /\
    30 * Z.of_nat aptr' + ashift' = 4 * Z.of_nat i /\
    0 <= ashift' < 30 /\ (aptr' <= 8)%nat.
Proof.
  intros Ha E Hs Hp. unfold next_bits.
  destruct (Z.ltb_spec (ashift - 4) 0) as [Hneg | Hpos].
  - destruct aptr as [| j]; [lia |]. cbn [pred].
    exists j, (ashift - 4 + 30).
    split; [| split; [lia | split; lia]].
    f_equal. f_equal. f_equal.
    rewrite (window_at a i j (30 - (4 - ashift)) Ha) by lia.
    rewrite (bn_tail_step a j), (bn_tail_step a (S j)).
    replace (- (ashift - 4)) with (4 - ashift) by lia.
    replace (ashift - 4 + 30) with (30 - (4 - ashift)) by lia.
    apply window_across.
    + exact (bn_recoded_limb a j Ha).
    + exact (proj1 (bn_recoded_limb a (S j) Ha)).
    + lia.
  - exists aptr, (ashift - 4).
    split; [| split; [lia | split; lia]].
    f_equal. f_equal. f_equal.
    rewrite (window_at a i aptr (ashift - 4) Ha) by lia.
    rewrite (bn_tail_step a aptr).
    rewrite window_inside by lia.
    change 31 with (Z.ones 5). rewrite Z.land_ones, Z.shiftr_div_pow2 by lia.
    reflexivity.
Qed.

(** The sign masks of two digits, combined. *)
Lemma negate_if_lxor (m m' acc : Z) :
  0 <= m < 32 -> 0 <= m' < 32 ->
  digit_sign m' * negate_if (Z.lxor (u32 (Z.shiftr m 4 - 1)) (u32 (Z.shiftr m' 4 - 1))) acc
  = digit_sign m * acc.
Proof.
  intros Hm Hm'. rewrite !Z.shiftr_div_pow2 by lia. change (2 ^ 4) with 16.
  unfold digit_sign.
  assert (Hd : m / 16 = 0 \/ m / 16 = 1) by (Z.div_mod_to_equations; lia).
  assert (Hd' : m' / 16 = 0 \/ m' / 16 = 1) by (Z.div_mod_to_equations; lia).
  destruct Hd as [-> | ->], Hd' as [-> | ->]; cbn [Z.sub Z.add Z.opp Z.pos_sub Z.eqb Pos.eqb];
    change (u32 (-1)) with 4294967295; change (u32 0) with 0;
    unfold negate_if;
    match goal with |- context [Z.lxor ?x ?y =? _] =>
      let b := eval vm_compute in (Z.lxor x y =? 4294967295) in
      change (Z.lxor x y =? 4294967295) with b end;
    cbn [Z.eqb Pos.eqb]; lia.
Qed.

(** The table index of a window gives the magnitude of its digit. *)
Lemma window_magnitude (m : Z) :
  0 <= m < 32 ->
  2 * Z.shiftr (Z.land (Z.lxor m (u32 (Z.shiftr m 4 - 1))) 15) 1 + 1
  = digit_sign m * signed_digit m.
Proof.
  intros Hm. pose proof (window_check_all m Hm) as Hc. unfold window_check in Hc.
  apply andb_true_iff in Hc. destruct Hc as [Hc1 _]. apply Z.eqb_eq in Hc1.
  exact Hc1.
Qed.

Lemma digit_sign_square (m : Z) : digit_sign m * digit_sign m = 1.
Proof. unfold digit_sign. destruct (m / 16 =? 1); reflexivity. Qed.

Lemma window_range (v : Z) (i : nat) : 0 <= window v i < 32.
Proof. unfold window. apply Z.mod_pos_bound. lia. Qed.

(** The digit of a window and the digits above it. *)
Lemma round_odd_window (v : Z) (i : nat) :
  round_odd (v / 16 ^ Z.of_nat i)
  = signed_digit (window v i) + 16 * round_odd (v / 16 ^ Z.of_nat (S i)).
Proof.
  rewrite (round_odd_step (v / 16 ^ Z.of_nat i)). unfold window.
  rewrite Z.div_div by lia. rewrite Nat2Z.inj_succ, Z.pow_succ_r by lia.
  rewrite (Z.mul_comm 16 (16 ^ Z.of_nat i)). reflexivity.
Qed.

Lemma point_exponent_round_invariant (a : bignum256) (i : nat) (l : pe_loop) :
  bn_recoded a -> (i <= 62)%nat ->
  pe_invariant a (S i) l -> pe_invariant a i (point_exponent_round a i l).
Proof.
  intros Ha Hi (E & Hs & Hp & Hb & Hsg & Hacc).
  unfold point_exponent_round. rewrite Hb.
  destruct (next_bits_window a i (pe_aptr l) (pe_ashift l) Ha E Hs Hp)
    as (aptr' & ashift' & -> & E' & Hs' & Hp').
  unfold pe_invariant. cbn [pe_aptr pe_abits pe_ashift pe_sign pe_acc].
  split; [exact E' |]. split; [exact Hs' |]. split; [exact Hp' |].
  split; [reflexivity |]. split; [reflexivity |].
  pose proof (window_range (bn_value a) i) as Hm'.
  pose proof (window_range (bn_value a) (S i)) as Hm.
  rewrite Hsg, (window_magnitude _ Hm').
  rewrite Z.mul_add_distr_l, (negate_if_lxor _ _ _ Hm Hm').
  rewrite (Z.mul_assoc (digit_sign (window (bn_value a) i))), digit_sign_square, Z.mul_1_l.
  replace (digit_sign (window (bn_value a) (S i)) * (2 * (2 * (2 * (2 * pe_acc l)))))
    with (16 * (digit_sign (window (bn_value a) (S i)) * pe_acc l)) by ring.
  rewrite Hacc, (round_odd_window (bn_value a) i).
  replace (16 ^ Z.of_nat (64 - i)) with (16 * 16 ^ Z.of_nat (64 - S i)).
  - generalize (16 ^ Z.of_nat (64 - S i)). intros p. ring.
  - rewrite <- Z.pow_succ_r by lia. f_equal. lia.
Qed.

Lemma for_down_0 {S : Type} (body : nat -> S -> S) (s : S) : for_down 0 body s = s.
Proof. reflexivity. Qed.

Lemma for_down_S {S : Type} (n : nat) (body : nat -> S -> S) (s : S) :
  for_down (Datatypes.S n) body s = for_down n body (body n s).
Proof. reflexivity. Qed.

Lemma point_exponent_rounds_invariant (a : bignum256) (n : nat) :
  bn_recoded a -> forall l : pe_loop, (n <= 63)%nat ->
  pe_invariant a n l -> pe_invariant a 0 (for_down n (point_exponent_round a) l).
Proof.
  intros Ha. induction n as [| n IH]; intros l Hn Hl.
  - rewrite for_down_0. exact Hl.
  - rewrite for_down_S. apply IH; [lia |].
    apply point_exponent_round_invariant; [exact Ha | lia | exact Hl].
Qed.

(** The multiple that the doublings, table lookups and sign changes of
    [point_multiply] add up to. *)
Lemma point_exponent_value (a : bignum256) :
  bn_recoded a ->
  point_exponent a = round_odd (bn_value a) - 2 ^ 256 * round_odd (bn_value a / 2 ^ 256).
Proof.
  intros Ha. unfold point_exponent.
  assert (Hw : Z.shiftr (val a 8) 12 = window (bn_value a) 63).
  { rewrite (window_at a 63 8 12 Ha) by lia.
    rewrite (bn_tail_step a 8). change (bn_tail a 9) with 0.
    rewrite Z.mul_0_r, Z.add_0_r, Z.shiftr_div_pow2 by lia.
    symmetry. apply Z.mod_small.
    destruct Ha as (_ & _ & _ & _ & _ & _ & _ & _ & H8). cbn [val].
    split; [apply Z.div_pos; lia | apply Z.div_lt_upper_bound; lia]. }
  rewrite Hw.
  pose proof (window_range (bn_value a) 63) as Hm.
  assert (Hinit : pe_invariant a 63
            (mk_pe_loop 8 (val a 8) 12 (u32 (Z.shiftr (window (bn_value a) 63) 4 - 1))
               (2 * Z.shiftr (Z.land (Z.lxor (window (bn_value a) 63)
                    (u32 (Z.shiftr (window (bn_value a) 63) 4 - 1))) 15) 1 + 1))).
  { unfold pe_invariant. cbn [pe_aptr pe_abits pe_ashift pe_sign pe_acc].
    split; [reflexivity |]. split; [lia |]. split; [lia |].
    split; [reflexivity |]. split; [reflexivity |].
    rewrite (window_magnitude _ Hm).
    rewrite (Z.mul_assoc (digit_sign (window (bn_value a) 63))), digit_sign_square,
      Z.mul_1_l.
    rewrite (round_odd_window (bn_value a) 63).
    change (16 ^ Z.of_nat (64 - 63)) with 16.
    change (16 ^ Z.of_nat 64) with (2 ^ 256). ring. }
  pose proof (point_exponent_rounds_invariant a 63 Ha _ (le_n 63) Hinit)
    as (_ & _ & _ & _ & Hsg & Hacc).
  generalize dependent (for_down 63 (point_exponent_round a)
    (mk_pe_loop 8 (val a 8) 12 (u32 (Z.shiftr (window (bn_value a) 63) 4 - 1))
       (2 * Z.shiftr (Z.land (Z.lxor (window (bn_value a) 63)
            (u32 (Z.shiftr (window (bn_value a) 63) 4 - 1))) 15) 1 + 1))).
  intros l Hsg Hacc.
  change (16 ^ Z.of_nat 0) with 1 in Hacc. rewrite Z.div_1_r in Hacc.
  change (16 ^ Z.of_nat (64 - 0)) with (2 ^ 256) in Hacc.
  rewrite <- Hacc, Hsg.
  pose proof (window_range (bn_value a) 0) as Hm0.
  generalize dependent (window (bn_value a) 0). intros m _ _ Hm0.
  rewrite Z.shiftr_div_pow2 by lia. change (2 ^ 4) with 16. unfold digit_sign.
  assert (Hd : m / 16 = 0 \/ m / 16 = 1) by (Z.div_mod_to_equations; lia).
  destruct Hd as [-> | ->]; cbn [Z.sub Z.add Z.opp Z.pos_sub Z.eqb Pos.eqb];
    [change (u32 (-1)) with 4294967295 | change (u32 0) with 0];
    unfold negate_if; cbn [Z.eqb Pos.eqb]; lia.
Qed.

Section Reads.
Context {ops : BignumOps}.

(** A round of [point_multiply] that returns has moved through [a] as
    [next_bits] does and has kept the sign mask of the window it read. *)
Lemma point_multiply_round_reads (curve : ecdsa_curve) (a : bignum256)
  (pmult : list curve_point) (p : curve_point) (i : nat) (l l' : pm_loop)
  (s s' : state) :
  point_multiply_round curve a pmult p i l s = Ok l' s' ->
  exists bits,
    next_bits a (pl_aptr l) (pl_abits l) (pl_ashift l)
    = (bits, pl_aptr l', pl_abits l', pl_ashift l') /\
    pl_sign l' = u32 (Z.shiftr bits 4 - 1).
Proof.
  unfold point_multiply_round, next_bits, bind.
  destruct (point_jacobian_double (pl_jres l) curve s) as [j1 s1 | |]; try discriminate.
  destruct (point_jacobian_double j1 curve s1) as [j2 s2 | |]; try discriminate.
  destruct (point_jacobian_double j2 curve s2) as [j3 s3 | |]; try discriminate.
  destruct (point_jacobian_double j3 curve s3) as [j4 s4 | |]; try discriminate.
  destruct (pl_ashift l - 4 <? 0).
  - destruct (conditional_negate _ (jz j4) (curve_prime curve) s4) as [z s5 | |];
      try discriminate.
    destruct (point_jacobian_add _ _ curve s5) as [j5 s6 | |]; try discriminate.
    unfold ret. intros H. injection H as <- _. eexists. split; reflexivity.
  - destruct (conditional_negate _ (jz j4) (curve_prime curve) s4) as [z s5 | |];
      try discriminate.
    destruct (point_jacobian_add _ _ curve s5) as [j5 s6 | |]; try discriminate.
    unfold ret. intros H. injection H as <- _. eexists. split; reflexivity.
Qed.

End Reads.

Section Windows.
Context {ops : BignumOps}.

(** X16: a round of the main loop of [point_multiply] reads the right
    bits.  When [aptr], [abits] and [ashift] stand at bit [4 * (i + 1)] of a
    recoded scalar, a round [i] that returns leaves them at bit [4 * i], and
    the sign mask it keeps is the one of bits [4*i .. 4*i+4] of the number,
    also when those bits lie across two limbs. *)
Theorem point_multiply_round_window (curve : ecdsa_curve) (a : bignum256)
  (pmult : list curve_point) (p : curve_point) (i : nat) (l l' : pm_loop)
  (s s' : state) :
  bn_recoded a ->
  30 * Z.of_nat (pl_aptr l) + pl_ashift l = 4 * Z.of_nat (S i) ->
  0 <= pl_ashift l < 30 -> (pl_aptr l <= 8)%nat ->
  pl_abits l = val a (pl_aptr l) ->
  point_multiply_round curve a pmult p i l s = Ok l' s' ->
  30 * Z.of_nat (pl_aptr l') + pl_ashift l' = 4 * Z.of_nat i /\
  0 <= pl_ashift l' < 30 /\ (pl_aptr l' <= 8)%nat /\
  pl_abits l' = val a (pl_aptr l') /\
  pl_sign l' = u32 (Z.shiftr (window (bn_value a) i) 4 - 1).
Proof.
  intros Ha E Hs Hp Hb H.
  destruct (point_multiply_round_reads curve a pmult p i l l' s s' H) as (bits & Hn & Hsg).
  rewrite Hb in Hn.
  destruct (next_bits_window a i (pl_aptr l) (pl_ashift l) Ha E Hs Hp)
    as (aptr' & ashift' & Hn' & E' & Hs' & Hp').
  rewrite Hn' in Hn. injection Hn as <- -> Hab ->.
  rewrite Hsg. repeat (split; [first [assumption | symmetry; assumption | lia] |]).
  reflexivity.
Qed.

End Windows.

Lemma point_multiply_round_window_witness :
  exists l' s',
    point_multiply_round (ops := Ref.ops) secp256k1 sample_recoded
      (repeat secp256k1_G 8) secp256k1_G 62
      (pm_loop_entry sample_recoded secp256k1_G_jacobian) (state0 []) = Ok l' s' /\
    30 * Z.of_nat (pl_aptr l') + pl_ashift l' = 4 * Z.of_nat 62 /\
    0 <= pl_ashift l' < 30 /\ (pl_aptr l' <= 8)%nat /\
    pl_abits l' = val sample_recoded (pl_aptr l') /\
    pl_sign l' = u32 (Z.shiftr (window (bn_value sample_recoded) 62) 4 - 1).
Proof.
  assert (Hrun : exists l' s',
            point_multiply_round (ops := Ref.ops) secp256k1 sample_recoded
              (repeat secp256k1_G 8) secp256k1_G 62
              (pm_loop_entry sample_recoded secp256k1_G_jacobian) (state0 [])
            = Ok l' s')
    by (vm_compute; eexists; eexists; reflexivity).
  destruct Hrun as (l' & s' & E). exists l', s'. split; [exact E |].
  assert (Ha : bn_recoded sample_recoded).
  { unfold bn_recoded, limb30. vm_compute. intuition discriminate. }
  refine (@point_multiply_round_window Ref.ops secp256k1 sample_recoded
            (repeat secp256k1_G 8) secp256k1_G 62
            (pm_loop_entry sample_recoded secp256k1_G_jacobian) l' (state0 []) s'
            Ha _ _ _ _ E).
  - reflexivity.
  - cbn [pm_loop_entry pl_ashift]. lia.
  - cbn [pm_loop_entry pl_aptr]. lia.
  - reflexivity.
Defined.



(** ** The returns of the key recovery *)

Section Recover.
Context {ops : BignumOps}.

(** X18: every return of [ecdsa_recover_pub_from_sig].  It returns 1 with
    [pub_key] and the random source and scratch values left as they were,
    or it returns 0; and it returns 0 only when [r] and [s] passed the range
    tests against the order, the x-coordinate passed the test against the
    prime when bit 1 of [recid] is set, and the candidate point passed
    [ecdsa_validate_pubkey]: then [pub_key] holds 0x04 followed by the two
    coordinates as [bn_write_be] writes them. *)
Theorem ecdsa_recover_outcome (USE_PRECOMPUTED_CP : bool) (curve : ecdsa_curve)
  (pub_key sig digest : list Z) (recid rc : Z) (out : list Z) (st st' : state) :
  ecdsa_recover_pub_from_sig USE_PRECOMPUTED_CP curve pub_key sig digest recid st
  = Ok (rc, out) st' ->
  let r := bn_read_be sig in
  let s := bn_read_be (skipn 32 sig) in
  let x := if negb (Z.land recid 2 =? 0) then bn_add r (curve_order curve) else r in
  (rc = 1 /\ out = pub_key /\ st' = st) \/
  (rc = 0 /\
   bn_is_less r (curve_order curve) = true /\ bn_is_zero r = false /\
   bn_is_less s (curve_order curve) = true /\ bn_is_zero s = false /\
   (Z.land recid 2 <> 0 -> bn_is_less x (curve_prime curve) = true) /\
   ecdsa_validate_pubkey curve
     (mk_point x (uncompress_coords curve (Z.land recid 1) x)) <> 0 /\
   nth 0 out 0 = 0x04 /\
   exists cp, out = store (store (store pub_key 0 [0x04]) 1 (bn_write_be (px cp)))
                          33 (bn_write_be (py cp))).
Proof.
  cbv zeta. unfold ecdsa_recover_pub_from_sig.
  destruct (negb (bn_is_less (bn_read_be sig) (curve_order curve))
            || bn_is_zero (bn_read_be sig)) eqn:E1.
  { unfold ret. intros H. injection H as <- <- <-. left. auto. }
  destruct (negb (bn_is_less (bn_read_be (skipn 32 sig)) (curve_order curve))
            || bn_is_zero (bn_read_be (skipn 32 sig))) eqn:E2.
  { unfold ret. intros H. injection H as <- <- <-. left. auto. }
  match goal with
  | |- (if ?c then _ else _) _ = _ -> _ => destruct c eqn:E3
  end.
  { unfold ret. intros H. injection H as <- <- <-. left. auto. }
  match goal with
  | |- (if ?c then _ else _) _ = _ -> _ => destruct c eqn:E4
  end.
  { unfold ret. intros H. injection H as <- <- <-. left. auto. }
  unfold bind.
  match goal with
  | |- match ?c with Ok _ _ => _ | Abort => _ | Starved => _ end = _ -> _ =>
      destruct c as [cp1 s1 | |]; try discriminate
  end.
  match goal with
  | |- match ?c with Ok _ _ => _ | Abort => _ | Starved => _ end = _ -> _ =>
      destruct c as [cp2 s2 | |]; try discriminate
  end.
  match goal with
  | |- match ?c with Ok _ _ => _ | Abort => _ | Starved => _ end = _ -> _ =>
      destruct c as [cp3 s3 | |]; try discriminate
  end.
  unfold ret. intros H. injection H as <- <- <-. right.
  apply orb_false_iff in E1. destruct E1 as [E1a E1b]. apply negb_false_iff in E1a.
  apply orb_false_iff in E2. destruct E2 as [E2a E2b]. apply negb_false_iff in E2a.
  split; [reflexivity |].
  split; [exact E1a |]. split; [exact E1b |].
  split; [exact E2a |]. split; [exact E2b |].
  split.
  { intros Hr. apply Z.eqb_neq in Hr. rewrite Hr in E3. cbn [negb andb] in E3.
    apply negb_false_iff in E3. rewrite Hr. exact E3. }
  split; [apply Z.eqb_neq; exact E4 |].
  split; [reflexivity |].
  exists cp3. reflexivity.
Qed.

End Recover.

Lemma ecdsa_recover_outcome_witness :
  exists out st',
    ecdsa_recover_pub_from_sig (ops := Ref.ops) true curve_43 empty_pub_key
      sig_2_3 digest_70 0 (state0 (words_three ++ words_three ++ words_three))
    = Ok (0, out) st' /\
    nth 0 out 0 = 0x04.
Proof.
  assert (Hrun : exists out st',
            ecdsa_recover_pub_from_sig (ops := Ref.ops) true curve_43 empty_pub_key
              sig_2_3 digest_70 0 (state0 (words_three ++ words_three ++ words_three))
            = Ok (0, out) st')
    by (vm_compute; eexists; eexists; reflexivity).
  destruct Hrun as (out & st' & E). exists out, st'. split; [exact E |].
  destruct (@ecdsa_recover_outcome Ref.ops true curve_43 empty_pub_key sig_2_3
              digest_70 0 0 out _ st' E) as [(H & _) | (_ & _ & _ & _ & _ & _ & _ & H & _)].
  - discriminate H.
  - exact H.
Defined.
